(** * Transcript editing panel: text substitution, change bookkeeping and the
      timeline policy of the segment replacement engine.

    The development embeds the transcript editing logic of
    [frontend/src/components/TranscriptPanel.tsx] (the functions
    [getCurrentText], [applyChangesToText], [handleSaveEdit] and
    [handleApplyChanges]), the request wrapper [applyTranscriptChanges] of
    [frontend/src/lib/api/project-api.ts] and the two project-store actions
    the panel calls.  The server side engine (edit resolution, synthesis,
    timeline reconciliation, splicing, remuxing) has no source file in the
    front end; its timeline reconciler and its top level operation are
    modelled from the written specification in [Module Engine]. *)

From Stdlib Require Import List ZArith QArith String Ascii Bool Lia Lqa.
From Stdlib Require Import Permutation Sorted.
Import ListNotations.

Set Implicit Arguments.

(* ===================================================================== *)
(** ** JavaScript strings                                                *)
(* ===================================================================== *)

(** A JavaScript string is a finite sequence of code units.  The functions of
    the panel only cut and concatenate strings, so a code unit is an opaque
    character here.  Indices are JavaScript numbers holding integers (they
    come from [indexOf], [length] and sums of those); they are integers of
    [Z], negative values included ([indexOf] answers [-1]). *)
Module JS.

Definition jsstring : Type := list ascii.

(** String literal to code units, for readable examples. *)
Definition lit (s : string) : jsstring := list_ascii_of_string s.

(** [s.length] *)
Definition length (s : jsstring) : Z := Z.of_nat (List.length s).

(** [min(max(i, 0), len)], the clamping step of [String.prototype.substring]. *)
Definition clamp (len i : Z) : Z := Z.min (Z.max i 0) len.

(** [s.substring(start, end)]: both indices are clamped to [0 .. s.length]
    and swapped when [start > end]. *)
Definition substring (s : jsstring) (start end_ : Z) : jsstring :=
  let len := length s in
  let finalStart := clamp len start in
  let finalEnd := clamp len end_ in
  let from := Z.min finalStart finalEnd in
  let to := Z.max finalStart finalEnd in
  firstn (Z.to_nat (to - from)) (skipn (Z.to_nat from) s).

(** [s.substring(start)]: the end index defaults to [s.length]. *)
Definition substringFrom (s : jsstring) (start : Z) : jsstring :=
  substring s start (length s).

(** Truthiness of a string in a condition: the empty string is falsy. *)
Definition truthy (s : jsstring) : bool :=
  match s with [] => false | _ :: _ => true end.

End JS.

Abbreviation jsstring := JS.jsstring.

(* ===================================================================== *)
(** ** Data model of the panel                                           *)
(* ===================================================================== *)

(** [interface TranscriptItem]; the optional numeric fields are carried as
    exact rationals and are never inspected by the functions below. *)
Module TranscriptItem.
Record t : Type := mk {
  id : string;
  speaker : string;
  timestamp : string;
  text : jsstring;
  isHighlighted : option bool;
  startTime : option Q;
  endTime : option Q
}.
End TranscriptItem.

(** [interface TextChange] *)
Module TextChange.
Record t : Type := mk {
  id : string;
  transcriptId : string;
  timestamp : string;
  oldText : jsstring;
  newText : jsstring;
  startIndex : Z;
  endIndex : Z;
  changeTime : string
}.
End TextChange.

(** [interface EditingState]; the tooltip position is a pair of pixel
    coordinates. *)
Module EditingState.
Record t : Type := mk {
  transcriptId : string;
  selectedText : jsstring;
  startIndex : Z;
  endIndex : Z;
  newText : jsstring;
  position : Q * Q
}.
End EditingState.

(** [interface TextSegment] *)
Module TextSegment.
Record t : Type := mk {
  text : jsstring;
  isChanged : bool;
  changeId : option string
}.
End TextSegment.

(** [interface Project] and [interface ProjectResponse] of
    [types/project.ts].  The two interfaces have the same fields (the panel
    casts one to the other); the [File] handle of [Project] plays no part
    here.  Numeric fields are exact rationals. *)
Module Project.
Inductive Status : Type := uploading | processing | completed | error.
Record t : Type := mk {
  id : string;
  title : string;
  description : option string;
  videoUrl : option string;
  thumbnailUrl : option string;
  duration : option Q;
  fileSize : option Q;
  mimeType : option string;
  status : Status;
  createdAt : string;
  updatedAt : string;
  userId : string
}.
End Project.

(** [interface ProjectApiResponse], the snake_case wire format. *)
Module ProjectApiResponse.
Record t : Type := mk {
  id : string;
  title : string;
  description : option string;
  video_url : option string;
  thumbnail_url : option string;
  duration : option Q;
  file_size : option Q;
  mime_type : option string;
  status : Project.Status;
  created_at : string;
  updated_at : string;
  user_id : string
}.
End ProjectApiResponse.

(** [interface ApiResponse<T>]; [error] is a string, an object or [null]. *)
Module ApiResponse.
Inductive ErrorValue : Type :=
| ErrorString (s : string)
| ErrorObject.
Record t (T : Type) : Type := mk {
  success : bool;
  data : option T;
  error : option ErrorValue;
  message : option string
}.
Arguments mk {T} _ _ _ _.
End ApiResponse.

(** An awaited promise either resolves with a value or rejects; a rejection
    carries the [message] of the thrown [Error], or nothing when the thrown
    value is not an [Error]. *)
Inductive Outcome (T : Type) : Type :=
| Resolved (value : T)
| Rejected (message : option string).
Arguments Resolved {T} _.
Arguments Rejected {T} _.

(* ===================================================================== *)
(** ** [ProjectApi] and the project store                                *)
(* ===================================================================== *)

Module ProjectApi.
Section WithTransport.

(** [buildMediaUrl] of [lib/utils], which is outside the sources. *)
Variable buildMediaUrl : string -> string.

(** [apiClient.post] for the endpoint and the [{ changes }] body. *)
Variable post : string -> list TextChange.t ->
                Outcome (ApiResponse.t ProjectApiResponse.t).

(** [x ? buildMediaUrl(x) : undefined]: an absent or empty string is
    falsy. *)
Definition mediaUrl (u : option string) : option string :=
  match u with
  | Some EmptyString => None
  | Some x => Some (buildMediaUrl x)
  | None => None
  end.

Definition mapApiProjectToProject (apiProject : ProjectApiResponse.t)
  : Project.t :=
  Project.mk
    (ProjectApiResponse.id apiProject)
    (ProjectApiResponse.title apiProject)
    (ProjectApiResponse.description apiProject)
    (mediaUrl (ProjectApiResponse.video_url apiProject))
    (mediaUrl (ProjectApiResponse.thumbnail_url apiProject))
    (ProjectApiResponse.duration apiProject)
    (ProjectApiResponse.file_size apiProject)
    (ProjectApiResponse.mime_type apiProject)
    (ProjectApiResponse.status apiProject)
    (ProjectApiResponse.created_at apiProject)
    (ProjectApiResponse.updated_at apiProject)
    (ProjectApiResponse.user_id apiProject).

(** The URL of the request of [applyTranscriptChanges]. *)
Definition applyChangesEndpoint (projectId : string) : string :=
  ("/projects/" ++ projectId ++ "/apply-changes")%string.

(** [applyTranscriptChanges]: the change list is posted as it is; a
    successful response with data has its project mapped, any other
    response is handed back as it came.  Such a response reaches the
    caller under a cast; its [data], if any, is unmapped wire data that the
    caller never reads once [success] is false, and is left out here. *)
Definition applyTranscriptChanges (projectId : string)
           (changes : list TextChange.t)
  : Outcome (ApiResponse.t Project.t) :=
  match post (applyChangesEndpoint projectId) changes with
  | Rejected m => Rejected m
  | Resolved response =>
      match ApiResponse.success response, ApiResponse.data response with
      | true, Some d =>
          Resolved (ApiResponse.mk true (Some (mapApiProjectToProject d))
                      (ApiResponse.error response)
                      (ApiResponse.message response))
      | _, _ =>
          Resolved (ApiResponse.mk (ApiResponse.success response) None
                      (ApiResponse.error response)
                      (ApiResponse.message response))
      end
  end.

End WithTransport.
End ProjectApi.

(** The part of the project store the panel touches: the project list, the
    current project and the two status fields [refreshCurrentProject]
    writes. *)
Module ProjectStore.

Record ProjectState : Type := mkState {
  projects : list Project.t;
  currentProject : option Project.t;
  isLoading : bool;
  error : option string
}.

(** [setUpdatedProject] *)
Definition setUpdatedProject (project : Project.t) (state : ProjectState)
  : ProjectState :=
  mkState
    (map (fun p => if String.eqb (Project.id p) (Project.id project)
                   then project else p)
         (projects state))
    (match currentProject state with
     | Some cur => if String.eqb (Project.id cur) (Project.id project)
                   then Some project else Some cur
     | None => None
     end)
    (isLoading state)
    (error state).

(** [response.error as string]: the cast keeps a string and leaves an
    object to be stored as it is; only the string case is observable
    here. *)
Definition errorText (e : option ApiResponse.ErrorValue) : option string :=
  match e with
  | Some (ApiResponse.ErrorString s) => Some s
  | _ => None
  end.

Section WithTransport.

(** [projectApi.getProject] *)
Variable getProject : string -> Outcome (ApiResponse.t Project.t).

(** [refreshCurrentProject]; it catches every rejection itself. *)
Definition refreshCurrentProject (state : ProjectState) : ProjectState :=
  let state1 := mkState (projects state) (currentProject state) true None in
  let projectId := match currentProject state1 with
                   | Some cur => Project.id cur
                   | None => EmptyString
                   end in
  match getProject projectId with
  | Resolved response =>
      match ApiResponse.success response, ApiResponse.data response with
      | true, Some d => mkState (projects state1) (Some d) false None
      | _, _ => mkState (projects state1) (currentProject state1) false
                        (errorText (ApiResponse.error response))
      end
  | Rejected (Some m) =>
      mkState (projects state1) (currentProject state1) false (Some m)
  | Rejected None =>
      mkState (projects state1) (currentProject state1) false
              (Some "Failed to refresh current project"%string)
  end.

End WithTransport.
End ProjectStore.

(* ===================================================================== *)
(** ** The text functions of [TranscriptPanel]                           *)
(* ===================================================================== *)

Module TranscriptPanel.

Local Open Scope Z_scope.

(** [[...l].sort((a, b) => a.startIndex - b.startIndex)].  The sort of
    [Array.prototype.sort] is stable: elements whose comparison is [0] keep
    their order.  [insertChange c l] puts [c], which preceded every element
    of [l] in the array, before the first element it does not compare
    greater than. *)
Fixpoint insertChange (c : TextChange.t) (l : list TextChange.t)
  : list TextChange.t :=
  match l with
  | [] => [c]
  | d :: l' =>
      if 0 <? TextChange.startIndex c - TextChange.startIndex d
      then d :: insertChange c l'
      else c :: d :: l'
  end.

Definition sortChanges (l : list TextChange.t) : list TextChange.t :=
  fold_right insertChange [] l.

(** [changes.filter(c => c.transcriptId === transcript.id)] *)
Definition changesOf (changes : list TextChange.t) (transcript : TranscriptItem.t)
  : list TextChange.t :=
  filter (fun c => String.eqb (TextChange.transcriptId c)
                              (TranscriptItem.id transcript)) changes.

(** The body of the [forEach] of [getCurrentText]; the loop state is the
    pair [(workingText, offset)]. *)
Definition applyStep (st : jsstring * Z) (change : TextChange.t)
  : jsstring * Z :=
  let '(workingText, offset) := st in
  let adjustedStartIndex := TextChange.startIndex change + offset in
  let adjustedEndIndex := TextChange.endIndex change + offset in
  (JS.substring workingText 0 adjustedStartIndex
     ++ TextChange.newText change
     ++ JS.substringFrom workingText adjustedEndIndex,
   offset + (JS.length (TextChange.newText change)
             - (TextChange.endIndex change - TextChange.startIndex change))).

(** [getCurrentText]; the component state [changes] it closes over is the
    first argument. *)
Definition getCurrentText (changes : list TextChange.t)
           (transcript : TranscriptItem.t) : jsstring :=
  let transcriptChanges := changesOf changes transcript in
  if Nat.eqb (List.length transcriptChanges) 0 then
    TranscriptItem.text transcript
  else
    let sortedChanges := sortChanges transcriptChanges in
    fst (fold_left applyStep sortedChanges (TranscriptItem.text transcript, 0)).

(** Loop state of [applyChangesToText]. *)
Record RenderState : Type := mkRender {
  segments : list TextSegment.t;
  currentIndex : Z;
  workingText : jsstring;
  offset : Z
}.

(** [segments.push(x)] guarded by the two conditions of the source. *)
Definition pushUnchanged (segs : list TextSegment.t) (unchangedText : jsstring)
  : list TextSegment.t :=
  if JS.truthy unchangedText
  then segs ++ [TextSegment.mk unchangedText false None]
  else segs.

(** The body of the [forEach] of [applyChangesToText]. *)
Definition renderStep (st : RenderState) (change : TextChange.t) : RenderState :=
  let adjustedStartIndex := TextChange.startIndex change + offset st in
  let adjustedEndIndex := TextChange.endIndex change + offset st in
  let segs1 :=
    if currentIndex st <? adjustedStartIndex
    then pushUnchanged (segments st)
           (JS.substring (workingText st) (currentIndex st) adjustedStartIndex)
    else segments st in
  let segs2 :=
    segs1 ++ [TextSegment.mk (TextChange.newText change) true
                             (Some (TextChange.id change))] in
  mkRender segs2
    (adjustedStartIndex + JS.length (TextChange.newText change))
    (JS.substring (workingText st) 0 adjustedStartIndex
       ++ TextChange.newText change
       ++ JS.substringFrom (workingText st) adjustedEndIndex)
    (offset st + (JS.length (TextChange.newText change)
                  - (TextChange.endIndex change - TextChange.startIndex change))).

(** [applyChangesToText] *)
Definition applyChangesToText (originalText : jsstring)
           (transcriptChanges : list TextChange.t) : list TextSegment.t :=
  if Nat.eqb (List.length transcriptChanges) 0 then
    [TextSegment.mk originalText false None]
  else
    let sortedChanges := sortChanges transcriptChanges in
    let st := fold_left renderStep sortedChanges
                        (mkRender [] 0 originalText 0) in
    if currentIndex st <? JS.length (workingText st)
    then pushUnchanged (segments st)
           (JS.substringFrom (workingText st) (currentIndex st))
    else segments st.

(** What [renderTextWithChanges] puts on the screen: the [text] of every
    segment, in order. *)
Definition renderedText (segs : list TextSegment.t) : jsstring :=
  List.concat (map TextSegment.text segs).

(* ------------------------------------------------------------------- *)
(** *** Component state and event handlers                               *)
(* ------------------------------------------------------------------- *)

(** A [toast] call: its kind, title and description. *)
Inductive ToastKind : Type := ToastLoading | ToastSuccess | ToastError.
Record Toast : Type := mkToast {
  toastKind : ToastKind;
  toastTitle : string;
  toastDescription : option string
}.

(** The [useState] cells of the component. *)
Record PanelState : Type := mkPanel {
  changes : list TextChange.t;
  editingState : option EditingState.t;
  activeTab : string;
  isApplyingChanges : bool
}.

(** Everything a handler can read or write: the component state, the
    project store, the toasts raised and the apply-changes requests sent
    (project id and posted change list), oldest first. *)
Record World : Type := mkWorld {
  panel : PanelState;
  store : ProjectStore.ProjectState;
  toasts : list Toast;
  sent : list (string * list TextChange.t)
}.

(** [handleSaveEdit].  [now] is [Date.now().toString()] and [nowTime] is
    [new Date().toLocaleTimeString()]. *)
Definition handleSaveEdit (transcripts : list TranscriptItem.t)
           (now nowTime : string) (st : PanelState) : PanelState :=
  match editingState st with
  | None => st
  | Some es =>
      match find (fun t => String.eqb (TranscriptItem.id t)
                                      (EditingState.transcriptId es))
                 transcripts with
      | None => st
      | Some transcript =>
          let change :=
            TextChange.mk now
              (EditingState.transcriptId es)
              (TranscriptItem.timestamp transcript)
              (EditingState.selectedText es)
              (EditingState.newText es)
              (EditingState.startIndex es)
              (EditingState.endIndex es)
              nowTime in
          mkPanel (changes st ++ [change]) None (activeTab st)
                  (isApplyingChanges st)
      end
  end.

Definition setIsApplyingChanges (b : bool) (w : World) : World :=
  mkWorld (mkPanel (changes (panel w)) (editingState (panel w))
                   (activeTab (panel w)) b)
          (store w) (toasts w) (sent w).

Definition setChanges (cs : list TextChange.t) (w : World) : World :=
  mkWorld (mkPanel cs (editingState (panel w)) (activeTab (panel w))
                   (isApplyingChanges (panel w)))
          (store w) (toasts w) (sent w).

Definition toast (t : Toast) (w : World) : World :=
  mkWorld (panel w) (store w) (toasts w ++ [t]) (sent w).

Definition updateStore (f : ProjectStore.ProjectState -> ProjectStore.ProjectState)
           (w : World) : World :=
  mkWorld (panel w) (f (store w)) (toasts w) (sent w).

Definition logRequest (projectId : string) (cs : list TextChange.t)
           (w : World) : World :=
  mkWorld (panel w) (store w) (toasts w) (sent w ++ [(projectId, cs)]).

(** The [catch] block of [handleApplyChanges]. *)
Definition failureToast (message : option string) : Toast :=
  mkToast ToastError "Failed to apply changes."
    (Some (match message with
           | Some m => m
           | None => "An unknown error occurred."%string
           end)).

Section Handlers.

Variable buildMediaUrl : string -> string.
Variable post : string -> list TextChange.t ->
                Outcome (ApiResponse.t ProjectApiResponse.t).
Variable getProject : string -> Outcome (ApiResponse.t Project.t).

(** [handleApplyChanges], run to completion. *)
Definition handleApplyChanges (selectedProject : option Project.t)
           (w : World) : World :=
  match selectedProject with
  | None => w
  | Some project =>
      if String.eqb (Project.id project) EmptyString
         || Nat.eqb (List.length (changes (panel w))) 0
      then w
      else
        let w1 := setIsApplyingChanges true w in
        let w2 := toast (mkToast ToastLoading
                           "Applying changes and generating new video..."
                           (Some "This may take a few moments. Please wait."%string))
                        w1 in
        let w3 := logRequest (Project.id project) (changes (panel w)) w2 in
        let w4 :=
          match ProjectApi.applyTranscriptChanges buildMediaUrl post
                  (Project.id project) (changes (panel w)) with
          | Resolved response =>
              match ApiResponse.success response,
                    ApiResponse.data response with
              | true, Some d =>
                  let a := updateStore (ProjectStore.setUpdatedProject d) w3 in
                  let b := updateStore
                             (ProjectStore.refreshCurrentProject getProject) a in
                  let c := toast (mkToast ToastSuccess
                                    "Video updated successfully!"
                                    (Some "The new video is now available."%string))
                                 b in
                  setChanges [] c
              | _, _ =>
                  let errorMessage :=
                    match ApiResponse.error response with
                    | Some (ApiResponse.ErrorString s) => s
                    | _ => "Failed to apply changes."%string
                    end in
                  toast (failureToast (Some errorMessage)) w3
              end
          | Rejected m => toast (failureToast m) w3
          end in
        setIsApplyingChanges false w4
  end.

End Handlers.

End TranscriptPanel.

Import TranscriptPanel.


(* ===================================================================== *)
(** ** One edit at a time                                                *)
(* ===================================================================== *)

(** The reference the batch application is compared with.  It is written
    from the words of the specification and uses nothing of the panel: no
    sort, no running offset, no [substring]. *)
Module OneAtATime.

Local Open Scope Z_scope.

(** Length change caused by one edit. *)
Definition lengthChange (c : TextChange.t) : Z :=
  JS.length (TextChange.newText c)
  - (TextChange.endIndex c - TextChange.startIndex c).

(** Modelled from the spec: one edit applied to a text, "a character-range
    substitution": the code units before [startIndex], the new text, the
    code units from [endIndex] on.  No source function applies a single
    edit to a text. *)
Definition applyEdit (txt : jsstring) (startIndex endIndex : Z)
           (newText : jsstring) : jsstring :=
  firstn (Z.to_nat startIndex) txt ++ newText ++ skipn (Z.to_nat endIndex) txt.

(** Modelled from the spec: "applying edits one-at-a-time in index order on
    a copy of the text", the edits taken in the order given, each applied to
    the result of the previous application.  The range of an edit is
    expressed against the original text; in the copy it lies further right
    by as many code units as the copy has grown so far, which is read off
    the two texts. *)
Fixpoint applyInOrder (original copy : jsstring) (edits : list TextChange.t)
  : jsstring :=
  match edits with
  | [] => copy
  | e :: rest =>
      let moved := JS.length copy - JS.length original in
      applyInOrder original
        (applyEdit copy (TextChange.startIndex e + moved)
                   (TextChange.endIndex e + moved) (TextChange.newText e))
        rest
  end.

(** Modelled from the spec: the one-at-a-time application to a copy of the
    text. *)
Definition applyOneAtATime (txt : jsstring) (edits : list TextChange.t)
  : jsstring :=
  applyInOrder txt txt edits.

End OneAtATime.

Import OneAtATime.

(* ===================================================================== *)
(** ** The engine: timeline reconciliation and the top level operation   *)
(* ===================================================================== *)

(** The front end only declares the segment type and calls the
    [apply-changes] endpoint; the engine behind it is described by the
    written specification alone.  Its definitions here follow that text.
    Times are exact rationals (seconds). *)
Module Engine.

Local Open Scope Q_scope.

(** [interface TranscriptSegment] of the front end types. *)
Record TranscriptSegment : Type := mkSegment {
  id : string;
  startTime : Q;
  endTime : Q;
  speaker : string;
  text : jsstring;
  confidence : option Q
}.

(** Modelled from the spec: the record SynthesisResult
    [{segmentId, audioBytes, measuredDuration, sourceText}] of section 3,
    which no source file declares. *)
Record SynthesisResult : Type := mkResult {
  segmentId : string;
  audioBytes : list Byte.byte;
  measuredDuration : Q;
  sourceText : jsstring
}.

(** Modelled from the spec: the entries of a ReconciledTimeline,
    [{kind: original|synthesized, sourceSpan, outputStart, outputEnd}]. *)
Inductive Kind : Type := original | synthesized.
Record Entry : Type := mkEntry {
  kind : Kind;
  sourceSpan : Q * Q;
  outputStart : Q;
  outputEnd : Q
}.
Definition ReconciledTimeline : Type := list Entry.

(** Modelled from the spec: the error taxonomy of section 7 and the
    validation failures of sections 4.1 and 4.2. *)
Inductive ValidationKind : Type :=
  TextMismatch | OverlappingEdits | UnknownSegment.
Inductive EngineError : Type :=
| InvalidTranscript
| ValidationError (k : ValidationKind)
| SynthesisFailed
| ReconciliationError
| RemuxError.

(** Modelled from the spec: the single tagged result every component
    failure bubbles up as (section 7), with its sequencing. *)
Inductive Result (A : Type) : Type :=
| Ok (a : A)
| Err (e : EngineError).
Arguments Ok {A} _.
Arguments Err {A} _.

Definition bind {A B : Type} (r : Result A) (k : A -> Result B) : Result B :=
  match r with
  | Ok a => k a
  | Err e => Err e
  end.

Notation "x <- r ;; k" := (bind r (fun x => k))
  (at level 61, r at next level, right associativity).

(** Modelled from the spec: [validate] of section 4.1, "checks sort order,
    non-overlap, and bounds against media duration".  [cursor] is the end
    of the previous segment. *)
Fixpoint validFrom (cursor mediaDuration : Q) (segs : list TranscriptSegment)
  : bool :=
  match segs with
  | [] => Qle_bool cursor mediaDuration
  | s :: rest =>
      Qle_bool cursor (startTime s)
      && Qle_bool (startTime s) (endTime s)
      && validFrom (endTime s) mediaDuration rest
  end.

(** Modelled from the spec: the contract
    [validate(segments) -> Result<void, InvalidTranscript>]. *)
Definition validate (mediaDuration : Q) (segs : list TranscriptSegment)
  : Result unit :=
  if validFrom 0 mediaDuration segs then Ok tt else Err InvalidTranscript.

(** Modelled from the spec: the old duration, [endTime - startTime]. *)
Definition oldDuration (s : TranscriptSegment) : Q := endTime s - startTime s.

(** Modelled from the spec: the new version of a segment, with a new span
    ("never in place - a new segment version is produced"). *)
Definition retime (s : TranscriptSegment) (newStart newEnd : Q)
  : TranscriptSegment :=
  mkSegment (id s) newStart newEnd (speaker s) (text s) (confidence s).

(** Modelled from the spec: a span of original audio between two segments
    (or before the first, after the last): "a transcript with gaps between
    segments (silence) treats the gap as its own original-kind span". *)
Definition gap (from to shift : Q) : list Entry :=
  if Qle_bool to from then []
  else [mkEntry original (from, to) (from + shift) (to + shift)].

(** Modelled from the spec: the contiguity check run on the finished
    timeline, and the check that it starts at 0. *)
Fixpoint contiguousb (tl : ReconciledTimeline) : bool :=
  match tl with
  | [] => true
  | e1 :: rest =>
      match rest with
      | [] => true
      | e2 :: _ => Qeq_bool (outputEnd e1) (outputStart e2) && contiguousb rest
      end
  end.

Definition startsAtZerob (tl : ReconciledTimeline) : bool :=
  match tl with
  | [] => true
  | e :: _ => Qeq_bool (outputStart e) 0
  end.

(** Modelled from the spec: the total output duration, the lengths of the
    entries added up. *)
Fixpoint totalDuration (tl : ReconciledTimeline) : Q :=
  match tl with
  | [] => 0
  | e :: rest => (outputEnd e - outputStart e) + totalDuration rest
  end.

Section Reconciler.

(** Modelled from the spec: the synthesis results of the batch, one per
    edited segment. *)
Variable results : list SynthesisResult.

(** Modelled from the spec: a segment is edited when the batch holds a
    result for its id. *)
Definition resultFor (s : TranscriptSegment) : option SynthesisResult :=
  find (fun r => String.eqb (segmentId r) (id s)) results.

(** Modelled from the spec: the policy of section 4.4.  [shift] is the
    running sum of the deltas of the edited segments met so far; an
    edited segment is resized to its measured duration and adds
    [delta = newDuration - oldDuration] to the shift; an unedited one
    keeps its duration and moves by the shift. *)
Fixpoint reconcileSegments (shift : Q) (segs : list TranscriptSegment)
  : list TranscriptSegment :=
  match segs with
  | [] => []
  | s :: rest =>
      match resultFor s with
      | Some r =>
          retime s (startTime s + shift)
                   (startTime s + shift + measuredDuration r)
          :: reconcileSegments
               (shift + (measuredDuration r - oldDuration s)) rest
      | None =>
          retime s (startTime s + shift) (endTime s + shift)
          :: reconcileSegments shift rest
      end
  end.

(** Modelled from the spec: the ReconciledTimeline of the same walk.
    [cursor] is the source time reached so far. *)
Fixpoint buildTimeline (cursor shift mediaDuration : Q)
         (segs : list TranscriptSegment) : ReconciledTimeline :=
  match segs with
  | [] => gap cursor mediaDuration shift
  | s :: rest =>
      gap cursor (startTime s) shift ++
      match resultFor s with
      | Some r =>
          mkEntry synthesized (startTime s, endTime s)
                  (startTime s + shift)
                  (startTime s + shift + measuredDuration r)
          :: buildTimeline (endTime s)
               (shift + (measuredDuration r - oldDuration s))
               mediaDuration rest
      | None =>
          mkEntry original (startTime s, endTime s)
                  (startTime s + shift) (endTime s + shift)
          :: buildTimeline (endTime s) shift mediaDuration rest
      end
  end.

(** Modelled from the spec: the sum of [newDuration - oldDuration] over
    the edited segments. *)
Fixpoint sumDeltas (segs : list TranscriptSegment) : Q :=
  match segs with
  | [] => 0
  | s :: rest =>
      match resultFor s with
      | Some r => (measuredDuration r - oldDuration s) + sumDeltas rest
      | None => sumDeltas rest
      end
  end.

(** Modelled from the spec: the Timeline Reconciler.  The transcript is
    validated first; the timeline is "validated for contiguity before
    being handed to the Splicer", a violation being a
    ReconciliationError. *)
Definition reconcile (mediaDuration : Q) (segs : list TranscriptSegment)
  : Result (ReconciledTimeline * list TranscriptSegment) :=
  _ <- validate mediaDuration segs ;;
  let tl := buildTimeline 0 0 mediaDuration segs in
  if contiguousb tl && startsAtZerob tl
  then Ok (tl, reconcileSegments 0 segs)
  else Err ReconciliationError.

End Reconciler.

(** Modelled from the spec: a TextEdit of section 3 and the EditPlan, "one
    new-text value per affected segment id". *)
Record TextEdit : Type := mkEdit {
  editSegmentId : string;
  oldText : jsstring;
  newText : jsstring;
  startIndex : Z;
  endIndex : Z
}.
Definition EditPlan : Type := list (string * jsstring).

Section TopLevel.

(** Modelled from the spec: media artifacts and audio buffers, opaque to
    the engine. *)
Variables Media Audio : Type.

(** Modelled from the spec: an entry of the Gateway's cache, "keyed by
    [(segmentId, sourceText)]" (section 3). *)
Definition CacheEntry : Type := (string * jsstring * SynthesisResult)%type.

(** Modelled from the spec: what the engine reads and writes outside
    itself (sections 4.3 and 6).  Project storage holds the transcript, the
    media duration and the reference of the current media artifact; file
    storage holds the artifacts written so far and hands out the reference
    of an artifact when it is written, the position of the artifact among
    them, so that a write never lands on an artifact that exists ("the
    output is always written to a new artifact"); the Gateway keeps its
    cache. *)
Record Storage : Type := mkStorage {
  segments : list TranscriptSegment;
  mediaDuration : Q;
  mediaLocation : nat;
  artifacts : list Media;
  cache : list CacheEntry
}.

(** Modelled from the spec: the components around the reconciler, as the
    specification names them: the Edit Resolver, the remote call of the
    Speech Synthesizer Gateway (after its own retries), the Audio Splicer
    and the Media Remuxer. *)
Variable resolve : list TranscriptSegment -> list TextEdit -> Result EditPlan.
Variable synthesize : string -> jsstring -> Result SynthesisResult.
Variable splice : option Media -> ReconciledTimeline ->
                  list SynthesisResult -> Audio.
Variable remux : option Media -> Audio -> Result Media.

(** Modelled from the spec: a step of the engine acts on storage and
    either yields a value or fails with the single tagged error of section
    7.  Nothing is undone when a step fails: storage is then whatever the
    steps before it have left. *)
Definition Step (A : Type) : Type := Storage -> Result A * Storage.

(** Modelled from the spec: a step that only yields a value. *)
Definition yield {A : Type} (a : A) : Step A := fun st => (Ok a, st).

(** Modelled from the spec: the result of a component that touches no
    storage, as a step. *)
Definition lift {A : Type} (r : Result A) : Step A := fun st => (r, st).

(** Modelled from the spec: "data flows strictly downward" and "all
    component failures bubble up as a single tagged result": the next step
    runs on the storage the step before it left, and a failure ends the
    run there. *)
Definition andThen {A B : Type} (m : Step A) (k : A -> Step B) : Step B :=
  fun st =>
    match m st with
    | (Ok a, st1) => k a st1
    | (Err e, st1) => (Err e, st1)
    end.

Notation "x <~ m ;; k" := (andThen m (fun x => k))
  (at level 61, m at next level, right associativity).

(** Modelled from the spec: the original media read by reference
    (section 6). *)
Definition readArtifact (st : Storage) : option Media :=
  nth_error (artifacts st) (mediaLocation st).

(** Modelled from the spec: the read of [(segments, mediaDuration)] from
    project storage (section 6). *)
Definition readTranscript : Step (list TranscriptSegment * Q) :=
  fun st => (Ok (segments st, mediaDuration st), st).

(** Modelled from the spec: the read of the original media as a step. *)
Definition readOriginal : Step (option Media) :=
  fun st => (Ok (readArtifact st), st).

(** Modelled from the spec: "write the output artifact by reference"
    (section 6): the output is stored as a new artifact and its reference
    is yielded. *)
Definition writeArtifact (m : Media) : Step nat :=
  fun st =>
    (Ok (List.length (artifacts st)),
     mkStorage (segments st) (mediaDuration st) (mediaLocation st)
               (artifacts st ++ [m]) (cache st)).

(** Modelled from the spec: "write back the new media artifact's location
    and the transcript's new segment text on success" (section 6), with
    the new duration. *)
Definition writeBack (segs : list TranscriptSegment) (duration : Q)
           (ref : nat) : Step unit :=
  fun st => (Ok tt, mkStorage segs duration ref (artifacts st) (cache st)).

(** Equality of two texts, decided. *)
Definition textEqb (a b : jsstring) : bool :=
  if list_eq_dec ascii_dec a b then true else false.

(** Modelled from the spec: the cache lookup of the Gateway by
    [(segmentId, text)]. *)
Definition cached (entries : list CacheEntry) (sid : string) (txt : jsstring)
  : option SynthesisResult :=
  match find (fun en => String.eqb (fst (fst en)) sid
                        && textEqb (snd (fst en)) txt) entries with
  | Some en => Some (snd en)
  | None => None
  end.

(** Modelled from the spec: the "persisted cache entry" a remote call
    leaves (section 4.3). *)
Definition remember (sid : string) (txt : jsstring) (r : SynthesisResult)
  : Step unit :=
  fun st =>
    (Ok tt,
     mkStorage (segments st) (mediaDuration st) (mediaLocation st)
               (artifacts st) ((sid, txt, r) :: cache st)).

(** Modelled from the spec: one call of the Gateway, a cache lookup and,
    on a miss, the remote call, whose audio is cached. *)
Definition synthesizeOne (sid : string) (txt : jsstring)
  : Step SynthesisResult :=
  fun st =>
    match cached (cache st) sid txt with
    | Some r => (Ok r, st)
    | None =>
        (r <~ lift (synthesize sid txt) ;;
         _ <~ remember sid txt r ;;
         yield r) st
    end.

(** Modelled from the spec: all synthesis calls of a batch; one terminal
    failure fails the batch (section 5). *)
Fixpoint synthesizeAll (plan : EditPlan) : Step (list SynthesisResult) :=
  match plan with
  | [] => yield []
  | (sid, txt) :: rest =>
      r <~ synthesizeOne sid txt ;;
      rs <~ synthesizeAll rest ;;
      yield (r :: rs)
  end.

(** Modelled from the spec: the new text of the plan written into the
    segments it names. *)
Definition applyPlan (plan : EditPlan) (segs : list TranscriptSegment)
  : list TranscriptSegment :=
  map (fun s =>
         match find (fun p => String.eqb (fst p) (id s)) plan with
         | Some p => mkSegment (id s) (startTime s) (endTime s) (speaker s)
                               (snd p) (confidence s)
         | None => s
         end) segs.

(** Modelled from the spec: [applyEditsToMedia] of section 6, the pipeline
    of section 2 followed by the writes of section 6, with the propagation
    policy of section 7: the first component that fails ends the run. *)
Definition applyEditsToMedia (edits : list TextEdit) : Step nat :=
  tr <~ readTranscript ;;
  plan <~ lift (resolve (fst tr) edits) ;;
  rs <~ synthesizeAll plan ;;
  r <~ lift (reconcile rs (snd tr) (fst tr)) ;;
  orig <~ readOriginal ;;
  out <~ lift (remux orig (splice orig (fst r) rs)) ;;
  ref <~ writeArtifact out ;;
  _ <~ writeBack (applyPlan plan (snd r)) (totalDuration (fst r)) ref ;;
  yield ref.

End TopLevel.

End Engine.

(* ===================================================================== *)
(** ** Predicates used in the statements                                 *)
(* ===================================================================== *)

Module Batch.

Local Open Scope Z_scope.

(** Order of two changes by start index. *)
Definition startsLe (c d : TextChange.t) : Prop :=
  TextChange.startIndex c <= TextChange.startIndex d.
Definition startsLt (c d : TextChange.t) : Prop :=
  TextChange.startIndex c < TextChange.startIndex d.

(** What [getCurrentText] does past its early return. *)
Definition runBatch (txt : jsstring) (cs : list TextChange.t) : jsstring :=
  fst (fold_left applyStep (sortChanges cs) (txt, 0)).

(** A list of edits in which every edit has [from <= startIndex <=
    endIndex] and starts at or after the end of the edit before it
    ([edit[i].endIndex <= edit[i+1].startIndex]): no two ranges overlap
    and no index is negative when [from] is [0]. *)
Fixpoint chained (from : Z) (cs : list TextChange.t) : Prop :=
  match cs with
  | [] => True
  | c :: rest =>
      from <= TextChange.startIndex c
      /\ TextChange.startIndex c <= TextChange.endIndex c
      /\ chained (TextChange.endIndex c) rest
  end.

(** The original text with the ranges of the edits replaced, read from
    position [from] on: what lies before an edit is copied, the edit's new
    text follows, and reading resumes at the end of the edit's range. *)
Fixpoint spliced (txt : jsstring) (from : Z) (cs : list TextChange.t)
  : jsstring :=
  match cs with
  | [] => JS.substringFrom txt from
  | c :: rest =>
      JS.substring txt from (TextChange.startIndex c)
        ++ TextChange.newText c
        ++ spliced txt (TextChange.endIndex c) rest
  end.

(** The batch recorded for an item is free of overlap once sorted. *)
Definition nonOverlapping (changes : list TextChange.t)
           (t : TranscriptItem.t) : Prop :=
  chained 0 (sortChanges (changesOf changes t)).




(** What the render loop keeps true: the segments pushed so far spell the
    first [currentIndex] code units of the working text, and
    [currentIndex], taken back by the offset, is the end (in the original
    text) of the last edit processed. *)
Definition renderInv (from : Z) (st : RenderState) : Prop :=
  renderedText (segments st)
  = firstn (Z.to_nat (currentIndex st)) (workingText st)
  /\ 0 <= currentIndex st
  /\ currentIndex st = from + offset st.

(** The server answered the apply-changes request of the project with a
    success that carries the project [d]. *)
Definition reportsSuccess
           (post : string -> list TextChange.t ->
                   Outcome (ApiResponse.t ProjectApiResponse.t))
           (projectId : string) (cs : list TextChange.t)
           (d : ProjectApiResponse.t) : Prop :=
  exists r,
    post (ProjectApi.applyChangesEndpoint projectId) cs = Resolved r
    /\ ApiResponse.success r = true
    /\ ApiResponse.data r = Some d.

(** The handler goes past its guard: a project with an id is selected and
    some change is pending. *)
Definition submits (project : Project.t) (w : World) : Prop :=
  Project.id project <> EmptyString /\ changes (panel w) <> [].

End Batch.

Import Batch.

(* ===================================================================== *)
(** ** Predicates on timelines                                           *)
(* ===================================================================== *)

Module Timeline.

Import Engine.
Local Open Scope Q_scope.

(** The entries follow one another without a hole, the first one starting
    at [x]: [entry[i].outputEnd == entry[i+1].outputStart]. *)
Fixpoint contiguousFrom (x : Q) (tl : ReconciledTimeline) : Prop :=
  match tl with
  | [] => True
  | e :: rest => outputStart e == x /\ contiguousFrom (outputEnd e) rest
  end.

(** Contiguity of consecutive entries alone. *)
Definition contiguous (tl : ReconciledTimeline) : Prop :=
  match tl with
  | [] => True
  | e :: rest => contiguousFrom (outputEnd e) rest
  end.

(** The first entry, when there is one, starts at output time 0. *)
Definition startsAtZero (tl : ReconciledTimeline) : Prop :=
  match tl with
  | [] => True
  | e :: _ => outputStart e == 0
  end.

(** The entries take their source spans in increasing source time, none
    before [x]: the output order is the order of the original audio. *)
Fixpoint sourceOrderedFrom (x : Q) (tl : ReconciledTimeline) : Prop :=
  match tl with
  | [] => True
  | e :: rest =>
      x <= fst (sourceSpan e)
      /\ fst (sourceSpan e) <= snd (sourceSpan e)
      /\ sourceOrderedFrom (snd (sourceSpan e)) rest
  end.

Definition isSynthesized (e : Entry) : bool :=
  match kind e with synthesized => true | original => false end.

Definition isEdited (results : list SynthesisResult) (s : TranscriptSegment)
  : bool :=
  match resultFor results s with Some _ => true | None => false end.

Definition span (s : TranscriptSegment) : Q * Q := (startTime s, endTime s).

(** The running sum of the deltas of the edited segments before
    position [i]. *)
Definition priorShift (results : list SynthesisResult)
           (segs : list TranscriptSegment) (i : nat) : Q :=
  sumDeltas results (firstn i segs).

(** Output time at which the timeline ends. *)
Definition outputEndOf (tl : ReconciledTimeline) : Q :=
  outputEnd (last tl (mkEntry original (0, 0) 0 0)).

End Timeline.

(* ===================================================================== *)
(** ** Predicates on storage                                             *)
(* ===================================================================== *)

Module Swap.

Import Engine.

Section OnStorage.

Variable Media : Type.
Variable synthesize : string -> jsstring -> Result SynthesisResult.

(** Project storage and file storage of [st'] are those of [st]: the
    transcript, the media duration, the reference of the current media and
    every stored artifact.  Only the cache of the Gateway may differ. *)
Definition untouched (st st' : Storage Media) : Prop :=
  segments st' = segments st
  /\ mediaDuration st' = mediaDuration st
  /\ mediaLocation st' = mediaLocation st
  /\ artifacts st' = artifacts st.

(** The result [r] for the planned text [p] is an answer of the Gateway:
    found in the cache [entries] or returned by the remote call. *)
Definition synthesizedFor (entries : list CacheEntry)
           (p : string * jsstring) (r : SynthesisResult) : Prop :=
  cached entries (fst p) (snd p) = Some r
  \/ synthesize (fst p) (snd p) = Ok r.

(** Every entry of the cache [later] was in [entries] or is an answer of
    the remote call. *)
Definition cacheFrom (entries later : list CacheEntry) : Prop :=
  forall sid txt r,
    cached later sid txt = Some r -> synthesizedFor entries (sid, txt) r.

End OnStorage.

End Swap.

(* ===================================================================== *)
(** ** Concrete inputs                                                   *)
(* ===================================================================== *)

Module Examples.

Local Open Scope Z_scope.
Local Open Scope string_scope.

Definition item (id txt : string) : TranscriptItem.t :=
  TranscriptItem.mk id "Speaker" "00:10 - 00:12" (JS.lit txt) None
                    (Some (10 # 1)%Q) (Some (12 # 1)%Q).

Definition change (id tid : string) (s e : Z) (old new : string)
  : TextChange.t :=
  TextChange.mk id tid "00:10 - 00:12" (JS.lit old) (JS.lit new) s e
                "10:00:00 AM".

(** A segment and two edits of it whose ranges [0,5) and [3,8) overlap.
    The edit of [3,8) is made first and leaves "abcYYYYYij" on the screen;
    the selection "abcYY" of that text, found at index 0, gives the edit of
    [0,5). *)
Definition s1 : TranscriptItem.t := item "s1" "abcdefghij".
Definition overlapB : TextChange.t := change "1" "s1" 3 8 "defgh" "YYYYY".
Definition overlapA : TextChange.t := change "2" "s1" 0 5 "abcYY" "X".

(** An edit whose start index is [-1], the answer of [indexOf] for a
    selection that is not found in the text. *)
Definition negativeEdit : TextChange.t := change "7" "s1" (-1) 2 "cba" "X".

(** Two edits of [s1] that do not overlap, and one of another segment. *)
Definition editA : TextChange.t := change "3" "s1" 0 1 "a" "XX".
Definition editB : TextChange.t := change "4" "s1" 3 4 "d" "Y".
Definition editOther : TextChange.t := change "5" "s2" 0 1 "z" "Q".



(** An editing tooltip open on the range [0,5) of [s1]. *)
Definition editingA : EditingState.t :=
  EditingState.mk "s1" (JS.lit "abcYY") 0 5 (JS.lit "X") (0 # 1, 0 # 1)%Q.

(** A project, its wire form, and transports: a server that reports
    success, one that reports a failed synthesis, one whose request
    rejects. *)
Definition project1 : Project.t :=
  Project.mk "p1" "Sale" None (Some "/media/p1.mp4") None (Some (20 # 1)%Q)
             None None Project.completed "2024-01-01" "2024-01-01" "u1".
Definition apiProject1 : ProjectApiResponse.t :=
  ProjectApiResponse.mk "p1" "Sale" None (Some "/media/p1-v2.mp4") None
                        (Some (204 # 10)%Q) None None Project.completed
                        "2024-01-01" "2024-01-02" "u1".
Definition mediaUrl (u : string) : string := "http://localhost:8000" ++ u.
Definition serverOk (_ : string) (_ : list TextChange.t)
  : Outcome (ApiResponse.t ProjectApiResponse.t) :=
  Resolved (ApiResponse.mk true (Some apiProject1) None None).
Definition serverFails (_ : string) (_ : list TextChange.t)
  : Outcome (ApiResponse.t ProjectApiResponse.t) :=
  Resolved (ApiResponse.mk false None
              (Some (ApiResponse.ErrorString "Synthesis failed")) None).
Definition serverDown (_ : string) (_ : list TextChange.t)
  : Outcome (ApiResponse.t ProjectApiResponse.t) :=
  Rejected (Some "Network error").
Definition getProjectOk (_ : string) : Outcome (ApiResponse.t Project.t) :=
  Resolved (ApiResponse.mk true (Some project1) None None).

(** The panel with the given pending changes and tooltip, nothing sent. *)
Definition world (cs : list TextChange.t) (es : option EditingState.t) : World :=
  mkWorld (mkPanel cs es "changes" false)
          (ProjectStore.mkState [project1] (Some project1) false None)
          [] [].

(** The transcript of the sale scenario: four segments over twenty
    seconds, a second of silence before the last one; [s1] spans
    [10, 12) and is resynthesized in 2.4 seconds. *)
Definition segment (id : string) (a b : Q) (txt : string)
  : Engine.TranscriptSegment :=
  Engine.mkSegment id a b "Speaker" (JS.lit txt) None.
Definition transcript : list Engine.TranscriptSegment :=
  [ segment "s0" (0 # 1) (10 # 1) "Welcome back";
    segment "s1" (10 # 1) (12 # 1) "Monday sale";
    segment "s2" (12 # 1) (15 # 1) "Prices drop";
    segment "s3" (16 # 1) (20 # 1) "See you there" ].
Definition saleResult : Engine.SynthesisResult :=
  Engine.mkResult "s1" [] (24 # 10) (JS.lit "Friday sale").

(** Engine components for a run of the top level operation: a resolver
    that plans the new text of [s1], a synthesizer that answers with
    [saleResult] or fails, a splicer and a remuxer over byte counts, a
    remuxer that fails, and storage holding the transcript and the original
    media as artifact 0. *)
Definition resolver (_ : list Engine.TranscriptSegment)
           (_ : list Engine.TextEdit) : Engine.Result Engine.EditPlan :=
  Engine.Ok [("s1", JS.lit "Friday sale")].
Definition synthOk (_ : string) (_ : jsstring)
  : Engine.Result Engine.SynthesisResult := Engine.Ok saleResult.
Definition synthFails (_ : string) (_ : jsstring)
  : Engine.Result Engine.SynthesisResult := Engine.Err Engine.SynthesisFailed.
Definition splicer (_ : option nat) (tl : Engine.ReconciledTimeline)
           (_ : list Engine.SynthesisResult) : nat := List.length tl.
Definition remuxer (_ : option nat) (a : nat) : Engine.Result nat :=
  Engine.Ok a.
Definition remuxFails (_ : option nat) (_ : nat) : Engine.Result nat :=
  Engine.Err Engine.RemuxError.
Definition storage : Engine.Storage nat :=
  Engine.mkStorage transcript (20 # 1) 0 [7%nat] [].
Definition saleEdit : Engine.TextEdit :=
  Engine.mkEdit "s1" (JS.lit "Monday") (JS.lit "Friday") 0 6.

End Examples.

(* ===================================================================== *)
(** ** More of the panel: selection, tooltip and change list handlers    *)
(* ===================================================================== *)

Module PanelActions.

Local Open Scope Z_scope.

(** The code units below 256 that [String.prototype.trim] removes: tab,
    line feed, vertical tab, form feed, carriage return, space and the
    no-break space. *)
Definition isWhiteSpace (a : ascii) : bool :=
  let n := nat_of_ascii a in
  (Nat.eqb n 9 || Nat.eqb n 10 || Nat.eqb n 11 || Nat.eqb n 12
   || Nat.eqb n 13 || Nat.eqb n 32 || Nat.eqb n 160)%bool.

(** [s.trim() === ''] *)
Definition isBlank (s : jsstring) : bool := forallb isWhiteSpace s.

(** [sub] is found in [s] at position 0. *)
Fixpoint startsWith (s sub : jsstring) : bool :=
  match sub with
  | [] => true
  | b :: sub' =>
      match s with
      | [] => false
      | a :: s' => Ascii.eqb a b && startsWith s' sub'
      end
  end.

(** [s.indexOf(sub)], searched from position [i] of the whole string on: the
    first position at which [sub] is found, or [-1]. *)
Fixpoint indexOfFrom (i : Z) (s sub : jsstring) : Z :=
  if startsWith s sub then i
  else match s with
       | [] => -1
       | _ :: s' => indexOfFrom (i + 1) s' sub
       end.

Definition indexOf (s sub : jsstring) : Z := indexOfFrom 0 s sub.

(** The [DOMRect] of the selection, as far as the handler reads it. *)
Record Rect : Type := mkRect {
  left : Q;
  top : Q;
  width : Q
}.

(** [handleTextSelection].  [selection] is what [window.getSelection()]
    holds: nothing, or the selected string.  The handler dereferences the
    found transcript without a check, so a transcript id that is not listed
    makes it throw: the result is then [None] and no state is written. *)
Definition handleTextSelection (transcripts : list TranscriptItem.t)
           (transcriptId : string) (selection : option jsstring)
           (rect : Rect) (st : PanelState) : option PanelState :=
  match selection with
  | None => Some st
  | Some selectedText =>
      if isBlank selectedText then Some st
      else
        match find (fun t => String.eqb (TranscriptItem.id t) transcriptId)
                   transcripts with
        | None => None
        | Some transcript =>
            let currentText := getCurrentText (changes st) transcript in
            let startIndex := indexOf currentText selectedText in
            let endIndex := startIndex + JS.length selectedText in
            let position :=
              ((left rect + width rect / (2 # 1))%Q, (top rect - (10 # 1))%Q) in
            Some (mkPanel (changes st)
                          (Some (EditingState.mk transcriptId selectedText
                                   startIndex endIndex selectedText position))
                          (activeTab st) (isApplyingChanges st))
        end
  end.

(** The [onChange] of the tooltip input:
    [setEditingState(prev => prev ? { ...prev, newText: value } : null)]. *)
Definition onNewTextChange (value : jsstring) (st : PanelState) : PanelState :=
  mkPanel (changes st)
          (match editingState st with
           | Some prev =>
               Some (EditingState.mk (EditingState.transcriptId prev)
                       (EditingState.selectedText prev)
                       (EditingState.startIndex prev)
                       (EditingState.endIndex prev)
                       value
                       (EditingState.position prev))
           | None => None
           end)
          (activeTab st) (isApplyingChanges st).

(** [handleCancelEdit] *)
Definition handleCancelEdit (st : PanelState) : PanelState :=
  mkPanel (changes st) None (activeTab st) (isApplyingChanges st).

(** [handleDeleteChange] *)
Definition handleDeleteChange (changeId : string) (w : World) : World :=
  toast (mkToast ToastSuccess "Change deleted successfully" None)
        (setChanges
           (filter (fun change => negb (String.eqb (TextChange.id change) changeId))
                   (changes (panel w)))
           w).

(** [handleClearAllChanges] *)
Definition handleClearAllChanges (w : World) : World :=
  toast (mkToast ToastSuccess "All changes cleared" None) (setChanges [] w).

(** The handlers of the component state alone, lifted to the world. *)
Definition onPanel (f : PanelState -> PanelState) (w : World) : World :=
  mkWorld (f (panel w)) (store w) (toasts w) (sent w).

End PanelActions.

Import PanelActions.

(* ===================================================================== *)
(** ** More of the project store                                         *)
(* ===================================================================== *)

(** [interface UpdateProjectRequest] *)
Module UpdateProjectRequest.
Record t : Type := mk {
  title : option string;
  description : option string;
  status : option Project.Status
}.
End UpdateProjectRequest.

(** The actions [updateProject] and [deleteProject] of the project store;
    they write the same four fields as [refreshCurrentProject] and answer a
    boolean, returned here beside the new state. *)
Module ProjectStoreActions.

Import ProjectStore.

(** [error instanceof Error ? error.message : fallback] *)
Definition rejectionText (m : option string) (fallback : string) : string :=
  match m with
  | Some s => s
  | None => fallback
  end.

Section WithTransport.

(** [projectApi.updateProject] and [projectApi.deleteProject]. *)
Variable updateProjectApi : string -> UpdateProjectRequest.t ->
                            Outcome (ApiResponse.t Project.t).
Variable deleteProjectApi : string -> Outcome (ApiResponse.t unit).

(** [updateProject] *)
Definition updateProject (id : string) (data : UpdateProjectRequest.t)
           (state : ProjectState) : bool * ProjectState :=
  let state1 := mkState (projects state) (currentProject state) true None in
  match updateProjectApi id data with
  | Resolved response =>
      match ApiResponse.success response, ApiResponse.data response with
      | true, Some d =>
          (true,
           mkState
             (map (fun p => if String.eqb (Project.id p) id then d else p)
                  (projects state1))
             (match currentProject state1 with
              | Some cur => if String.eqb (Project.id cur) id
                            then Some d else Some cur
              | None => None
              end)
             false None)
      | _, _ =>
          (false,
           mkState (projects state1) (currentProject state1) false
                   (errorText (ApiResponse.error response)))
      end
  | Rejected m =>
      (false,
       mkState (projects state1) (currentProject state1) false
               (Some (rejectionText m "Failed to update project")))
  end.

(** [deleteProject]; only the [success] flag of the response is read. *)
Definition deleteProject (id : string) (state : ProjectState)
  : bool * ProjectState :=
  let state1 := mkState (projects state) (currentProject state) true None in
  match deleteProjectApi id with
  | Resolved response =>
      if ApiResponse.success response then
        (true,
         mkState
           (filter (fun p => negb (String.eqb (Project.id p) id))
                   (projects state1))
           (match currentProject state1 with
            | Some cur => if String.eqb (Project.id cur) id
                          then None else Some cur
            | None => None
            end)
           false None)
      else
        (false,
         mkState (projects state1) (currentProject state1) false
                 (errorText (ApiResponse.error response)))
  | Rejected m =>
      (false,
       mkState (projects state1) (currentProject state1) false
               (Some (rejectionText m "Failed to delete project")))
  end.

End WithTransport.

End ProjectStoreActions.

(** [getStatusCount] of the projects page, over the project list of the
    store. *)
Module ProjectsPage.

(** The string a status is on the wire and in the filter tabs. *)
Definition statusName (s : Project.Status) : string :=
  match s with
  | Project.uploading => "uploading"
  | Project.processing => "processing"
  | Project.completed => "completed"
  | Project.error => "error"
  end.

Definition getStatusCount (projects : list Project.t) (status : string) : nat :=
  if String.eqb status "all" then List.length projects
  else List.length
         (filter (fun p => String.eqb (statusName (Project.status p)) status)
                 projects).

End ProjectsPage.

(* ===================================================================== *)
(** ** [lib/utils]: key case conversion and media URLs                   *)
(* ===================================================================== *)

Module Utils.

(** The character classes [[A-Z]] and [[a-z]] and the case change of a
    letter in them. *)
Definition isUpper (a : ascii) : bool :=
  (Nat.leb 65 (nat_of_ascii a) && Nat.leb (nat_of_ascii a) 90)%bool.
Definition isLower (a : ascii) : bool :=
  (Nat.leb 97 (nat_of_ascii a) && Nat.leb (nat_of_ascii a) 122)%bool.
Definition toLowerCase (a : ascii) : ascii :=
  if isUpper a then ascii_of_nat (nat_of_ascii a + 32) else a.
Definition toUpperCase (a : ascii) : ascii :=
  if isLower a then ascii_of_nat (nat_of_ascii a - 32) else a.

(** [toSnakeCase]: every capital letter becomes an underscore and the
    small letter. *)
Fixpoint toSnakeCase (str : string) : string :=
  match str with
  | EmptyString => EmptyString
  | String a rest =>
      if isUpper a
      then String "_" (String (toLowerCase a) (toSnakeCase rest))
      else String a (toSnakeCase rest)
  end.

(** [toCamelCase]: scanning from the left, every underscore followed by a
    small letter becomes the capital letter; the scan resumes after the
    letter. *)
Fixpoint toCamelCase (str : string) : string :=
  match str with
  | EmptyString => EmptyString
  | String a rest =>
      match rest with
      | EmptyString => String a EmptyString
      | String b rest' =>
          if (Ascii.eqb a "_" && isLower b)%bool
          then String (toUpperCase b) (toCamelCase rest')
          else String a (toCamelCase rest)
      end
  end.

Section MediaUrl.

(** [new URL(url).protocol], or nothing when the constructor throws; the
    URL parser belongs to the platform. *)
Variable urlProtocol : string -> option string.

(** [import.meta.env.VITE_API_BASE_URL] *)
Variable envBaseUrl : option string.

(** [isValidMediaUrl] *)
Definition isValidMediaUrl (url : string) : bool :=
  match url with
  | EmptyString => false
  | _ =>
      match urlProtocol url with
      | Some protocol =>
          (String.eqb protocol "http:" || String.eqb protocol "https:")%bool
      | None => false
      end
  end.

(** [import.meta.env.VITE_API_BASE_URL || 'http://localhost:8000'] *)
Definition baseUrl : string :=
  match envBaseUrl with
  | Some EmptyString => "http://localhost:8000"
  | Some u => u
  | None => "http://localhost:8000"
  end.

(** [path.startsWith('/') ? path.slice(1) : path] *)
Definition cleanPath (path : string) : string :=
  match path with
  | String "/" rest => rest
  | _ => path
  end.

(** [buildMediaUrl] *)
Definition buildMediaUrl (path : string) : string :=
  match path with
  | EmptyString => EmptyString
  | _ =>
      if isValidMediaUrl path then path
      else (baseUrl ++ "/" ++ cleanPath path)%string
  end.

End MediaUrl.

End Utils.

(* ===================================================================== *)
(** ** Predicates and inputs for the further properties                  *)
(* ===================================================================== *)

Module More.

Local Open Scope Z_scope.

(** The sum of the length changes of a list of edits. *)
Fixpoint totalLengthChange (cs : list TextChange.t) : Z :=
  match cs with
  | [] => 0
  | c :: rest => lengthChange c + totalLengthChange rest
  end.

(** Every edit of the list ends within a text of [len] code units. *)
Definition inRange (len : Z) (cs : list TextChange.t) : Prop :=
  Forall (fun c => TextChange.endIndex c <= len) cs.

(** The edit replaces its range of [txt] by the text already there. *)
Definition keepsText (txt : jsstring) (c : TextChange.t) : Prop :=
  TextChange.newText c
  = JS.substring txt (TextChange.startIndex c) (TextChange.endIndex c).

(** What a changed segment shows of its change. *)
Definition shown (s : TextSegment.t) : jsstring * option string :=
  (TextSegment.text s, TextSegment.changeId s).
Definition recorded (c : TextChange.t) : jsstring * option string :=
  (TextChange.newText c, Some (TextChange.id c)).

(** No underscore of the string is followed by a small letter. *)
Fixpoint noUnderscoreLower (s : string) : Prop :=
  match s with
  | EmptyString => True
  | String a rest =>
      match rest with
      | EmptyString => True
      | String b _ =>
          (Ascii.eqb a "_" && Utils.isLower b)%bool = false
          /\ noUnderscoreLower rest
      end
  end.

(** No character of the string is a capital letter. *)
Fixpoint noUpper (s : string) : Prop :=
  match s with
  | EmptyString => True
  | String a rest => Utils.isUpper a = false /\ noUpper rest
  end.

(** The panel state with a tooltip opened on [es]. *)
Definition withEditing (es : EditingState.t) (st : PanelState) : PanelState :=
  mkPanel (changes st) (Some es) (activeTab st) (isApplyingChanges st).

(** Every unchanged segment pushed so far has some text. *)
Definition unchangedNonEmpty (segs : list TextSegment.t) : Prop :=
  forall s, In s segs -> TextSegment.isChanged s = false ->
            TextSegment.text s <> [].

(** A whole edit through the user interface: select [sel] in the rendered
    item, type [new] into the tooltip, save. *)
Definition selectTypeSave (transcripts : list TranscriptItem.t)
           (transcriptId : string) (sel new : jsstring) (rect : Rect)
           (now nowTime : string) (st : PanelState) : option PanelState :=
  match handleTextSelection transcripts transcriptId (Some sel) rect st with
  | Some st1 =>
      Some (handleSaveEdit transcripts now nowTime (onNewTextChange new st1))
  | None => None
  end.

(** The change such an edit records for the item [t]. *)
Definition editOf (t : TranscriptItem.t) (sel new : jsstring) (at_ : Z)
           (now nowTime : string) : TextChange.t :=
  TextChange.mk now (TranscriptItem.id t) (TranscriptItem.timestamp t)
                sel new at_ (at_ + JS.length sel) nowTime.

End More.

Import More.

(** Inputs at which the further properties are run. *)
Module Runs.

Local Open Scope Z_scope.
Local Open Scope string_scope.

(** Edits of "abcdefghij" that put back the text they replace. *)
Definition keepA : TextChange.t := Examples.change "8" "s1" 0 1 "a" "a".
Definition keepB : TextChange.t := Examples.change "9" "s1" 3 5 "de" "de".

(** An edit near the end of the text: "h" at [7,8) becomes "HH". *)
Definition editLate : TextChange.t := Examples.change "10" "s1" 7 8 "h" "HH".

(** The piece "bc" between the edits [Examples.editA] and
    [Examples.editB]. *)
Definition pieceBC : TextSegment.t := TextSegment.mk (JS.lit "bc") false None.

(** A selection rectangle and the panel with given pending changes. *)
Definition rect : Rect := mkRect (100 # 1) (40 # 1) (30 # 1).
Definition panelWith (cs : list TextChange.t) : PanelState :=
  panel (Examples.world cs None).

(** A second segment of the transcript, the transcript of both, and a
    tooltip open on the range [0,1) of the second segment. *)
Definition s2 : TranscriptItem.t := Examples.item "s2" "zebra".
Definition both : list TranscriptItem.t := [Examples.s1; s2].
Definition editingOther : EditingState.t :=
  EditingState.mk "s2" (JS.lit "z") 0 1 (JS.lit "Q") (0 # 1, 0 # 1)%Q.

(** A project the store does not hold, and an update of [project1] that
    the server answers with the renamed project. *)
Definition project2 : Project.t :=
  Project.mk "p2" "Other" None None None None None None Project.processing
             "2024-02-01" "2024-02-01" "u1".
Definition renamed : Project.t :=
  Project.mk "p1" "Sale (final)" None (Some "/media/p1.mp4") None
             (Some (20 # 1)%Q) None None Project.completed
             "2024-01-01" "2024-01-03" "u1".
Definition rename : UpdateProjectRequest.t :=
  UpdateProjectRequest.mk (Some "Sale (final)") None None.
Definition updateOk (_ : string) (_ : UpdateProjectRequest.t)
  : Outcome (ApiResponse.t Project.t) :=
  Resolved (ApiResponse.mk true (Some renamed) None None).

(** A URL parser that accepts the strings starting with "http://". *)
Definition protocolOf (url : string) : option string :=
  if String.prefix "http://" url then Some "http:" else None.

End Runs.

(* ===================================================================== *)
(** * Properties                                                         *)
(* ===================================================================== *)

Local Open Scope Z_scope.

(* --------------------------------------------------------------------- *)
(** ** Sorting by [startIndex]                                           *)
(* --------------------------------------------------------------------- *)

Section Sorting.

Lemma insertChange_perm (c : TextChange.t) (l : list TextChange.t) :
  Permutation (insertChange c l) (c :: l).
Proof.
  induction l as [|d l IH]; simpl.
  - apply Permutation_refl.
  - destruct (0 <? TextChange.startIndex c - TextChange.startIndex d).
    + eapply perm_trans; [apply perm_skip, IH | apply perm_swap].
    + apply Permutation_refl.
Qed.

Lemma sortChanges_perm (l : list TextChange.t) :
  Permutation (sortChanges l) l.
Proof.
  induction l as [|c l IH]; simpl.
  - constructor.
  - eapply perm_trans; [apply insertChange_perm | apply perm_skip, IH].
Qed.

Lemma sortChanges_In (l : list TextChange.t) (c : TextChange.t) :
  In c (sortChanges l) <-> In c l.
Proof.
  split; apply Permutation_in;
    [apply sortChanges_perm | apply Permutation_sym, sortChanges_perm].
Qed.

Lemma sortChanges_length (l : list TextChange.t) :
  List.length (sortChanges l) = List.length l.
Proof. apply Permutation_length, sortChanges_perm. Qed.

Lemma insertChange_sorted (c : TextChange.t) (l : list TextChange.t) :
  StronglySorted startsLe l -> StronglySorted startsLe (insertChange c l).
Proof.
  induction 1 as [|d l Hs IH Hd]; simpl.
  - repeat constructor.
  - destruct (Z.ltb_spec 0 (TextChange.startIndex c - TextChange.startIndex d)) as [Hlt|Hge].
    + constructor; [exact IH|].
      rewrite Forall_forall. intros x Hx.
      apply (Permutation_in _ (insertChange_perm c l)) in Hx.
      destruct Hx as [<-|Hx]; [unfold startsLe; lia|].
      rewrite Forall_forall in Hd. now apply Hd.
    + constructor; [constructor; assumption|].
      constructor; [unfold startsLe; lia|].
      rewrite Forall_forall in Hd |- *. intros x Hx.
      specialize (Hd x Hx). unfold startsLe in *. lia.
Qed.

Lemma sortChanges_sorted (l : list TextChange.t) :
  StronglySorted startsLe (sortChanges l).
Proof.
  induction l as [|c l IH]; simpl; [constructor|].
  now apply insertChange_sorted.
Qed.

(** A list already in order is left as it is. *)
Lemma sortChanges_id (l : list TextChange.t) :
  StronglySorted startsLe l -> sortChanges l = l.
Proof.
  induction 1 as [|c l Hs IH Hc]; simpl; [reflexivity|].
  rewrite IH. destruct l as [|d l]; [reflexivity|]. simpl.
  inversion Hc as [|? ? Hcd _]; subst. unfold startsLe in Hcd.
  destruct (Z.ltb_spec 0 (TextChange.startIndex c - TextChange.startIndex d));
    [lia | reflexivity].
Qed.

Lemma sorted_distinct_strict (l : list TextChange.t) :
  StronglySorted startsLe l ->
  NoDup (map TextChange.startIndex l) ->
  StronglySorted startsLt l.
Proof.
  induction 1 as [|c l Hs IH Hc]; intros Hnd; [constructor|].
  inversion Hnd as [|? ? Hnotin Hnd']; subst.
  constructor; [now apply IH|].
  rewrite Forall_forall in Hc |- *. intros x Hx.
  specialize (Hc x Hx). unfold startsLe, startsLt in *.
  assert (TextChange.startIndex c <> TextChange.startIndex x).
  { intros Heq. apply Hnotin. rewrite Heq. now apply in_map. }
  lia.
Qed.

Lemma strict_sorted_perm_eq (l1 l2 : list TextChange.t) :
  StronglySorted startsLt l1 -> StronglySorted startsLt l2 ->
  Permutation l1 l2 -> l1 = l2.
Proof.
  revert l2. induction l1 as [|a l1 IH]; intros l2 H1 H2 HP.
  - now apply Permutation_nil in HP.
  - destruct l2 as [|b l2].
    + apply Permutation_sym, Permutation_nil in HP. discriminate.
    + inversion H1 as [|? ? H1' Ha]; subst.
      inversion H2 as [|? ? H2' Hb]; subst.
      assert (a = b) as ->.
      { assert (Hin1 : In a (b :: l2))
          by (apply (Permutation_in _ HP); now left).
        assert (Hin2 : In b (a :: l1))
          by (apply (Permutation_in _ (Permutation_sym HP)); now left).
        destruct Hin1 as [->|Hin1]; [reflexivity|].
        destruct Hin2 as [->|Hin2]; [reflexivity|].
        rewrite Forall_forall in Ha, Hb.
        specialize (Ha _ Hin2). specialize (Hb _ Hin1).
        unfold startsLt in *. lia. }
      f_equal. apply IH; try assumption.
      now apply Permutation_cons_inv in HP.
Qed.

Lemma changesOf_perm (l l' : list TextChange.t) (t : TranscriptItem.t) :
  Permutation l l' -> Permutation (changesOf l t) (changesOf l' t).
Proof.
  unfold changesOf. induction 1; simpl.
  - constructor.
  - destruct (String.eqb _ _); [now constructor | assumption].
  - repeat destruct (String.eqb _ _); try apply Permutation_refl.
    apply perm_swap.
  - eapply perm_trans; eassumption.
Qed.

Lemma changesOf_targets (l : list TextChange.t) (t : TranscriptItem.t) (c : TextChange.t) :
  In c (changesOf l t) -> TextChange.transcriptId c = TranscriptItem.id t.
Proof.
  unfold changesOf. rewrite filter_In. intros [_ H].
  now apply String.eqb_eq.
Qed.

End Sorting.

(* --------------------------------------------------------------------- *)
(** ** [getCurrentText]: identity, order of the batch, one edit at a time *)
(* --------------------------------------------------------------------- *)

Section CurrentText.

Lemma changesOf_none (changes : list TextChange.t) (t : TranscriptItem.t) :
  (forall c, In c changes ->
             TextChange.transcriptId c <> TranscriptItem.id t) ->
  changesOf changes t = [].
Proof.
  unfold changesOf. induction changes as [|c l IH]; intros H; simpl.
  - reflexivity.
  - destruct (String.eqb_spec (TextChange.transcriptId c) (TranscriptItem.id t)) as [E|_].
    + exfalso. apply (H c); [now left | exact E].
    + apply IH. intros d Hd. apply H. now right.
Qed.

Lemma changesOf_all (cs : list TextChange.t) (t : TranscriptItem.t) :
  (forall c, In c cs -> TextChange.transcriptId c = TranscriptItem.id t) ->
  changesOf cs t = cs.
Proof.
  unfold changesOf. induction cs as [|c l IH]; intros H; simpl.
  - reflexivity.
  - rewrite (proj2 (String.eqb_eq _ _) (H c (or_introl eq_refl))).
    f_equal. apply IH. intros d Hd. apply H. now right.
Qed.

Lemma getCurrentText_runBatch (changes : list TextChange.t) (t : TranscriptItem.t) :
  getCurrentText changes t
  = runBatch (TranscriptItem.text t) (changesOf changes t).
Proof.
  unfold getCurrentText, runBatch.
  destruct (changesOf changes t) as [|c l]; reflexivity.
Qed.

(** One edit applied alone to an item it targets. *)
Lemma getCurrentText_single (c : TextChange.t) (t : TranscriptItem.t) :
  TextChange.transcriptId c = TranscriptItem.id t ->
  getCurrentText [c] t
  = JS.substring (TranscriptItem.text t) 0 (TextChange.startIndex c)
      ++ TextChange.newText c
      ++ JS.substringFrom (TranscriptItem.text t) (TextChange.endIndex c).
Proof.
  intros H. unfold getCurrentText, changesOf. simpl.
  rewrite (proj2 (String.eqb_eq _ _) H). simpl.
  now rewrite !Z.add_0_r.
Qed.

End CurrentText.

(** C10.  When no recorded change carries the id of a transcript item,
    [getCurrentText] returns the item's text as it is: the empty batch is
    the identity on the segment text. *)
Theorem getCurrentText_without_changes
        (changes : list TextChange.t) (t : TranscriptItem.t) :
  (forall c, In c changes ->
             TextChange.transcriptId c <> TranscriptItem.id t) ->
  getCurrentText changes t = TranscriptItem.text t.
Proof.
  intros H. unfold getCurrentText. now rewrite (changesOf_none _ _ H).
Qed.

(** C9.  Two change lists that are permutations of each other give the same
    text for an item, provided the changes targeting the item have pairwise
    distinct [startIndex] values: the changes are sorted by [startIndex]
    before they are applied, so only the set of changes matters.  (Distinct
    start indices are all that is used; non-overlapping ranges are not
    needed.) *)
Theorem getCurrentText_permutation
        (changes changes' : list TextChange.t) (t : TranscriptItem.t) :
  Permutation changes changes' ->
  NoDup (map TextChange.startIndex (changesOf changes t)) ->
  getCurrentText changes t = getCurrentText changes' t.
Proof.
  intros HP Hnd. rewrite !getCurrentText_runBatch. unfold runBatch.
  assert (HPf := changesOf_perm t HP).
  assert (Hs : sortChanges (changesOf changes t)
               = sortChanges (changesOf changes' t)).
  { apply strict_sorted_perm_eq.
    - apply sorted_distinct_strict; [apply sortChanges_sorted|].
      eapply Permutation_NoDup; [|exact Hnd].
      apply Permutation_map, Permutation_sym, sortChanges_perm.
    - apply sorted_distinct_strict; [apply sortChanges_sorted|].
      eapply Permutation_NoDup; [|exact Hnd].
      apply Permutation_map.
      eapply perm_trans; [exact HPf|].
      apply Permutation_sym, sortChanges_perm.
    - eapply perm_trans; [apply sortChanges_perm|].
      eapply perm_trans; [exact HPf|].
      apply Permutation_sym, sortChanges_perm. }
  now rewrite Hs.
Qed.

(* --------------------------------------------------------------------- *)
(** ** [substring] on plain prefixes and suffixes                        *)
(* --------------------------------------------------------------------- *)

Section Substring.

Lemma to_nat_clamp (s : jsstring) (i : Z) :
  Z.to_nat (JS.clamp (JS.length s) i) = Nat.min (Z.to_nat i) (List.length s).
Proof. unfold JS.clamp, JS.length. lia. Qed.

Lemma firstn_min (A : Type) (n : nat) (l : list A) :
  firstn (Nat.min n (List.length l)) l = firstn n l.
Proof.
  destruct (Nat.le_ge_cases n (List.length l)) as [H|H].
  - now rewrite Nat.min_l.
  - rewrite Nat.min_r by assumption.
    now rewrite firstn_all, firstn_all2.
Qed.

Lemma skipn_min (A : Type) (n : nat) (l : list A) :
  skipn (Nat.min n (List.length l)) l = skipn n l.
Proof.
  destruct (Nat.le_ge_cases n (List.length l)) as [H|H].
  - now rewrite Nat.min_l.
  - rewrite Nat.min_r by assumption.
    now rewrite skipn_all, skipn_all2.
Qed.

Lemma firstn_plus (A : Type) (n m : nat) (l : list A) :
  firstn (n + m) l = firstn n l ++ firstn m (skipn n l).
Proof.
  revert l. induction n as [|n IH]; intros l; [reflexivity|].
  destruct l as [|x l]; simpl.
  - now rewrite firstn_nil.
  - now rewrite IH.
Qed.

(** [s.substring(0, i)] is the prefix of [i] code units. *)
Lemma substring_prefix (s : jsstring) (i : Z) :
  JS.substring s 0 i = firstn (Z.to_nat i) s.
Proof.
  unfold JS.substring.
  assert (H0 : JS.clamp (JS.length s) 0 = 0)
    by (unfold JS.clamp, JS.length; lia).
  rewrite H0.
  assert (Hc : 0 <= JS.clamp (JS.length s) i)
    by (unfold JS.clamp, JS.length; lia).
  rewrite Z.min_l, Z.max_r by lia.
  rewrite Z.sub_0_r. simpl skipn.
  rewrite to_nat_clamp. apply firstn_min.
Qed.

(** [s.substring(i)] is what is left after [i] code units. *)
Lemma substringFrom_suffix (s : jsstring) (i : Z) :
  JS.substringFrom s i = skipn (Z.to_nat i) s.
Proof.
  unfold JS.substringFrom, JS.substring.
  assert (Hl : JS.clamp (JS.length s) (JS.length s) = JS.length s)
    by (unfold JS.clamp, JS.length; lia).
  rewrite Hl.
  assert (Hc : JS.clamp (JS.length s) i <= JS.length s)
    by (unfold JS.clamp, JS.length; lia).
  rewrite Z.min_l, Z.max_r by lia.
  rewrite firstn_all2.
  - rewrite to_nat_clamp. apply skipn_min.
  - rewrite length_skipn. unfold JS.length in *. lia.
Qed.

(** [s.substring(i, j)] for [0 <= i <= j]. *)
Lemma substring_middle (s : jsstring) (i j : Z) :
  0 <= i <= j ->
  JS.substring s i j
  = firstn (Z.to_nat j - Z.to_nat i) (skipn (Z.to_nat i) s).
Proof.
  intros H. unfold JS.substring.
  assert (Hle : JS.clamp (JS.length s) i <= JS.clamp (JS.length s) j)
    by (unfold JS.clamp, JS.length; lia).
  rewrite Z.min_l, Z.max_r by lia.
  assert (Hi : Z.to_nat (JS.clamp (JS.length s) i)
               = Nat.min (Z.to_nat i) (List.length s)) by apply to_nat_clamp.
  assert (Hj : Z.to_nat (JS.clamp (JS.length s) j)
               = Nat.min (Z.to_nat j) (List.length s)) by apply to_nat_clamp.
  assert (H0 : 0 <= JS.clamp (JS.length s) i)
    by (unfold JS.clamp, JS.length; lia).
  rewrite Z2Nat.inj_sub by lia. rewrite Hi, Hj, skipn_min.
  destruct (Nat.le_ge_cases (Z.to_nat j) (List.length s)) as [Hjl|Hjl].
  - rewrite (Nat.min_l (Z.to_nat j)) by assumption.
    rewrite (Nat.min_l (Z.to_nat i)) by lia. reflexivity.
  - rewrite (Nat.min_r (Z.to_nat j)) by assumption.
    rewrite !firstn_all2; try reflexivity; rewrite length_skipn; lia.
Qed.

(** A prefix followed by the piece up to a later index is the longer
    prefix. *)
Lemma prefix_then_middle (s : jsstring) (i j : Z) :
  0 <= i <= j ->
  firstn (Z.to_nat i) s ++ JS.substring s i j = firstn (Z.to_nat j) s.
Proof.
  intros H. rewrite substring_middle by assumption.
  rewrite <- firstn_plus. f_equal. lia.
Qed.

End Substring.

(* --------------------------------------------------------------------- *)
(** ** [applyChangesToText] against [getCurrentText]                      *)
(* --------------------------------------------------------------------- *)

Section Rendering.

Lemma renderedText_app (a b : list TextSegment.t) :
  renderedText (a ++ b) = renderedText a ++ renderedText b.
Proof. unfold renderedText. now rewrite map_app, concat_app. Qed.

Lemma renderedText_pushUnchanged (segs : list TextSegment.t) (u : jsstring) :
  renderedText (pushUnchanged segs u) = renderedText segs ++ u.
Proof.
  unfold pushUnchanged. destruct u as [|x u]; simpl.
  - now rewrite app_nil_r.
  - rewrite renderedText_app. unfold renderedText at 2. simpl.
    now rewrite app_nil_r.
Qed.

(** The two loops rewrite the working text and the offset alike. *)
Lemma renderStep_applyStep (st : RenderState) (c : TextChange.t) :
  (workingText (renderStep st c), offset (renderStep st c))
  = applyStep (workingText st, offset st) c.
Proof. reflexivity. Qed.

Lemma fold_renderStep_applyStep (cs : list TextChange.t) (st : RenderState) :
  (workingText (fold_left renderStep cs st),
   offset (fold_left renderStep cs st))
  = fold_left applyStep cs (workingText st, offset st).
Proof.
  revert st. induction cs as [|c rest IH]; intros st; simpl.
  - reflexivity.
  - now rewrite IH, renderStep_applyStep.
Qed.

Lemma renderStep_inv (from : Z) (st : RenderState) (c : TextChange.t) :
  renderInv from st ->
  from <= TextChange.startIndex c ->
  TextChange.startIndex c <= TextChange.endIndex c ->
  renderInv (TextChange.endIndex c) (renderStep st c).
Proof.
  intros (Htxt & Hpos & Hcur) Hlo Hse.
  set (a := TextChange.startIndex c + offset st).
  set (b := TextChange.endIndex c + offset st).
  assert (Hca : currentIndex st <= a) by (subst a; lia).
  assert (Hab : a <= b) by (subst a b; lia).
  unfold renderInv, renderStep. cbn [segments currentIndex workingText offset].
  fold a b. repeat split.
  - rewrite renderedText_app.
    assert (Hpre : renderedText
                     (if currentIndex st <? a
                      then pushUnchanged (segments st)
                             (JS.substring (workingText st) (currentIndex st) a)
                      else segments st)
                   = firstn (Z.to_nat a) (workingText st)).
    { destruct (Z.ltb_spec (currentIndex st) a) as [Hlt|Hge].
      - rewrite renderedText_pushUnchanged, Htxt.
        apply prefix_then_middle. lia.
      - rewrite Htxt. f_equal. lia. }
    rewrite Hpre. unfold renderedText at 1. simpl. rewrite app_nil_r.
    rewrite substring_prefix, substringFrom_suffix.
    unfold JS.length.
    rewrite Z2Nat.inj_add by lia. rewrite Nat2Z.id.
    destruct (Nat.le_gt_cases (Z.to_nat a) (List.length (workingText st)))
      as [Hin|Hout].
    + rewrite app_assoc, firstn_app.
      rewrite length_app, length_firstn, Nat.min_l by assumption.
      rewrite Nat.sub_diag, firstn_O, app_nil_r.
      symmetry. apply firstn_all2. rewrite length_app, length_firstn. lia.
    + rewrite (skipn_all2 (n := Z.to_nat b)) by lia.
      rewrite app_nil_r. symmetry. apply firstn_all2.
      rewrite length_app, length_firstn. lia.
  - unfold JS.length. lia.
  - unfold JS.length. subst a. lia.
Qed.

Lemma fold_renderStep_inv (cs : list TextChange.t) :
  forall (from : Z) (st : RenderState),
    chained from cs -> renderInv from st ->
    exists last, renderInv last (fold_left renderStep cs st).
Proof.
  induction cs as [|c rest IH]; intros from st Hch Hinv; simpl.
  - now exists from.
  - destruct Hch as (Hlo & Hse & Hrest).
    apply (IH (TextChange.endIndex c)); [exact Hrest|].
    now apply renderStep_inv with (from := from).
Qed.

(** The closing [if] of [applyChangesToText] completes the prefix to the
    whole working text. *)
Lemma render_finish (from : Z) (st : RenderState) :
  renderInv from st ->
  renderedText
    (if currentIndex st <? JS.length (workingText st)
     then pushUnchanged (segments st)
            (JS.substringFrom (workingText st) (currentIndex st))
     else segments st)
  = workingText st.
Proof.
  intros (Htxt & Hpos & _).
  destruct (Z.ltb_spec (currentIndex st) (JS.length (workingText st))) as [Hlt|Hge].
  - rewrite renderedText_pushUnchanged, Htxt, substringFrom_suffix.
    apply firstn_skipn.
  - rewrite Htxt. apply firstn_all2. unfold JS.length in Hge. lia.
Qed.

End Rendering.

(** C8 (as amended).  For every item and every recorded change list whose
    changes for the item, sorted by [startIndex], have
    [0 <= startIndex <= endIndex] and do not overlap
    ([edit[i].endIndex <= edit[i+1].startIndex]), the texts of the segments
    returned by [applyChangesToText], concatenated in order, are the string
    [getCurrentText] returns. *)
Theorem applyChangesToText_spells_current_text
        (changes : list TextChange.t) (t : TranscriptItem.t) :
  nonOverlapping changes t ->
  renderedText (applyChangesToText (TranscriptItem.text t) (changesOf changes t))
  = getCurrentText changes t.
Proof.
  unfold nonOverlapping. intros Hch.
  unfold applyChangesToText, getCurrentText.
  destruct (Nat.eqb (List.length (changesOf changes t)) 0).
  - unfold renderedText. simpl. apply app_nil_r.
  - set (st0 := mkRender [] 0 (TranscriptItem.text t) 0).
    assert (Hinv0 : renderInv 0 st0) by (unfold renderInv; simpl; auto with zarith).
    destruct (fold_renderStep_inv _ Hch Hinv0) as [last Hlast].
    rewrite (render_finish Hlast).
    change (TranscriptItem.text t, 0) with (workingText st0, offset st0).
    now rewrite <- fold_renderStep_applyStep.
Qed.

(* --------------------------------------------------------------------- *)
(** ** The batch as a splice of the original text                        *)
(* --------------------------------------------------------------------- *)

Section Splice.

Variable txt : jsstring.

(** The loop state after the edits up to position [from] of the original
    text: a rewritten prefix [done], [from + off] code units long, followed
    by the untouched rest of the original. *)
Lemma fold_applyStep_spliced (cs : list TextChange.t) :
  forall (from off : Z) (done : jsstring),
    chained from cs ->
    Forall (fun c => TextChange.endIndex c <= JS.length txt) cs ->
    0 <= from <= JS.length txt ->
    JS.length done = from + off ->
    fst (fold_left applyStep cs (done ++ skipn (Z.to_nat from) txt, off))
    = done ++ spliced txt from cs.
Proof.
  induction cs as [|c rest IH]; intros from off done Hch Hin Hfrom Hlen.
  - simpl. now rewrite substringFrom_suffix.
  - destruct Hch as (Hlo & Hse & Hrest).
    inversion Hin as [|? ? Hc Hin']; subst.
    unfold JS.length in *.
    set (k := (Z.to_nat (TextChange.startIndex c) - Z.to_nat from)%nat).
    assert (Hpre : JS.substring (done ++ skipn (Z.to_nat from) txt) 0
                     (TextChange.startIndex c + off)
                   = done ++ firstn k (skipn (Z.to_nat from) txt)).
    { rewrite substring_prefix.
      replace (Z.to_nat (TextChange.startIndex c + off))
        with (List.length done + k)%nat by (subst k; lia).
      apply firstn_app_2. }
    assert (Hsuf : JS.substringFrom (done ++ skipn (Z.to_nat from) txt)
                     (TextChange.endIndex c + off)
                   = skipn (Z.to_nat (TextChange.endIndex c)) txt).
    { rewrite substringFrom_suffix, skipn_app.
      rewrite (skipn_all2 done) by lia. simpl.
      rewrite skipn_skipn. f_equal. lia. }
    assert (Hstep : applyStep (done ++ skipn (Z.to_nat from) txt, off) c
                    = ((done ++ firstn k (skipn (Z.to_nat from) txt)
                          ++ TextChange.newText c)
                         ++ skipn (Z.to_nat (TextChange.endIndex c)) txt,
                       off + lengthChange c)).
    { unfold applyStep. rewrite Hpre, Hsuf.
      now rewrite <- !app_assoc. }
    cbn [fold_left]. rewrite Hstep. unfold lengthChange, JS.length.
    rewrite IH; try assumption.
    + simpl spliced. rewrite substring_middle by lia.
      fold k. now rewrite <- !app_assoc.
    + lia.
    + unfold JS.length. rewrite !length_app, length_firstn, length_skipn.
      subst k. lia.
Qed.

End Splice.

(** For edits of an item that are in range and free of overlap, the text
    [getCurrentText] returns is the original text with exactly the ranges
    [[startIndex, endIndex)] of the original replaced by the new texts: the
    running offset relocates every later edit to where its range has
    moved. *)
Theorem getCurrentText_splices_original
        (changes : list TextChange.t) (t : TranscriptItem.t) :
  nonOverlapping changes t ->
  Forall (fun c => TextChange.endIndex c <= JS.length (TranscriptItem.text t))
         (changesOf changes t) ->
  getCurrentText changes t
  = spliced (TranscriptItem.text t) 0 (sortChanges (changesOf changes t)).
Proof.
  intros Hch Hin. rewrite getCurrentText_runBatch. unfold runBatch.
  assert (Hin' : Forall (fun c => TextChange.endIndex c
                                  <= JS.length (TranscriptItem.text t))
                        (sortChanges (changesOf changes t))).
  { rewrite Forall_forall in Hin |- *. intros c Hc. apply Hin.
    now apply (proj1 (sortChanges_In _ _)). }
  assert (H := @fold_applyStep_spliced (TranscriptItem.text t) _ 0 0 []
                 Hch Hin').
  simpl in H. apply H; [unfold JS.length; lia | reflexivity].
Qed.

(* --------------------------------------------------------------------- *)
(** ** The batch and the edits applied one at a time                     *)
(* --------------------------------------------------------------------- *)

Section OneByOne.

Variable txt : jsstring.

(** The copy after the edits up to position [from] of the original text: a
    rewritten prefix [done] followed by the untouched rest of the
    original. *)
Lemma applyInOrder_spliced (cs : list TextChange.t) :
  forall (from : Z) (done : jsstring),
    chained from cs ->
    Forall (fun c => TextChange.endIndex c <= JS.length txt) cs ->
    0 <= from <= JS.length txt ->
    applyInOrder txt (done ++ skipn (Z.to_nat from) txt) cs
    = done ++ spliced txt from cs.
Proof.
  induction cs as [|c rest IH]; intros from done Hch Hin Hfrom.
  - simpl. now rewrite substringFrom_suffix.
  - destruct Hch as (Hlo & Hse & Hrest).
    inversion Hin as [|? ? Hc Hin']; subst.
    cbn [applyInOrder]. cbv zeta.
    set (k := (Z.to_nat (TextChange.startIndex c) - Z.to_nat from)%nat).
    assert (Hmoved : JS.length (done ++ skipn (Z.to_nat from) txt)
                     - JS.length txt
                     = Z.of_nat (List.length done) - from).
    { unfold JS.length in *. rewrite length_app, length_skipn. lia. }
    rewrite Hmoved.
    assert (Hstep : applyEdit (done ++ skipn (Z.to_nat from) txt)
                      (TextChange.startIndex c
                       + (Z.of_nat (List.length done) - from))
                      (TextChange.endIndex c
                       + (Z.of_nat (List.length done) - from))
                      (TextChange.newText c)
                    = (done ++ firstn k (skipn (Z.to_nat from) txt)
                         ++ TextChange.newText c)
                        ++ skipn (Z.to_nat (TextChange.endIndex c)) txt).
    { unfold applyEdit.
      replace (Z.to_nat (TextChange.startIndex c
                         + (Z.of_nat (List.length done) - from)))
        with (List.length done + k)%nat by (subst k; lia).
      rewrite firstn_app_2.
      rewrite skipn_app, (skipn_all2 done) by lia. simpl.
      rewrite skipn_skipn.
      replace (Z.to_nat (TextChange.endIndex c
                         + (Z.of_nat (List.length done) - from))
               - List.length done + Z.to_nat from)%nat
        with (Z.to_nat (TextChange.endIndex c)) by lia.
      now rewrite <- !app_assoc. }
    rewrite Hstep, IH; try assumption; [|lia].
    simpl spliced. rewrite substring_middle by lia.
    fold k. now rewrite <- !app_assoc.
Qed.

Lemma chained_sorted (cs : list TextChange.t) :
  forall from, chained from cs ->
               StronglySorted startsLe cs
               /\ Forall (fun c => from <= TextChange.startIndex c) cs.
Proof.
  induction cs as [|c rest IH]; intros from Hch.
  - split; constructor.
  - destruct Hch as (Hlo & Hse & Hrest).
    destruct (IH _ Hrest) as [Hs Hall]. split.
    + constructor; [exact Hs|].
      rewrite Forall_forall in Hall |- *. intros x Hx.
      specialize (Hall x Hx). unfold startsLe. lia.
    + constructor; [exact Hlo|].
      rewrite Forall_forall in Hall |- *. intros x Hx.
      specialize (Hall x Hx). lia.
Qed.

Lemma strict_sorted_distinct (cs : list TextChange.t) :
  StronglySorted startsLt cs -> NoDup (map TextChange.startIndex cs).
Proof.
  induction 1 as [|c rest Hs IH Hc]; simpl; constructor; [|exact IH].
  intros Hin. apply in_map_iff in Hin. destruct Hin as (x & Heq & Hx).
  rewrite Forall_forall in Hc. specialize (Hc x Hx).
  unfold startsLt in Hc. lia.
Qed.

End OneByOne.

(** An arrangement of the item's edits in strictly ascending index order
    is the order in which [getCurrentText] takes them. *)
Lemma ascending_is_sortChanges (ordered cs : list TextChange.t) :
  Permutation ordered cs ->
  StronglySorted startsLt ordered ->
  sortChanges cs = ordered.
Proof.
  intros HP Hasc. apply strict_sorted_perm_eq.
  - apply sorted_distinct_strict; [apply sortChanges_sorted|].
    eapply Permutation_NoDup; [|apply (strict_sorted_distinct Hasc)].
    apply Permutation_map.
    eapply perm_trans; [exact HP|]. apply Permutation_sym, sortChanges_perm.
  - exact Hasc.
  - eapply perm_trans; [apply sortChanges_perm|]. now apply Permutation_sym.
Qed.

(** C1.  For every item and every batch of edits recorded for it that are
    pairwise non-overlapping and expressed against the original text, the
    batch application of [getCurrentText] (sort by [startIndex], apply left
    to right with a running length offset) gives the text obtained by
    applying the edits one at a time in ascending index order, each to the
    result of the previous application.  [ordered] is any arrangement of
    the item's edits in strictly ascending order of [startIndex] in which
    every range is well formed and within the text and every edit starts at
    or after the end of the one before it; the one-at-a-time text is
    computed without the sort and the offset of the panel. *)
Theorem getCurrentText_one_at_a_time
        (changes ordered : list TextChange.t) (t : TranscriptItem.t) :
  Permutation ordered (changesOf changes t) ->
  StronglySorted startsLt ordered ->
  chained 0 ordered ->
  Forall (fun c => TextChange.endIndex c
                   <= JS.length (TranscriptItem.text t)) ordered ->
  getCurrentText changes t
  = applyOneAtATime (TranscriptItem.text t) ordered.
Proof.
  intros HP Hasc Hch Hin.
  rewrite getCurrentText_runBatch. unfold runBatch.
  rewrite (ascending_is_sortChanges HP Hasc).
  assert (Hbatch := @fold_applyStep_spliced (TranscriptItem.text t) ordered
                      0 0 [] Hch Hin).
  assert (Hone := @applyInOrder_spliced (TranscriptItem.text t) ordered
                    0 [] Hch Hin).
  simpl in Hbatch, Hone.
  transitivity (spliced (TranscriptItem.text t) 0 ordered).
  - apply Hbatch; [unfold JS.length; lia | reflexivity].
  - symmetry. apply Hone. unfold JS.length. lia.
Qed.

(* --------------------------------------------------------------------- *)
(** ** The handlers: what is recorded, what is sent, what is kept        *)
(* --------------------------------------------------------------------- *)

Section PanelHandlers.

Variable buildMediaUrl : string -> string.
Variable post : string -> list TextChange.t ->
                Outcome (ApiResponse.t ProjectApiResponse.t).
Variable getProject : string -> Outcome (ApiResponse.t Project.t).

Local Abbreviation run := (handleApplyChanges buildMediaUrl post getProject).

Lemma guard_passes (project : Project.t) (w : World) :
  submits project w ->
  String.eqb (Project.id project) EmptyString
  || Nat.eqb (List.length (changes (panel w))) 0 = false.
Proof.
  intros [Hid Hcs]. apply orb_false_iff. split.
  - now apply String.eqb_neq.
  - destruct (changes (panel w)); [contradiction | reflexivity].
Qed.


Lemma applyTranscriptChanges_success (projectId : string)
      (cs : list TextChange.t) (r : ApiResponse.t Project.t) (p : Project.t) :
  ProjectApi.applyTranscriptChanges buildMediaUrl post projectId cs = Resolved r ->
  ApiResponse.success r = true -> ApiResponse.data r = Some p ->
  exists d, reportsSuccess post projectId cs d
            /\ p = ProjectApi.mapApiProjectToProject buildMediaUrl d.
Proof.
  unfold ProjectApi.applyTranscriptChanges, reportsSuccess.
  destruct (post _ cs) as [r0|m]; [|discriminate].
  destruct (ApiResponse.success r0) eqn:Hs, (ApiResponse.data r0) as [d|] eqn:Hd;
    intros Heq; injection Heq as <-; simpl; intros Hs' Hd'; try discriminate.
  injection Hd' as <-. exists d. split; [|reflexivity].
  exists r0. auto.
Qed.

Lemma applyTranscriptChanges_of_success (projectId : string)
      (cs : list TextChange.t) (d : ProjectApiResponse.t) :
  reportsSuccess post projectId cs d ->
  exists r, ProjectApi.applyTranscriptChanges buildMediaUrl post projectId cs
            = Resolved r
            /\ ApiResponse.success r = true
            /\ ApiResponse.data r
               = Some (ProjectApi.mapApiProjectToProject buildMediaUrl d).
Proof.
  intros (r0 & Hp & Hs & Hd). unfold ProjectApi.applyTranscriptChanges.
  rewrite Hp, Hs, Hd. eexists. repeat split.
Qed.

(** The change list after the handler is the one before it or the empty
    one, and the latter only on a reported success. *)
Lemma handleApplyChanges_cleared_only_on_success
      (selected : option Project.t) (w : World) :
  changes (panel (run selected w)) <> changes (panel w) ->
  exists project d,
    selected = Some project
    /\ reportsSuccess post (Project.id project) (changes (panel w)) d
    /\ changes (panel (run selected w)) = [].
Proof.
  unfold handleApplyChanges.
  destruct selected as [project|]; [|intros H; now elim H].
  destruct (String.eqb _ _ || Nat.eqb _ _); [intros H; now elim H|].
  destruct (ProjectApi.applyTranscriptChanges _ _ _ _) as [r|m] eqn:Hcall;
    [|intros H; now elim H].
  destruct (ApiResponse.success r) eqn:Hs, (ApiResponse.data r) as [p|] eqn:Hd;
    try (intros H; now elim H).
  intros _.
  destruct (applyTranscriptChanges_success _ _ Hcall Hs Hd) as (d & Hrep & _).
  exists project, d. auto.
Qed.

(** Without a reported success the pending changes and the project store
    are as before. *)
Lemma handleApplyChanges_failure_keeps (selected : option Project.t) (w : World) :
  (forall project d,
      selected = Some project ->
      ~ reportsSuccess post (Project.id project) (changes (panel w)) d) ->
  changes (panel (run selected w)) = changes (panel w)
  /\ store (run selected w) = store w.
Proof.
  intros Hno. unfold handleApplyChanges.
  destruct selected as [project|]; [|now split].
  destruct (String.eqb _ _ || Nat.eqb _ _); [now split|].
  destruct (ProjectApi.applyTranscriptChanges _ _ _ _) as [r|m] eqn:Hcall;
    [|now split].
  destruct (ApiResponse.success r) eqn:Hs, (ApiResponse.data r) as [p|] eqn:Hd;
    try now split.
  destruct (applyTranscriptChanges_success _ _ Hcall Hs Hd) as (d & Hrep & _).
  exfalso. exact (Hno project d eq_refl Hrep).
Qed.

(** On a reported success the mapped project is put into the store, the
    current project is refreshed and the change list is emptied. *)
Lemma handleApplyChanges_success_swaps (project : Project.t) (w : World)
      (d : ProjectApiResponse.t) :
  submits project w ->
  reportsSuccess post (Project.id project) (changes (panel w)) d ->
  changes (panel (run (Some project) w)) = []
  /\ store (run (Some project) w)
     = ProjectStore.refreshCurrentProject getProject
         (ProjectStore.setUpdatedProject
            (ProjectApi.mapApiProjectToProject buildMediaUrl d) (store w)).
Proof.
  intros Hsub Hrep. unfold handleApplyChanges.
  rewrite (guard_passes Hsub).
  destruct (applyTranscriptChanges_of_success Hrep) as (r & Hcall & Hs & Hd).
  rewrite Hcall, Hs, Hd. now split.
Qed.

(** The store after a reported success, field by field: in the project
    list the projects with the id of the returned project are replaced by
    it, mapped; the current project is the one [getProject] answered, or,
    when it answered none, the current project with the same
    replacement. *)
Lemma handleApplyChanges_success_store (project : Project.t) (w : World)
      (d : ProjectApiResponse.t) :
  submits project w ->
  reportsSuccess post (Project.id project) (changes (panel w)) d ->
  ProjectStore.projects (store (run (Some project) w))
  = map (fun p => if String.eqb (Project.id p) (ProjectApiResponse.id d)
                  then ProjectApi.mapApiProjectToProject buildMediaUrl d
                  else p)
        (ProjectStore.projects (store w))
  /\ (ProjectStore.currentProject (store (run (Some project) w))
      = match ProjectStore.currentProject (store w) with
        | Some cur =>
            if String.eqb (Project.id cur) (ProjectApiResponse.id d)
            then Some (ProjectApi.mapApiProjectToProject buildMediaUrl d)
            else Some cur
        | None => None
        end
      \/ exists id r p,
           getProject id = Resolved r
           /\ ApiResponse.success r = true
           /\ ApiResponse.data r = Some p
           /\ ProjectStore.currentProject (store (run (Some project) w))
              = Some p).
Proof.
  intros Hsub Hrep.
  destruct (handleApplyChanges_success_swaps Hsub Hrep) as [_ Hst].
  rewrite Hst. unfold ProjectStore.refreshCurrentProject.
  cbn [ProjectStore.projects ProjectStore.currentProject].
  match goal with
  | |- context [getProject ?x] =>
      destruct (getProject x) as [r|[m|]] eqn:Hget
  end.
  - destruct (ApiResponse.success r) eqn:Hs,
             (ApiResponse.data r) as [p|] eqn:Hd;
      cbn [ProjectStore.projects ProjectStore.currentProject];
      (split; [reflexivity|]); try (left; reflexivity).
    right. eexists _, r, p. repeat split; eassumption.
  - split; [reflexivity | left; reflexivity].
  - split; [reflexivity | left; reflexivity].
Qed.

(** [handleSaveEdit] appends the edit of the tooltip, with its range as
    selected, whenever the edited transcript exists. *)
Lemma handleSaveEdit_appends (transcripts : list TranscriptItem.t)
      (now nowTime : string) (st : PanelState) (es : EditingState.t)
      (t : TranscriptItem.t) :
  editingState st = Some es ->
  find (fun x => String.eqb (TranscriptItem.id x) (EditingState.transcriptId es))
       transcripts = Some t ->
  handleSaveEdit transcripts now nowTime st
  = mkPanel (changes st
               ++ [TextChange.mk now (EditingState.transcriptId es)
                     (TranscriptItem.timestamp t)
                     (EditingState.selectedText es) (EditingState.newText es)
                     (EditingState.startIndex es) (EditingState.endIndex es)
                     nowTime])
            None (activeTab st) (isApplyingChanges st).
Proof.
  intros He Hf. unfold handleSaveEdit. now rewrite He, Hf.
Qed.

End PanelHandlers.

(* --------------------------------------------------------------------- *)
(** ** [oldText] plays no part in the text                                *)
(* --------------------------------------------------------------------- *)

Section OldText.






End OldText.



(* --------------------------------------------------------------------- *)
(** ** The reconciler: contiguity, order, total duration, spans          *)
(* --------------------------------------------------------------------- *)

Section Reconciliation.

Import Engine Timeline.
Local Open Scope Q_scope.

Variable results : list SynthesisResult.

Lemma contiguousFrom_compat (x y : Q) (tl : ReconciledTimeline) :
  x == y -> contiguousFrom x tl -> contiguousFrom y tl.
Proof.
  destruct tl as [|e rest]; simpl; [trivial|].
  intros Hxy [Hs Hr]. split; [now rewrite Hs | exact Hr].
Qed.

Lemma contiguousFrom_app (x : Q) (a b : ReconciledTimeline) :
  contiguousFrom x a ->
  contiguousFrom (outputEndOf (mkEntry original (0, 0) x x :: a)) b ->
  contiguousFrom x (a ++ b).
Proof.
  revert x. induction a as [|e a IH]; intros x Ha Hb; simpl in *.
  - exact Hb.
  - destruct Ha as [Hs Ha]. split; [exact Hs|].
    apply IH; [exact Ha|].
    unfold outputEndOf in *. simpl in *. destruct a; exact Hb.
Qed.

(** The piece of original audio before a segment ends where the segment
    starts. *)
Lemma gap_contiguous (cursor to shift : Q) (rest : ReconciledTimeline) :
  cursor <= to ->
  contiguousFrom (to + shift) rest ->
  contiguousFrom (cursor + shift) (gap cursor to shift ++ rest).
Proof.
  intros Hle Hrest. unfold gap.
  destruct (Qle_bool to cursor) eqn:Hb; simpl.
  - apply Qle_bool_iff in Hb.
    apply contiguousFrom_compat with (x := to + shift); [lra | exact Hrest].
  - split; [reflexivity | exact Hrest].
Qed.

Lemma buildTimeline_contiguous (segs : list TranscriptSegment) :
  forall cursor shift mediaDuration,
    validFrom cursor mediaDuration segs = true ->
    contiguousFrom (cursor + shift)
                   (buildTimeline results cursor shift mediaDuration segs).
Proof.
  induction segs as [|s rest IH]; intros cursor shift D Hv; simpl in *.
  - apply Qle_bool_iff in Hv.
    rewrite <- (app_nil_r (gap cursor D shift)).
    now apply gap_contiguous.
  - apply andb_prop in Hv. destruct Hv as [Hv Hrest].
    apply andb_prop in Hv. destruct Hv as [Hcs Hse].
    apply Qle_bool_iff in Hcs. apply Qle_bool_iff in Hse.
    apply gap_contiguous; [exact Hcs|].
    destruct (resultFor results s) as [r|]; simpl.
    + split; [reflexivity|].
      eapply contiguousFrom_compat; [|apply (IH _ _ _ Hrest)].
      unfold oldDuration. lra.
    + split; [reflexivity|]. apply (IH _ _ _ Hrest).
Qed.

Lemma contiguousFrom_zero (tl : ReconciledTimeline) :
  contiguousFrom 0 tl -> contiguous tl /\ startsAtZero tl.
Proof. destruct tl; simpl; tauto. Qed.

(** The check run on the finished timeline decides the two properties. *)
Lemma checks_sound (tl : ReconciledTimeline) :
  contiguousb tl && startsAtZerob tl = true -> contiguousFrom 0 tl.
Proof.
  intros H. apply andb_prop in H. destruct H as [Hc Hz].
  destruct tl as [|e rest]; simpl; [trivial|].
  simpl in Hz. apply Qeq_bool_iff in Hz. split; [exact Hz|].
  clear Hz. revert e Hc. induction rest as [|e2 rest IH]; intros e Hc; simpl.
  - trivial.
  - simpl in Hc. apply andb_prop in Hc. destruct Hc as [He Hc].
    apply Qeq_bool_iff in He. split; [now symmetry|].
    apply IH. exact Hc.
Qed.

Lemma checks_complete (tl : ReconciledTimeline) :
  contiguousFrom 0 tl -> contiguousb tl && startsAtZerob tl = true.
Proof.
  intros H. apply andb_true_intro.
  destruct tl as [|e rest]; simpl; [now split|].
  simpl in H. destruct H as [Hz Hr]. split; [|now apply Qeq_bool_iff].
  clear Hz. revert e Hr. induction rest as [|e2 rest IH]; intros e Hr.
  - reflexivity.
  - simpl in Hr. destruct Hr as [He Hr].
    change (Qeq_bool (outputEnd e) (outputStart e2) && contiguousb (e2 :: rest)
            = true).
    apply andb_true_intro. split; [apply Qeq_bool_iff; now symmetry|].
    now apply IH.
Qed.

Lemma sourceOrderedFrom_weaken (x y : Q) (tl : ReconciledTimeline) :
  y <= x -> sourceOrderedFrom x tl -> sourceOrderedFrom y tl.
Proof.
  destruct tl as [|e rest]; simpl; [trivial|].
  intros Hyx (H1 & H2 & H3). repeat split; try assumption. lra.
Qed.

Lemma buildTimeline_sourceOrdered (segs : list TranscriptSegment) :
  forall cursor shift mediaDuration,
    validFrom cursor mediaDuration segs = true ->
    sourceOrderedFrom cursor
      (buildTimeline results cursor shift mediaDuration segs).
Proof.
  induction segs as [|s rest IH]; intros cursor shift D Hv; simpl in *.
  - unfold gap. destruct (Qle_bool D cursor) eqn:Hb; simpl; [trivial|].
    apply Qle_bool_iff in Hv. repeat split; try lra.
  - apply andb_prop in Hv. destruct Hv as [Hv Hrest].
    apply andb_prop in Hv. destruct Hv as [Hcs Hse].
    apply Qle_bool_iff in Hcs. apply Qle_bool_iff in Hse.
    assert (Htail : sourceOrderedFrom (startTime s)
              match resultFor results s with
              | Some r =>
                  mkEntry synthesized (startTime s, endTime s)
                    (startTime s + shift)
                    (startTime s + shift + measuredDuration r)
                  :: buildTimeline results (endTime s)
                       (shift + (measuredDuration r - oldDuration s)) D rest
              | None =>
                  mkEntry original (startTime s, endTime s)
                    (startTime s + shift) (endTime s + shift)
                  :: buildTimeline results (endTime s) shift D rest
              end).
    { destruct (resultFor results s); simpl; repeat split;
        try lra; apply (IH _ _ _ Hrest). }
    unfold gap. destruct (Qle_bool (startTime s) cursor); simpl.
    + eapply sourceOrderedFrom_weaken; [|exact Htail]. exact Hcs.
    + repeat split; try lra. exact Htail.
Qed.

(** The synthesized entries are the edited segments, in transcript
    order. *)
Lemma buildTimeline_synthesized (segs : list TranscriptSegment) :
  forall cursor shift mediaDuration,
    map sourceSpan
        (filter isSynthesized
                (buildTimeline results cursor shift mediaDuration segs))
    = map span (filter (isEdited results) segs).
Proof.
  assert (Hgap : forall a b c rest,
             filter isSynthesized (gap a b c ++ rest)
             = filter isSynthesized rest).
  { intros a b c rest. unfold gap. now destruct (Qle_bool b a). }
  induction segs as [|s rest IH]; intros cursor shift D; simpl.
  - rewrite <- (app_nil_r (gap cursor D shift)). now rewrite Hgap.
  - rewrite Hgap. unfold isEdited at 1.
    destruct (resultFor results s); simpl; now rewrite IH.
Qed.

Lemma totalDuration_app (a b : ReconciledTimeline) :
  totalDuration (a ++ b) == totalDuration a + totalDuration b.
Proof.
  induction a as [|e a IH]; simpl; [lra|]. rewrite IH. lra.
Qed.

Lemma totalDuration_gap (cursor to shift : Q) :
  cursor <= to -> totalDuration (gap cursor to shift) == to - cursor.
Proof.
  intros Hle. unfold gap. destruct (Qle_bool to cursor) eqn:Hb; simpl.
  - apply Qle_bool_iff in Hb. lra.
  - lra.
Qed.

Lemma buildTimeline_totalDuration (segs : list TranscriptSegment) :
  forall cursor shift mediaDuration,
    validFrom cursor mediaDuration segs = true ->
    totalDuration (buildTimeline results cursor shift mediaDuration segs)
    == (mediaDuration - cursor) + sumDeltas results segs.
Proof.
  induction segs as [|s rest IH]; intros cursor shift D Hv; simpl in *.
  - apply Qle_bool_iff in Hv. rewrite totalDuration_gap by assumption. lra.
  - apply andb_prop in Hv. destruct Hv as [Hv Hrest].
    apply andb_prop in Hv. destruct Hv as [Hcs Hse].
    apply Qle_bool_iff in Hcs. apply Qle_bool_iff in Hse.
    rewrite totalDuration_app, totalDuration_gap by assumption.
    destruct (resultFor results s) as [r|]; simpl;
      rewrite (IH _ _ _ Hrest); unfold oldDuration; lra.
Qed.

(** A contiguous timeline that starts at [x] ends at [x] plus its total
    duration. *)
Lemma contiguous_end (tl : ReconciledTimeline) :
  forall x, contiguousFrom x tl ->
            outputEndOf (mkEntry original (0, 0) x x :: tl)
            == x + totalDuration tl.
Proof.
  induction tl as [|e rest IH]; intros x H.
  - unfold outputEndOf. simpl. lra.
  - simpl in H. destruct H as [Hs Hr].
    specialize (IH _ Hr). unfold outputEndOf in *.
    simpl in *. destruct rest; simpl in *; lra.
Qed.

End Reconciliation.

Section ReconciledSegments.

Import Engine Timeline.
Local Open Scope Q_scope.

Variable results : list SynthesisResult.

(** The segment at position [i] after reconciliation, for a walk that
    starts with the shift [shift]. *)
Lemma reconcileSegments_nth (segs : list TranscriptSegment) :
  forall (shift : Q) (i : nat) (s : TranscriptSegment),
    nth_error segs i = Some s ->
    exists s',
      nth_error (reconcileSegments results shift segs) i = Some s'
      /\ (id s' = id s /\ speaker s' = speaker s /\ text s' = text s
          /\ confidence s' = confidence s)
      /\ startTime s' == startTime s + (shift + priorShift results segs i)
      /\ match resultFor results s with
         | Some r => endTime s' == startTime s' + measuredDuration r
         | None => endTime s' == endTime s + (shift + priorShift results segs i)
         end.
Proof.
  unfold priorShift.
  induction segs as [|a rest IH]; intros shift i s Hnth.
  - destruct i; discriminate.
  - destruct i as [|j]; simpl in Hnth.
    + injection Hnth as ->. simpl.
      destruct (resultFor results s) as [r|] eqn:Hr; eexists; (split; [reflexivity|]);
        simpl; rewrite ?Hr; repeat split; lra.
    + simpl.
      destruct (resultFor results a) as [ra|] eqn:Hra.
      * destruct (IH (shift + (measuredDuration ra - oldDuration a)) j s Hnth)
          as (s' & Hs' & Hsame & Hstart & Hend).
        exists s'. repeat split; try tauto.
        -- rewrite Hstart. lra.
        -- destruct (resultFor results s); [exact Hend|]. rewrite Hend. lra.
      * destruct (IH shift j s Hnth) as (s' & Hs' & Hsame & Hstart & Hend).
        exists s'. repeat split; try tauto.
Qed.

(** With a single edited segment, every later position has moved by the
    delta of that segment and no earlier one has moved. *)
Lemma priorShift_single_edit (segs : list TranscriptSegment) :
  forall (k : nat) (sk : TranscriptSegment) (r : SynthesisResult),
    nth_error segs k = Some sk ->
    resultFor results sk = Some r ->
    (forall j sj, j <> k -> nth_error segs j = Some sj ->
                  resultFor results sj = None) ->
    forall i,
      priorShift results segs i
      == if Nat.leb i k then 0 else measuredDuration r - oldDuration sk.
Proof.
  unfold priorShift.
  induction segs as [|a rest IH]; intros k sk r Hk Hr Hothers i.
  - destruct k; discriminate.
  - destruct i as [|i]; [reflexivity|].
    destruct k as [|k]; simpl in Hk.
    + injection Hk as ->. simpl. rewrite Hr.
      assert (Hz : forall n, sumDeltas results (firstn n rest) == 0).
      { assert (Hnone : forall j sj, nth_error rest j = Some sj ->
                                     resultFor results sj = None)
          by (intros j sj Hj; apply (Hothers (S j) sj); [discriminate | exact Hj]).
        clear - Hnone. induction rest as [|b rest IHr]; intros n.
        - now destruct n.
        - destruct n as [|n]; [reflexivity|]. simpl.
          rewrite (Hnone 0%nat b eq_refl).
          apply IHr. intros j sj Hj. apply (Hnone (S j) sj Hj). }
      rewrite Hz. lra.
    + simpl. rewrite (Hothers 0%nat a (Nat.neq_0_succ k) eq_refl).
      apply (IH k sk r Hk Hr).
      intros j sj Hjk Hj. apply (Hothers (S j) sj); [congruence | exact Hj].
Qed.

(** The timeline entry of the segment at position [i], for a walk that
    starts with the shift [shift]. *)
Lemma buildTimeline_entry (segs : list TranscriptSegment) :
  forall (cursor shift mediaDuration : Q) (i : nat) (s : TranscriptSegment),
    nth_error segs i = Some s ->
    exists e,
      In e (buildTimeline results cursor shift mediaDuration segs)
      /\ sourceSpan e = span s
      /\ outputStart e == startTime s + (shift + priorShift results segs i)
      /\ match resultFor results s with
         | Some r =>
             kind e = synthesized
             /\ outputEnd e == outputStart e + measuredDuration r
         | None =>
             kind e = original
             /\ outputEnd e == endTime s + (shift + priorShift results segs i)
         end.
Proof.
  unfold priorShift.
  induction segs as [|a rest IH]; intros cursor shift D i s Hnth.
  - destruct i; discriminate.
  - destruct i as [|j]; simpl in Hnth.
    + injection Hnth as ->. simpl.
      destruct (resultFor results s) as [r|] eqn:Hr;
        eexists; (split; [apply in_or_app; right; left; reflexivity|]);
        simpl; rewrite ?Hr; repeat split; lra.
    + simpl.
      destruct (resultFor results a) as [ra|] eqn:Hra.
      * destruct (IH (endTime a) (shift + (measuredDuration ra - oldDuration a))
                     D j s Hnth)
          as (e & Hin & Hspan & Hstart & Hend).
        exists e. split; [apply in_or_app; right; right; exact Hin|].
        split; [exact Hspan|]. split; [rewrite Hstart; lra|].
        destruct (resultFor results s); [exact Hend|].
        destruct Hend as [Hk Hend]. split; [exact Hk|]. rewrite Hend. lra.
      * destruct (IH (endTime a) shift D j s Hnth)
          as (e & Hin & Hspan & Hstart & Hend).
        exists e. split; [apply in_or_app; right; right; exact Hin|].
        split; [exact Hspan|]. split; [exact Hstart | exact Hend].
Qed.

(** Original audio is never stretched: an entry of original kind lasts as
    long as its source span, whether it is an unedited segment or the
    silence between two segments. *)
Lemma buildTimeline_original_duration (segs : list TranscriptSegment) :
  forall (cursor shift mediaDuration : Q) (e : Entry),
    In e (buildTimeline results cursor shift mediaDuration segs) ->
    kind e = original ->
    outputEnd e - outputStart e == snd (sourceSpan e) - fst (sourceSpan e).
Proof.
  assert (Hgap : forall a b c e, In e (gap a b c) ->
                   outputEnd e - outputStart e
                   == snd (sourceSpan e) - fst (sourceSpan e)).
  { intros a b c e. unfold gap. destruct (Qle_bool b a); [intros []|].
    intros [<-|[]]. simpl. lra. }
  induction segs as [|a rest IH]; intros cursor shift D e Hin Hk; simpl in Hin.
  - now apply Hgap in Hin.
  - apply in_app_or in Hin. destruct Hin as [Hin|Hin]; [now apply Hgap in Hin|].
    destruct (resultFor results a) as [ra|]; destruct Hin as [<-|Hin].
    + discriminate Hk.
    + now apply IH in Hin.
    + simpl. lra.
    + now apply IH in Hin.
Qed.

Lemma reconcile_inv (mediaDuration : Q) (segs : list TranscriptSegment)
      (tl : ReconciledTimeline) (segs' : list TranscriptSegment) :
  reconcile results mediaDuration segs = Ok (tl, segs') ->
  validFrom 0 mediaDuration segs = true
  /\ tl = buildTimeline results 0 0 mediaDuration segs
  /\ segs' = reconcileSegments results 0 segs.
Proof.
  unfold reconcile, validate.
  destruct (validFrom 0 mediaDuration segs); simpl; [|discriminate].
  destruct (contiguousb _ && startsAtZerob _); [|discriminate].
  intros H. injection H as <- <-. auto.
Qed.

(** On a valid transcript the reconciler returns its timeline: the
    contiguity check never fails. *)
Lemma reconcile_total (mediaDuration : Q) (segs : list TranscriptSegment) :
  validFrom 0 mediaDuration segs = true ->
  reconcile results mediaDuration segs
  = Ok (buildTimeline results 0 0 mediaDuration segs,
        reconcileSegments results 0 segs).
Proof.
  intros Hv. unfold reconcile, validate. rewrite Hv. simpl.
  rewrite checks_complete; [reflexivity|].
  eapply contiguousFrom_compat; [|apply (buildTimeline_contiguous results segs 0 0 _ Hv)].
  lra.
Qed.

Lemma outputEndOf_cons_default (tl : ReconciledTimeline) :
  outputEndOf (mkEntry original (0, 0) 0 0 :: tl) = outputEndOf tl.
Proof. unfold outputEndOf. now destruct tl. Qed.

End ReconciledSegments.

(* --------------------------------------------------------------------- *)
(** ** The top level operation                                           *)
(* --------------------------------------------------------------------- *)

Section EngineTopLevel.

Import Engine Swap.

Variables Media Audio : Type.
Variable resolve : list TranscriptSegment -> list TextEdit -> Result EditPlan.
Variable synthesize : string -> jsstring -> Result SynthesisResult.
Variable splice : option Media -> ReconciledTimeline ->
                  list SynthesisResult -> Audio.
Variable remux : option Media -> Audio -> Result Media.

Local Abbreviation runEngine :=
  (applyEditsToMedia resolve synthesize splice remux).
Local Abbreviation allOf := (@synthesizeAll Media synthesize).
Local Abbreviation oneOf := (@synthesizeOne Media synthesize).

Lemma untouched_refl (st : Storage Media) : untouched st st.
Proof. repeat split. Qed.

Lemma untouched_trans (a b c : Storage Media) :
  untouched a b -> untouched b c -> untouched a c.
Proof.
  intros (H1 & H2 & H3 & H4) (K1 & K2 & K3 & K4).
  repeat split; congruence.
Qed.

Lemma untouched_readArtifact (st st' : Storage Media) :
  untouched st st' -> readArtifact st' = readArtifact st.
Proof.
  intros (_ & _ & Hl & Ha). unfold readArtifact. now rewrite Hl, Ha.
Qed.

Lemma textEqb_eq (a b : jsstring) : textEqb a b = true <-> a = b.
Proof.
  unfold textEqb. destruct (list_eq_dec ascii_dec a b); split;
    congruence.
Qed.

(** A lookup in the cache with one more entry. *)
Lemma cached_cons (entries : list CacheEntry) (sid0 sid : string)
      (txt0 txt : jsstring) (r0 : SynthesisResult) :
  cached ((sid0, txt0, r0) :: entries) sid txt
  = if (String.eqb sid0 sid && textEqb txt0 txt)%bool
    then Some r0 else cached entries sid txt.
Proof.
  unfold cached. simpl.
  now destruct (String.eqb sid0 sid && textEqb txt0 txt)%bool.
Qed.

(** One call of the Gateway: what it answers and what it leaves. *)
Lemma synthesizeOne_cases (sid : string) (txt : jsstring) (st : Storage Media) :
  (exists r, cached (cache st) sid txt = Some r
             /\ oneOf sid txt st = (Ok r, st))
  \/ (exists r, cached (cache st) sid txt = None
                /\ synthesize sid txt = Ok r
                /\ oneOf sid txt st
                   = (Ok r,
                      mkStorage (segments st) (mediaDuration st)
                                (mediaLocation st) (artifacts st)
                                ((sid, txt, r) :: cache st)))
  \/ (exists e, cached (cache st) sid txt = None
                /\ synthesize sid txt = Err e
                /\ oneOf sid txt st = (Err e, st)).
Proof.
  unfold synthesizeOne.
  destruct (cached (cache st) sid txt) as [r|] eqn:Hc.
  - left. now exists r.
  - right. unfold andThen, lift, remember, yield.
    destruct (synthesize sid txt) as [r|e].
    + left. now exists r.
    + right. now exists e.
Qed.

Lemma synthesizeOne_untouched (sid : string) (txt : jsstring)
      (st : Storage Media) :
  untouched st (snd (oneOf sid txt st)).
Proof.
  destruct (synthesizeOne_cases sid txt st)
    as [(r & _ & ->)|[(r & _ & _ & ->)|(e & _ & _ & ->)]];
    repeat split.
Qed.

(** The synthesis calls of a batch write nothing but cache entries,
    whether the batch fails or not. *)
Lemma synthesizeAll_untouched (plan : EditPlan) :
  forall st : Storage Media, untouched st (snd (allOf plan st)).
Proof.
  induction plan as [|[sid txt] rest IH]; intros st.
  - apply untouched_refl.
  - cbn [synthesizeAll]. unfold andThen at 1.
    assert (H1 := synthesizeOne_untouched sid txt st).
    destruct (oneOf sid txt st) as [[r|e] st1]; [|exact H1].
    unfold andThen. assert (H2 := IH st1).
    destruct (allOf rest st1) as [[rs|e] st2]; simpl in *;
      eapply untouched_trans; eassumption.
Qed.

(** The results of a batch that went through are answers of the Gateway,
    one for each planned text, in the order of the plan. *)
Lemma synthesizeAll_results (entries : list CacheEntry) (plan : EditPlan) :
  forall (st st1 : Storage Media) (rs : list SynthesisResult),
    cacheFrom synthesize entries (cache st) ->
    allOf plan st = (Ok rs, st1) ->
    Forall2 (synthesizedFor synthesize entries) plan rs.
Proof.
  induction plan as [|[sid txt] rest IH]; intros st st1 rs Hinv Hrun.
  - injection Hrun as <- _. constructor.
  - cbn [synthesizeAll] in Hrun. unfold andThen at 1 in Hrun.
    destruct (synthesizeOne_cases sid txt st)
      as [(r & Hc & Hone)|[(r & Hc & Hs & Hone)|(e & _ & _ & Hone)]];
      rewrite Hone in Hrun; [| |discriminate].
    + unfold andThen in Hrun.
      destruct (allOf rest st) as [[rs'|e] st2] eqn:Hrest; [|discriminate].
      injection Hrun as <- _.
      constructor; [exact (Hinv _ _ _ Hc) | exact (IH _ _ _ Hinv Hrest)].
    + unfold andThen in Hrun.
      remember (mkStorage (segments st) (mediaDuration st) (mediaLocation st)
                          (artifacts st) ((sid, txt, r) :: cache st))
        as stc eqn:Hstc.
      destruct (allOf rest stc) as [[rs'|e] st2] eqn:Hrest; [|discriminate].
      injection Hrun as <- _.
      constructor; [right; exact Hs|].
      apply (IH stc st2 rs'); [|exact Hrest].
      intros sid' txt' r'. rewrite Hstc. cbn [cache]. rewrite cached_cons.
      destruct (String.eqb sid sid' && textEqb txt txt')%bool eqn:Hk.
      * intros Heq. injection Heq as <-.
        apply andb_prop in Hk. destruct Hk as [Hk1 Hk2].
        apply String.eqb_eq in Hk1. apply textEqb_eq in Hk2. subst sid' txt'.
        right. exact Hs.
      * apply Hinv.
Qed.

(** One planned text that the cache does not hold and the remote call
    refuses fails the batch, wherever it stands in the plan. *)
Lemma synthesizeAll_fails (plan : EditPlan) (sid : string) (txt : jsstring)
      (e : EngineError) :
  synthesize sid txt = Err e ->
  forall st : Storage Media,
    In (sid, txt) plan ->
    cached (cache st) sid txt = None ->
    exists e' st1, allOf plan st = (Err e', st1).
Proof.
  intros Hfail.
  induction plan as [|[sid0 txt0] rest IH]; intros st Hin Hmiss;
    [contradiction|].
  cbn [synthesizeAll]. unfold andThen at 1.
  destruct (synthesizeOne_cases sid0 txt0 st)
    as [(r & Hc & Hone)|[(r & Hc & Hs & Hone)|(e0 & _ & _ & Hone)]];
    rewrite Hone.
  - destruct Hin as [Heq|Hin]; [injection Heq as -> ->; congruence|].
    destruct (IH st Hin Hmiss) as (e' & st1 & Hrest).
    unfold andThen. rewrite Hrest. now exists e', st1.
  - destruct Hin as [Heq|Hin]; [injection Heq as -> ->; congruence|].
    remember (mkStorage (segments st) (mediaDuration st) (mediaLocation st)
                        (artifacts st) ((sid0, txt0, r) :: cache st))
      as stc eqn:Hstc.
    assert (Hmiss' : cached (cache stc) sid txt = None).
    { rewrite Hstc. cbn [cache]. rewrite cached_cons.
      destruct (String.eqb sid0 sid && textEqb txt0 txt)%bool eqn:Hk;
        [|exact Hmiss].
      apply andb_prop in Hk. destruct Hk as [Hk1 Hk2].
      apply String.eqb_eq in Hk1. apply textEqb_eq in Hk2. subst.
      congruence. }
    destruct (IH stc Hin Hmiss') as (e' & st1 & Hrest).
    unfold andThen. rewrite Hrest. now exists e', st1.
  - now exists e0, st.
Qed.

(** What a run is made of: the steps up to the finished container write
    nothing but cache entries; the two writes follow, and only when every
    step before them went through. *)
Lemma applyEditsToMedia_run (edits : list TextEdit) (st : Storage Media) :
  (exists e st1,
      runEngine edits st = (Err e, st1) /\ untouched st st1)
  \/ (exists plan rs st1 tl segs' out,
         resolve (segments st) edits = Ok plan
         /\ allOf plan st = (Ok rs, st1)
         /\ reconcile rs (mediaDuration st) (segments st) = Ok (tl, segs')
         /\ remux (readArtifact st) (splice (readArtifact st) tl rs) = Ok out
         /\ runEngine edits st
            = (Ok (List.length (artifacts st)),
               mkStorage (applyPlan plan segs') (totalDuration tl)
                         (List.length (artifacts st))
                         (artifacts st ++ [out]) (cache st1))).
Proof.
  unfold applyEditsToMedia, andThen, readTranscript, readOriginal,
    writeArtifact, writeBack, lift, yield. cbn.
  destruct (resolve (segments st) edits) as [plan|e];
    [|left; exists e, st; split; [reflexivity | apply untouched_refl]].
  assert (Hu := synthesizeAll_untouched plan st).
  destruct (allOf plan st) as [[rs|e] st1] eqn:Hall; cbn [snd] in Hu;
    [|left; exists e, st1; split; [reflexivity | exact Hu]].
  destruct (reconcile rs (mediaDuration st) (segments st)) as [[tl segs']|e]
    eqn:Hrec;
    [|left; exists e, st1; split; [reflexivity | exact Hu]].
  rewrite (untouched_readArtifact Hu). cbn [fst snd].
  destruct (remux (readArtifact st) (splice (readArtifact st) tl rs))
    as [out|e] eqn:Hmux;
    [|left; exists e, st1; split; [reflexivity | exact Hu]].
  right. exists plan, rs, st1, tl, segs', out.
  repeat (split; [reflexivity|]).
  destruct Hu as (_ & _ & _ & Ha). now rewrite Ha.
Qed.

End EngineTopLevel.

(* --------------------------------------------------------------------- *)
(** ** The reconciled timeline                                           *)
(* --------------------------------------------------------------------- *)

(** C2.  In the reconciled timeline the entry of the segment at every
    position takes the segment's span of the source and starts at the old
    start plus the running sum of the deltas ([measuredDuration] minus old
    duration) of the edited segments before it; the entry of an edited
    segment is synthesized and lasts exactly its [measuredDuration]; the
    entry of an unedited one is original audio with its end moved by the
    same sum, so its duration is unchanged.  No entry of original audio,
    segment or silence, changes its duration.  When a single segment is
    edited that sum is zero up to and including the edited segment and equal
    to its delta for every later one: a segment [[10, 12)] resynthesized in
    2.4 seconds gets the span [[10, 12.4)] and every later segment moves by
    0.4 seconds. *)
Theorem reconciled_spans_follow_shift_policy
        (results : list Engine.SynthesisResult) (mediaDuration : Q)
        (segs segs' : list Engine.TranscriptSegment)
        (tl : Engine.ReconciledTimeline)
        (i : nat) (s : Engine.TranscriptSegment) :
  Engine.reconcile results mediaDuration segs = Engine.Ok (tl, segs') ->
  nth_error segs i = Some s ->
  (exists e,
      In e tl
      /\ Engine.sourceSpan e = Timeline.span s
      /\ (Engine.outputStart e
          == Engine.startTime s + Timeline.priorShift results segs i)%Q
      /\ match Engine.resultFor results s with
         | Some r =>
             Engine.kind e = Engine.synthesized
             /\ (Engine.outputEnd e - Engine.outputStart e
                 == Engine.measuredDuration r)%Q
         | None =>
             Engine.kind e = Engine.original
             /\ (Engine.outputEnd e
                 == Engine.endTime s + Timeline.priorShift results segs i)%Q
             /\ (Engine.outputEnd e - Engine.outputStart e
                 == Engine.endTime s - Engine.startTime s)%Q
         end)
  /\ (forall e,
         In e tl -> Engine.kind e = Engine.original ->
         (Engine.outputEnd e - Engine.outputStart e
          == snd (Engine.sourceSpan e) - fst (Engine.sourceSpan e))%Q)
  /\ (forall k sk r,
         nth_error segs k = Some sk ->
         Engine.resultFor results sk = Some r ->
         (forall j sj, j <> k -> nth_error segs j = Some sj ->
                       Engine.resultFor results sj = None) ->
         (Timeline.priorShift results segs i
          == if Nat.leb i k then 0
             else Engine.measuredDuration r - Engine.oldDuration sk)%Q).
Proof.
  intros Hrec Hnth.
  destruct (reconcile_inv _ _ _ Hrec) as (_ & -> & _).
  split; [|split].
  - destruct (buildTimeline_entry results segs 0 0 mediaDuration i Hnth)
      as (e & Hin & Hspan & Hstart & Hend).
    exists e. split; [exact Hin|]. split; [exact Hspan|].
    split; [rewrite Hstart; lra|].
    destruct (Engine.resultFor results s).
    + destruct Hend as [Hk Hend]. split; [exact Hk|]. rewrite Hend. lra.
    + destruct Hend as [Hk Hend]. split; [exact Hk|].
      split; rewrite Hend; [|rewrite Hstart]; lra.
  - intros e. apply buildTimeline_original_duration.
  - intros k sk r Hk Hr Hothers.
    now apply priorShift_single_edit.
Qed.

(** C5.  The total output duration of a reconciled timeline is the media
    duration plus the sum, over the edited segments, of new duration minus
    old duration; the timeline ends at that output time. *)
Theorem reconciled_total_duration
        (results : list Engine.SynthesisResult) (mediaDuration : Q)
        (segs segs' : list Engine.TranscriptSegment)
        (tl : Engine.ReconciledTimeline) :
  Engine.reconcile results mediaDuration segs = Engine.Ok (tl, segs') ->
  (Engine.totalDuration tl
   == mediaDuration + Engine.sumDeltas results segs)%Q
  /\ (Timeline.outputEndOf tl
      == mediaDuration + Engine.sumDeltas results segs)%Q.
Proof.
  intros Hrec.
  destruct (reconcile_inv _ _ _ Hrec) as (Hv & -> & _).
  assert (Htot := buildTimeline_totalDuration results segs 0 0 _ Hv).
  split.
  - rewrite Htot. lra.
  - assert (Hc := buildTimeline_contiguous results segs 0 0 _ Hv).
    apply contiguousFrom_compat with (y := 0%Q) in Hc; [|lra].
    rewrite <- outputEndOf_cons_default.
    rewrite (@contiguous_end _ _ Hc), Htot. lra.
Qed.

(** C6.  Every timeline the reconciler returns is contiguous
    ([entry[i].outputEnd == entry[i+1].outputStart]), its first entry starts
    at output time 0, and its entries take the original audio in source
    order with the synthesized entries standing for the edited segments in
    transcript order: nothing is reordered. *)
Theorem reconciled_timeline_invariant
        (results : list Engine.SynthesisResult) (mediaDuration : Q)
        (segs segs' : list Engine.TranscriptSegment)
        (tl : Engine.ReconciledTimeline) :
  Engine.reconcile results mediaDuration segs = Engine.Ok (tl, segs') ->
  Timeline.contiguous tl
  /\ Timeline.startsAtZero tl
  /\ Timeline.sourceOrderedFrom 0 tl
  /\ map Engine.sourceSpan (filter Timeline.isSynthesized tl)
     = map Timeline.span (filter (Timeline.isEdited results) segs).
Proof.
  intros Hrec.
  destruct (reconcile_inv _ _ _ Hrec) as (Hv & -> & _).
  assert (Hc := buildTimeline_contiguous results segs 0 0 _ Hv).
  apply contiguousFrom_compat with (y := 0%Q) in Hc; [|lra].
  destruct (@contiguousFrom_zero _ Hc) as [H1 H2].
  repeat split; try assumption.
  - now apply buildTimeline_sourceOrdered.
  - apply buildTimeline_synthesized.
Qed.

(* --------------------------------------------------------------------- *)
(** ** Failure and success of an application                             *)
(* --------------------------------------------------------------------- *)

(** C7.  Engine: a run that fails, at whatever component, leaves project
    and file storage as they were: the transcript, the media duration, the
    reference of the current media and every stored artifact, so the
    original media is read as before and no new artifact exists; one
    planned text that the Gateway cannot synthesize is such a failure, also
    when other texts of the batch were synthesized before it.  A run that
    succeeds has resolved the edits, synthesized every planned text,
    reconciled the timeline and remuxed the original media; it stores the
    output under a reference that did not exist, leaves every artifact
    stored before readable under its reference, and replaces transcript,
    duration and media reference together, so that the current media read
    afterwards is the output.  Client: [handleApplyChanges] changes the
    pending change list only by emptying it, and only when the server
    reported success; without a reported success the change list and the
    project store are as before; on a reported success the list is emptied
    and the returned project replaces the projects of its id in the
    store. *)
Theorem failed_application_keeps_success_replaces
        (Media Audio : Type)
        (resolve : list Engine.TranscriptSegment -> list Engine.TextEdit ->
                   Engine.Result Engine.EditPlan)
        (synthesize : string -> jsstring ->
                      Engine.Result Engine.SynthesisResult)
        (splice : option Media -> Engine.ReconciledTimeline ->
                  list Engine.SynthesisResult -> Audio)
        (remux : option Media -> Audio -> Engine.Result Media)
        (st : Engine.Storage Media) (edits : list Engine.TextEdit)
        (buildMediaUrl : string -> string)
        (post : string -> list TextChange.t ->
                Outcome (ApiResponse.t ProjectApiResponse.t))
        (getProject : string -> Outcome (ApiResponse.t Project.t))
        (selected : option Project.t) (w : World) :
  let engine :=
    Engine.applyEditsToMedia resolve synthesize splice remux edits st in
  let st' := snd engine in
  let w' := handleApplyChanges buildMediaUrl post getProject selected w in
  (forall e,
      fst engine = Engine.Err e ->
      Swap.untouched st st'
      /\ Engine.readArtifact st' = Engine.readArtifact st)
  /\ (forall plan sid txt e,
         resolve (Engine.segments st) edits = Engine.Ok plan ->
         In (sid, txt) plan ->
         Engine.cached (Engine.cache st) sid txt = None ->
         synthesize sid txt = Engine.Err e ->
         exists e', fst engine = Engine.Err e')
  /\ (forall ref,
         fst engine = Engine.Ok ref ->
         exists plan rs tl segs' out,
           resolve (Engine.segments st) edits = Engine.Ok plan
           /\ Forall2 (Swap.synthesizedFor synthesize (Engine.cache st))
                      plan rs
           /\ Engine.reconcile rs (Engine.mediaDuration st)
                               (Engine.segments st)
              = Engine.Ok (tl, segs')
           /\ remux (Engine.readArtifact st)
                    (splice (Engine.readArtifact st) tl rs)
              = Engine.Ok out
           /\ nth_error (Engine.artifacts st) ref = None
           /\ Engine.artifacts st' = Engine.artifacts st ++ [out]
           /\ (forall n m,
                  nth_error (Engine.artifacts st) n = Some m ->
                  nth_error (Engine.artifacts st') n = Some m)
           /\ Engine.mediaLocation st' = ref
           /\ Engine.readArtifact st' = Some out
           /\ Engine.segments st' = Engine.applyPlan plan segs'
           /\ Engine.mediaDuration st' = Engine.totalDuration tl)
  /\ (changes (panel w') <> changes (panel w) ->
      exists project d,
        selected = Some project
        /\ reportsSuccess post (Project.id project) (changes (panel w)) d
        /\ changes (panel w') = [])
  /\ ((forall project d,
          selected = Some project ->
          ~ reportsSuccess post (Project.id project) (changes (panel w)) d) ->
      changes (panel w') = changes (panel w) /\ store w' = store w)
  /\ (forall project d,
         selected = Some project -> submits project w ->
         reportsSuccess post (Project.id project) (changes (panel w)) d ->
         changes (panel w') = []
         /\ ProjectStore.projects (store w')
            = map (fun p =>
                     if String.eqb (Project.id p) (ProjectApiResponse.id d)
                     then ProjectApi.mapApiProjectToProject buildMediaUrl d
                     else p)
                  (ProjectStore.projects (store w))
         /\ (ProjectStore.currentProject (store w')
             = match ProjectStore.currentProject (store w) with
               | Some cur =>
                   if String.eqb (Project.id cur) (ProjectApiResponse.id d)
                   then Some (ProjectApi.mapApiProjectToProject
                                buildMediaUrl d)
                   else Some cur
               | None => None
               end
             \/ exists id r p,
                  getProject id = Resolved r
                  /\ ApiResponse.success r = true
                  /\ ApiResponse.data r = Some p
                  /\ ProjectStore.currentProject (store w') = Some p)).
Proof.
  intros engine st' w'. subst st' engine w'.
  split; [|split; [|split; [|split; [|split]]]].
  - intros e Hfail.
    destruct (applyEditsToMedia_run resolve synthesize splice remux edits st)
      as [(e' & st1 & Hrun & Hu)|(plan & rs & st1 & tl & segs' & out & Hrun)].
    + rewrite Hrun. cbn [snd]. split; [exact Hu|].
      now apply untouched_readArtifact.
    + destruct Hrun as (_ & _ & _ & _ & Hrun).
      rewrite Hrun in Hfail. discriminate Hfail.
  - intros plan sid txt e Hplan Hin Hmiss Hsyn.
    destruct (@synthesizeAll_fails Media synthesize plan sid txt e Hsyn
                st Hin Hmiss)
      as (e' & st1 & Hall).
    destruct (applyEditsToMedia_run resolve synthesize splice remux edits st)
      as [(e'' & st2 & Hrun & _)
         |(plan' & rs & st2 & tl & segs' & out & Hplan' & Hall' & _)].
    + exists e''. now rewrite Hrun.
    + rewrite Hplan in Hplan'. injection Hplan' as <-.
      rewrite Hall in Hall'. discriminate Hall'.
  - intros ref Hok.
    destruct (applyEditsToMedia_run resolve synthesize splice remux edits st)
      as [(e' & st1 & Hrun & _)
         |(plan & rs & st1 & tl & segs' & out
           & Hplan & Hall & Hrec & Hmux & Hrun)].
    + rewrite Hrun in Hok. discriminate Hok.
    + rewrite Hrun in Hok |- *. cbn [fst snd] in Hok |- *.
      injection Hok as <-.
      exists plan, rs, tl, segs', out.
      split; [exact Hplan|]. split.
      { apply (@synthesizeAll_results Media synthesize (Engine.cache st)
                 plan st st1 rs); [|exact Hall].
        intros sid txt r Hc. left. exact Hc. }
      split; [exact Hrec|]. split; [exact Hmux|].
      cbn [Engine.artifacts Engine.mediaLocation Engine.segments
           Engine.mediaDuration].
      split; [apply nth_error_None; apply Nat.le_refl|].
      split; [reflexivity|]. split.
      { intros n m Hn. rewrite nth_error_app1; [exact Hn|].
        apply nth_error_Some. congruence. }
      split; [reflexivity|]. split.
      { unfold Engine.readArtifact.
        cbn [Engine.artifacts Engine.mediaLocation].
        rewrite nth_error_app2 by apply Nat.le_refl.
        now rewrite Nat.sub_diag. }
      split; reflexivity.
  - apply handleApplyChanges_cleared_only_on_success.
  - apply handleApplyChanges_failure_keeps.
  - intros project d -> Hsub Hrep.
    destruct (@handleApplyChanges_success_swaps buildMediaUrl post
                getProject project w d Hsub Hrep) as [Hcs _].
    split; [exact Hcs|].
    now apply handleApplyChanges_success_store.
Qed.

(* ===================================================================== *)
(** * The theorems at concrete inputs                                    *)
(* ===================================================================== *)

(** The item [s1] with a single change recorded for another segment. *)
Lemma getCurrentText_without_changes_witness :
  (forall c, In c [Examples.editOther] ->
             TextChange.transcriptId c <> TranscriptItem.id Examples.s1)
  /\ getCurrentText [Examples.editOther] Examples.s1
     = TranscriptItem.text Examples.s1.
Proof.
  assert (H : forall c, In c [Examples.editOther] ->
                        TextChange.transcriptId c
                        <> TranscriptItem.id Examples.s1).
  { intros c [<-|[]]. simpl. discriminate. }
  split; [exact H|].
  exact (getCurrentText_without_changes [Examples.editOther] Examples.s1 H).
Defined.

(** The two non-overlapping edits of [s1] in both orders. *)
Lemma getCurrentText_permutation_witness :
  Permutation [Examples.editA; Examples.editB] [Examples.editB; Examples.editA]
  /\ NoDup (map TextChange.startIndex
                (changesOf [Examples.editA; Examples.editB] Examples.s1))
  /\ getCurrentText [Examples.editA; Examples.editB] Examples.s1
     = getCurrentText [Examples.editB; Examples.editA] Examples.s1.
Proof.
  assert (HP : Permutation [Examples.editA; Examples.editB]
                           [Examples.editB; Examples.editA])
    by apply perm_swap.
  assert (HN : NoDup (map TextChange.startIndex
                          (changesOf [Examples.editA; Examples.editB]
                                     Examples.s1))).
  { simpl. constructor; [|constructor; [|constructor]]; simpl.
    - intros [H|[]]. discriminate H.
    - intros []. }
  split; [exact HP|]. split; [exact HN|].
  exact (getCurrentText_permutation Examples.s1 HP HN).
Defined.

(** The two non-overlapping edits of "abcdefghij", recorded out of order
    among a change of another segment, as a batch and one at a time:
    [0,1) becomes "XX", the copy has grown by one, and the edit of [3,4) puts
    "Y" in place of "d" at [4,5). *)
Lemma getCurrentText_one_at_a_time_witness :
  Permutation [Examples.editA; Examples.editB]
              (changesOf [Examples.editB; Examples.editOther; Examples.editA]
                         Examples.s1)
  /\ StronglySorted startsLt [Examples.editA; Examples.editB]
  /\ chained 0 [Examples.editA; Examples.editB]
  /\ Forall (fun c => TextChange.endIndex c
                      <= JS.length (TranscriptItem.text Examples.s1))
            [Examples.editA; Examples.editB]
  /\ getCurrentText [Examples.editB; Examples.editOther; Examples.editA]
                    Examples.s1
     = applyOneAtATime (TranscriptItem.text Examples.s1)
                       [Examples.editA; Examples.editB].
Proof.
  assert (H1 : Permutation [Examples.editA; Examples.editB]
                 (changesOf
                    [Examples.editB; Examples.editOther; Examples.editA]
                    Examples.s1))
    by exact (perm_swap Examples.editB Examples.editA []).
  assert (H2 : StronglySorted startsLt [Examples.editA; Examples.editB])
    by (repeat constructor).
  assert (H3 : chained 0 [Examples.editA; Examples.editB])
    by (simpl; lia).
  assert (H4 : Forall (fun c => TextChange.endIndex c
                                <= JS.length (TranscriptItem.text Examples.s1))
                      [Examples.editA; Examples.editB])
    by (repeat constructor; vm_compute; discriminate).
  split; [exact H1|]. split; [exact H2|]. split; [exact H3|].
  split; [exact H4|].
  exact (@getCurrentText_one_at_a_time
           [Examples.editB; Examples.editOther; Examples.editA]
           [Examples.editA; Examples.editB] Examples.s1 H1 H2 H3 H4).
Defined.

Example one_at_a_time_run :
  applyOneAtATime (TranscriptItem.text Examples.s1)
                  [Examples.editA; Examples.editB]
  = JS.lit "XXbcYefghij"
  /\ getCurrentText [Examples.editB; Examples.editA] Examples.s1
     = JS.lit "XXbcYefghij"
  /\ spliced (TranscriptItem.text Examples.s1) 0
             [Examples.editA; Examples.editB]
     = JS.lit "XXbcYefghij".
Proof. repeat split; reflexivity. Qed.

(** C8, the statement without its restriction fails: on the overlapping
    edits [0,5) and [3,8) of "abcdefghij" the rendered segments spell
    "XYYYYYYij" while the current text is "YYYYYij". *)
Lemma rendered_text_differs_on_overlap :
  renderedText
    (applyChangesToText (TranscriptItem.text Examples.s1)
                        [Examples.overlapB; Examples.overlapA])
  = JS.lit "XYYYYYYij"
  /\ getCurrentText [Examples.overlapB; Examples.overlapA] Examples.s1
     = JS.lit "YYYYYij"
  /\ renderedText
       (applyChangesToText (TranscriptItem.text Examples.s1)
                           [Examples.overlapB; Examples.overlapA])
     <> getCurrentText [Examples.overlapB; Examples.overlapA] Examples.s1.
Proof.
  split; [reflexivity|]. split; [reflexivity|].
  vm_compute. discriminate.
Qed.

(** The two functions also part on a negative start index: for the edit of
    [-1,2) the segments spell "XXcdefghij", the current text is
    "Xcdefghij". *)
Example rendered_text_differs_on_negative_start :
  renderedText
    (applyChangesToText (TranscriptItem.text Examples.s1)
                        [Examples.negativeEdit])
  = JS.lit "XXcdefghij"
  /\ getCurrentText [Examples.negativeEdit] Examples.s1
     = JS.lit "Xcdefghij".
Proof. split; reflexivity. Qed.

(** The non-overlapping edits of [s1], recorded out of order among a
    change of another segment. *)
Lemma applyChangesToText_spells_current_text_witness :
  nonOverlapping [Examples.editB; Examples.editOther; Examples.editA]
                 Examples.s1
  /\ renderedText
       (applyChangesToText
          (TranscriptItem.text Examples.s1)
          (changesOf [Examples.editB; Examples.editOther; Examples.editA]
                     Examples.s1))
     = getCurrentText [Examples.editB; Examples.editOther; Examples.editA]
                      Examples.s1.
Proof.
  assert (H : nonOverlapping
                [Examples.editB; Examples.editOther; Examples.editA]
                Examples.s1).
  { unfold nonOverlapping. simpl. lia. }
  split; [exact H|].
  exact (applyChangesToText_spells_current_text
           [Examples.editB; Examples.editOther; Examples.editA] Examples.s1 H).
Defined.





(** The sale scenario: [s1] spans [[10, 12)] and is resynthesized in 2.4
    seconds.  The timeline holds the four segments and the second of
    silence before the last one, at [[0, 10)], [[10, 12.4)], [[12.4, 15.4)],
    [[15.4, 16.4)] and [[16.4, 20.4)]; only the entry of [s1] is synthesized;
    the output lasts 20.4 seconds. *)
Example sale_scenario :
  exists e0 e1 e2 g e3 segs',
    Engine.reconcile [Examples.saleResult] (20 # 1) Examples.transcript
    = Engine.Ok ([e0; e1; e2; g; e3], segs')
    /\ map Engine.kind [e0; e1; e2; g; e3]
       = [Engine.original; Engine.synthesized; Engine.original;
          Engine.original; Engine.original]
    /\ (Engine.outputStart e0 == 0 /\ Engine.outputEnd e0 == 10)%Q
    /\ (Engine.outputStart e1 == 10 /\ Engine.outputEnd e1 == 124 # 10)%Q
    /\ (Engine.outputStart e2 == 124 # 10
        /\ Engine.outputEnd e2 == 154 # 10)%Q
    /\ (Engine.outputStart g == 154 # 10 /\ Engine.outputEnd g == 164 # 10)%Q
    /\ (Engine.outputStart e3 == 164 # 10
        /\ Engine.outputEnd e3 == 204 # 10)%Q
    /\ (Engine.totalDuration [e0; e1; e2; g; e3] == 204 # 10)%Q.
Proof.
  do 6 eexists. split; [reflexivity|].
  repeat split; reflexivity.
Qed.

Lemma reconciled_spans_follow_shift_policy_witness :
  Engine.reconcile [Examples.saleResult] (20 # 1) Examples.transcript
  = Engine.Ok (Engine.buildTimeline [Examples.saleResult] 0 0 (20 # 1)
                                    Examples.transcript,
               Engine.reconcileSegments [Examples.saleResult] 0
                                        Examples.transcript)
  /\ nth_error Examples.transcript 1
     = Some (Examples.segment "s1" (10 # 1) (12 # 1) "Monday sale")
  /\ exists e,
       In e (Engine.buildTimeline [Examples.saleResult] 0 0 (20 # 1)
                                  Examples.transcript)
       /\ Engine.sourceSpan e = ((10 # 1)%Q, (12 # 1)%Q)
       /\ Engine.kind e = Engine.synthesized
       /\ (Engine.outputStart e == 10)%Q
       /\ (Engine.outputEnd e - Engine.outputStart e == 24 # 10)%Q.
Proof.
  assert (H1 : Engine.reconcile [Examples.saleResult] (20 # 1)
                                Examples.transcript
               = Engine.Ok (Engine.buildTimeline [Examples.saleResult] 0 0
                              (20 # 1) Examples.transcript,
                            Engine.reconcileSegments [Examples.saleResult] 0
                              Examples.transcript)) by reflexivity.
  assert (H2 : nth_error Examples.transcript 1
               = Some (Examples.segment "s1" (10 # 1) (12 # 1) "Monday sale"))
    by reflexivity.
  split; [exact H1|]. split; [exact H2|].
  destruct (@reconciled_spans_follow_shift_policy _ _ _ _ _ _ _ H1 H2)
    as [(e & Hin & Hspan & Hstart & Hk & Hdur) _].
  exists e. split; [exact Hin|]. split; [exact Hspan|]. split; [exact Hk|].
  split.
  - rewrite Hstart. reflexivity.
  - exact Hdur.
Defined.

Lemma reconciled_total_duration_witness :
  Engine.reconcile [Examples.saleResult] (20 # 1) Examples.transcript
  = Engine.Ok (Engine.buildTimeline [Examples.saleResult] 0 0 (20 # 1)
                                    Examples.transcript,
               Engine.reconcileSegments [Examples.saleResult] 0
                                        Examples.transcript)
  /\ (Engine.totalDuration
        (Engine.buildTimeline [Examples.saleResult] 0 0 (20 # 1)
                              Examples.transcript)
      == (20 # 1) + Engine.sumDeltas [Examples.saleResult] Examples.transcript)%Q
  /\ (Timeline.outputEndOf
        (Engine.buildTimeline [Examples.saleResult] 0 0 (20 # 1)
                              Examples.transcript)
      == (20 # 1) + Engine.sumDeltas [Examples.saleResult] Examples.transcript)%Q.
Proof.
  assert (H1 : Engine.reconcile [Examples.saleResult] (20 # 1)
                                Examples.transcript
               = Engine.Ok (Engine.buildTimeline [Examples.saleResult] 0 0
                              (20 # 1) Examples.transcript,
                            Engine.reconcileSegments [Examples.saleResult] 0
                              Examples.transcript)) by reflexivity.
  split; [exact H1|].
  exact (@reconciled_total_duration _ _ _ _ _ H1).
Defined.

Lemma reconciled_timeline_invariant_witness :
  Engine.reconcile [Examples.saleResult] (20 # 1) Examples.transcript
  = Engine.Ok (Engine.buildTimeline [Examples.saleResult] 0 0 (20 # 1)
                                    Examples.transcript,
               Engine.reconcileSegments [Examples.saleResult] 0
                                        Examples.transcript)
  /\ Timeline.contiguous
       (Engine.buildTimeline [Examples.saleResult] 0 0 (20 # 1)
                             Examples.transcript)
  /\ Timeline.startsAtZero
       (Engine.buildTimeline [Examples.saleResult] 0 0 (20 # 1)
                             Examples.transcript)
  /\ Timeline.sourceOrderedFrom 0
       (Engine.buildTimeline [Examples.saleResult] 0 0 (20 # 1)
                             Examples.transcript)
  /\ map Engine.sourceSpan
         (filter Timeline.isSynthesized
                 (Engine.buildTimeline [Examples.saleResult] 0 0 (20 # 1)
                                       Examples.transcript))
     = map Timeline.span
           (filter (Timeline.isEdited [Examples.saleResult])
                   Examples.transcript).
Proof.
  assert (H1 : Engine.reconcile [Examples.saleResult] (20 # 1)
                                Examples.transcript
               = Engine.Ok (Engine.buildTimeline [Examples.saleResult] 0 0
                              (20 # 1) Examples.transcript,
                            Engine.reconcileSegments [Examples.saleResult] 0
                              Examples.transcript)) by reflexivity.
  split; [exact H1|].
  exact (@reconciled_timeline_invariant _ _ _ _ _ H1).
Defined.

(** A batch whose synthesis fails, and a request the server refuses. *)
Lemma failed_application_keeps_success_replaces_witness :
  fst (Engine.applyEditsToMedia Examples.resolver Examples.synthFails
         Examples.splicer Examples.remuxer [Examples.saleEdit]
         Examples.storage)
  = Engine.Err Engine.SynthesisFailed
  /\ Swap.untouched
       Examples.storage
       (snd (Engine.applyEditsToMedia Examples.resolver Examples.synthFails
               Examples.splicer Examples.remuxer [Examples.saleEdit]
               Examples.storage))
  /\ Engine.readArtifact
       (snd (Engine.applyEditsToMedia Examples.resolver Examples.synthFails
               Examples.splicer Examples.remuxer [Examples.saleEdit]
               Examples.storage))
     = Engine.readArtifact Examples.storage
  /\ (forall project d,
         Some Examples.project1 = Some project ->
         ~ reportsSuccess Examples.serverFails (Project.id project)
             (changes (panel (Examples.world [Examples.editA] None))) d)
  /\ changes (panel (handleApplyChanges Examples.mediaUrl Examples.serverFails
                       Examples.getProjectOk (Some Examples.project1)
                       (Examples.world [Examples.editA] None)))
     = [Examples.editA]
  /\ store (handleApplyChanges Examples.mediaUrl Examples.serverFails
              Examples.getProjectOk (Some Examples.project1)
              (Examples.world [Examples.editA] None))
     = store (Examples.world [Examples.editA] None).
Proof.
  assert (H1 : fst (Engine.applyEditsToMedia Examples.resolver
                      Examples.synthFails Examples.splicer Examples.remuxer
                      [Examples.saleEdit] Examples.storage)
               = Engine.Err Engine.SynthesisFailed) by reflexivity.
  assert (H2 : forall project d,
             Some Examples.project1 = Some project ->
             ~ reportsSuccess Examples.serverFails (Project.id project)
                 (changes (panel (Examples.world [Examples.editA] None))) d).
  { intros project d _ (r & Hp & Hs & _).
    unfold Examples.serverFails in Hp. injection Hp as <-.
    simpl in Hs. discriminate Hs. }
  destruct (failed_application_keeps_success_replaces
              Examples.resolver Examples.synthFails Examples.splicer
              Examples.remuxer Examples.storage [Examples.saleEdit]
              Examples.mediaUrl Examples.serverFails Examples.getProjectOk
              (Some Examples.project1) (Examples.world [Examples.editA] None))
    as (E1 & _ & _ & _ & C2 & _).
  split; [exact H1|].
  split; [exact (proj1 (E1 _ H1))|]. split; [exact (proj2 (E1 _ H1))|].
  split; [exact H2|].
  exact (C2 H2).
Defined.

(** The same application when every component succeeds: the output is
    stored as artifact 1 beside the original media, artifact 0; transcript,
    duration and media reference are replaced; the answer of the Gateway is
    cached; and the panel empties its change list.  When the remuxer fails
    after a successful synthesis, only the cache has changed. *)
Example successful_application :
  Engine.applyEditsToMedia Examples.resolver Examples.synthOk
    Examples.splicer Examples.remuxer [Examples.saleEdit] Examples.storage
  = (Engine.Ok 1%nat,
     Engine.mkStorage
       (Engine.applyPlan [("s1"%string, JS.lit "Friday sale")]
          (Engine.reconcileSegments [Examples.saleResult] 0
                                    Examples.transcript))
       (Engine.totalDuration
          (Engine.buildTimeline [Examples.saleResult] 0 0 (20 # 1)
                                Examples.transcript))
       1%nat
       [7%nat; 5%nat]
       [("s1"%string, JS.lit "Friday sale", Examples.saleResult)])
  /\ Engine.applyEditsToMedia Examples.resolver Examples.synthOk
       Examples.splicer Examples.remuxFails [Examples.saleEdit]
       Examples.storage
     = (Engine.Err Engine.RemuxError,
        Engine.mkStorage Examples.transcript (20 # 1) 0%nat [7%nat]
          [("s1"%string, JS.lit "Friday sale", Examples.saleResult)])
  /\ changes (panel (handleApplyChanges Examples.mediaUrl Examples.serverOk
                       Examples.getProjectOk (Some Examples.project1)
                       (Examples.world [Examples.editA] None)))
     = [].
Proof. repeat split; reflexivity. Qed.

(* ===================================================================== *)
(** * Further properties of the code                                     *)
(* ===================================================================== *)

(* --------------------------------------------------------------------- *)
(** ** The segments of [applyChangesToText]                               *)
(* --------------------------------------------------------------------- *)

Section Segments.

Lemma changed_pushUnchanged (segs : list TextSegment.t) (u : jsstring) :
  filter TextSegment.isChanged (pushUnchanged segs u)
  = filter TextSegment.isChanged segs.
Proof.
  unfold pushUnchanged. destruct (JS.truthy u); [|reflexivity].
  rewrite filter_app. simpl. apply app_nil_r.
Qed.

Lemma changed_renderStep (st : RenderState) (c : TextChange.t) :
  filter TextSegment.isChanged (segments (renderStep st c))
  = filter TextSegment.isChanged (segments st)
      ++ [TextSegment.mk (TextChange.newText c) true (Some (TextChange.id c))].
Proof.
  unfold renderStep. cbn [segments]. rewrite filter_app. simpl. f_equal.
  destruct (currentIndex st <? _); [apply changed_pushUnchanged | reflexivity].
Qed.

Lemma changed_fold_renderStep (cs : list TextChange.t) :
  forall st,
    map shown (filter TextSegment.isChanged
                      (segments (fold_left renderStep cs st)))
    = map shown (filter TextSegment.isChanged (segments st))
        ++ map recorded cs.
Proof.
  induction cs as [|c rest IH]; intros st; simpl.
  - now rewrite app_nil_r.
  - rewrite IH, changed_renderStep, map_app, <- app_assoc. reflexivity.
Qed.

Lemma unchangedNonEmpty_push (segs : list TextSegment.t) (u : jsstring) :
  unchangedNonEmpty segs -> unchangedNonEmpty (pushUnchanged segs u).
Proof.
  intros H. unfold pushUnchanged. destruct u as [|a u]; simpl; [exact H|].
  intros s Hs Hc. apply in_app_or in Hs. destruct Hs as [Hs|[<-|[]]].
  - now apply H.
  - simpl. discriminate.
Qed.

Lemma unchangedNonEmpty_renderStep (st : RenderState) (c : TextChange.t) :
  unchangedNonEmpty (segments st) ->
  unchangedNonEmpty (segments (renderStep st c)).
Proof.
  intros H. unfold renderStep. cbn [segments].
  intros s Hs Hc. apply in_app_or in Hs. destruct Hs as [Hs|[<-|[]]].
  - destruct (currentIndex st <? _).
    + eapply unchangedNonEmpty_push; eassumption.
    + now apply H.
  - simpl in Hc. discriminate.
Qed.

Lemma unchangedNonEmpty_fold (cs : list TextChange.t) :
  forall st, unchangedNonEmpty (segments st) ->
             unchangedNonEmpty (segments (fold_left renderStep cs st)).
Proof.
  induction cs as [|c rest IH]; intros st H; simpl; [exact H|].
  apply IH. now apply unchangedNonEmpty_renderStep.
Qed.

End Segments.

(** The changed segments [applyChangesToText] returns are the given
    changes, one segment for each, in the order of their start indices
    (recording order among equal ones), each with the new text and the id
    of its change; this holds for every change list, overlapping or not. *)
Theorem applyChangesToText_changed_segments
        (originalText : jsstring) (cs : list TextChange.t) :
  map shown (filter TextSegment.isChanged (applyChangesToText originalText cs))
  = map recorded (sortChanges cs).
Proof.
  unfold applyChangesToText.
  destruct cs as [|c rest]; [reflexivity|].
  cbn [List.length Nat.eqb].
  set (st := fold_left renderStep (sortChanges (c :: rest)) _).
  assert (H : map shown (filter TextSegment.isChanged (segments st))
              = map recorded (sortChanges (c :: rest)))
    by (subst st; now rewrite changed_fold_renderStep).
  destruct (currentIndex st <? _); [|exact H].
  now rewrite changed_pushUnchanged.
Qed.

(** When there is a change, or some text, no unchanged segment of
    [applyChangesToText] is empty: empty pieces between edits are not
    pushed. *)
Theorem applyChangesToText_no_empty_unchanged
        (originalText : jsstring) (cs : list TextChange.t) (s : TextSegment.t) :
  cs <> [] \/ originalText <> [] ->
  In s (applyChangesToText originalText cs) ->
  TextSegment.isChanged s = false ->
  TextSegment.text s <> [].
Proof.
  intros Hne Hin Hc. unfold applyChangesToText in Hin.
  destruct cs as [|c rest].
  - simpl in Hin. destruct Hin as [<-|[]]. simpl.
    destruct Hne as [Hne|Hne]; [now elim Hne | exact Hne].
  - cbn [List.length Nat.eqb] in Hin.
    set (st := fold_left renderStep (sortChanges (c :: rest)) _) in Hin.
    assert (H : unchangedNonEmpty (segments st)).
    { subst st. apply unchangedNonEmpty_fold. intros x []. }
    destruct (currentIndex st <? _).
    + eapply unchangedNonEmpty_push; eassumption.
    + now apply H.
Qed.

(* --------------------------------------------------------------------- *)
(** ** Length and content of the text after a batch                      *)
(* --------------------------------------------------------------------- *)

Section SplicedText.

Variable txt : jsstring.

Lemma totalLengthChange_perm (l l' : list TextChange.t) :
  Permutation l l' -> totalLengthChange l = totalLengthChange l'.
Proof.
  induction 1; simpl; lia.
Qed.

Lemma substring_middle_length (i j : Z) :
  0 <= i <= j -> j <= JS.length txt ->
  JS.length (JS.substring txt i j) = j - i.
Proof.
  intros Hij Hj. rewrite substring_middle by assumption.
  unfold JS.length in *. rewrite length_firstn, length_skipn. lia.
Qed.

Lemma spliced_length (cs : list TextChange.t) :
  forall from,
    chained from cs -> inRange (JS.length txt) cs ->
    0 <= from <= JS.length txt ->
    JS.length (spliced txt from cs)
    = JS.length txt - from + totalLengthChange cs.
Proof.
  induction cs as [|c rest IH]; intros from Hch Hin Hfrom.
  - simpl. rewrite substringFrom_suffix. unfold JS.length in *.
    rewrite length_skipn. lia.
  - destruct Hch as (Hlo & Hse & Hrest).
    inversion Hin as [|? ? Hc Hin']; subst.
    simpl spliced. simpl totalLengthChange.
    assert (H1 := @substring_middle_length from (TextChange.startIndex c)
                    (conj (proj1 Hfrom) Hlo) ltac:(lia)).
    assert (H2 := IH (TextChange.endIndex c) Hrest Hin' ltac:(lia)).
    unfold lengthChange. unfold JS.length in *.
    rewrite !length_app. lia.
Qed.

Lemma spliced_keepsText (cs : list TextChange.t) :
  forall from,
    chained from cs -> inRange (JS.length txt) cs ->
    0 <= from <= JS.length txt ->
    Forall (keepsText txt) cs ->
    spliced txt from cs = skipn (Z.to_nat from) txt.
Proof.
  induction cs as [|c rest IH]; intros from Hch Hin Hfrom Hkeep.
  - simpl. apply substringFrom_suffix.
  - destruct Hch as (Hlo & Hse & Hrest).
    inversion Hin as [|? ? Hc Hin']; subst.
    inversion Hkeep as [|? ? Hk Hkeep']; subst.
    simpl spliced. rewrite Hk.
    rewrite (IH (TextChange.endIndex c)) by (try assumption; lia).
    rewrite !substring_middle by lia.
    set (a := Z.to_nat from). set (b := Z.to_nat (TextChange.startIndex c)).
    set (d := Z.to_nat (TextChange.endIndex c)).
    assert (Hab : (a <= b)%nat) by (subst a b; lia).
    assert (Hbd : (b <= d)%nat) by (subst b d; lia).
    replace (skipn b txt) with (skipn (b - a) (skipn a txt))
      by (rewrite skipn_skipn; f_equal; lia).
    replace (skipn d txt) with (skipn (d - b) (skipn (b - a) (skipn a txt)))
      by (rewrite !skipn_skipn; f_equal; lia).
    rewrite (firstn_skipn (d - b)). apply firstn_skipn.
Qed.

End SplicedText.

(** The text of a batch that is in range and free of overlap, as a splice
    of the original text. *)
Lemma current_text_spliced (changes : list TextChange.t) (t : TranscriptItem.t) :
  nonOverlapping changes t ->
  inRange (JS.length (TranscriptItem.text t)) (changesOf changes t) ->
  getCurrentText changes t
  = spliced (TranscriptItem.text t) 0 (sortChanges (changesOf changes t)).
Proof.
  intros Hch Hin. rewrite getCurrentText_runBatch. unfold runBatch.
  assert (Hin' : Forall (fun c => TextChange.endIndex c
                                  <= JS.length (TranscriptItem.text t))
                        (sortChanges (changesOf changes t))).
  { unfold inRange in Hin. rewrite Forall_forall in Hin |- *.
    intros c Hc. apply Hin. now apply (proj1 (sortChanges_In _ _)). }
  assert (H := @fold_applyStep_spliced (TranscriptItem.text t) _ 0 0 []
                 Hch Hin').
  simpl in H. apply H; [unfold JS.length; lia | reflexivity].
Qed.

Lemma inRange_sorted (len : Z) (cs : list TextChange.t) :
  inRange len cs -> inRange len (sortChanges cs).
Proof.
  unfold inRange. rewrite !Forall_forall. intros H c Hc.
  apply H. now apply (proj1 (sortChanges_In _ _)).
Qed.

(** For edits of an item that are in range and free of overlap, the text
    [getCurrentText] returns is as long as the original text plus the sum of
    the length changes ([newText.length - (endIndex - startIndex)]) of the
    item's edits. *)
Theorem getCurrentText_length
        (changes : list TextChange.t) (t : TranscriptItem.t) :
  nonOverlapping changes t ->
  inRange (JS.length (TranscriptItem.text t)) (changesOf changes t) ->
  JS.length (getCurrentText changes t)
  = JS.length (TranscriptItem.text t)
    + totalLengthChange (changesOf changes t).
Proof.
  intros Hch Hin.
  rewrite (current_text_spliced _ _ Hch Hin).
  rewrite spliced_length.
  - rewrite (totalLengthChange_perm (sortChanges_perm (changesOf changes t))).
    lia.
  - exact Hch.
  - now apply inRange_sorted.
  - unfold JS.length. lia.
Qed.

(** Edits that put back the text they replace change nothing: when the
    item's edits are in range and free of overlap and each has as its new
    text the original text of its range, [getCurrentText] returns the
    original text. *)
Theorem getCurrentText_edits_that_keep_text
        (changes : list TextChange.t) (t : TranscriptItem.t) :
  nonOverlapping changes t ->
  inRange (JS.length (TranscriptItem.text t)) (changesOf changes t) ->
  Forall (keepsText (TranscriptItem.text t)) (changesOf changes t) ->
  getCurrentText changes t = TranscriptItem.text t.
Proof.
  intros Hch Hin Hkeep.
  rewrite (current_text_spliced _ _ Hch Hin).
  rewrite spliced_keepsText.
  - reflexivity.
  - exact Hch.
  - now apply inRange_sorted.
  - unfold JS.length. lia.
  - rewrite Forall_forall in Hkeep |- *. intros c Hc.
    apply Hkeep. now apply (proj1 (sortChanges_In _ _)).
Qed.

(* --------------------------------------------------------------------- *)
(** ** Selecting text: [indexOf] and [handleTextSelection]               *)
(* --------------------------------------------------------------------- *)

Section Selection.

Lemma startsWith_firstn (sub : jsstring) :
  forall s, startsWith s sub = true <-> firstn (List.length sub) s = sub.
Proof.
  induction sub as [|b sub IH]; intros s; simpl.
  - destruct s; simpl; split; reflexivity.
  - destruct s as [|a s]; simpl.
    + split; discriminate.
    + rewrite andb_true_iff, Ascii.eqb_eq, IH. split.
      * intros [-> ->]. reflexivity.
      * intros H. injection H as -> H. auto.
Qed.

Lemma indexOfFrom_eq (i : Z) (s sub : jsstring) :
  indexOfFrom i s sub
  = if startsWith s sub then i
    else match s with
         | [] => -1
         | _ :: s' => indexOfFrom (i + 1) s' sub
         end.
Proof. destruct s; reflexivity. Qed.

(** The result of the search: [-1] with no occurrence at all, or the
    position of the first occurrence. *)
Lemma indexOfFrom_spec (sub : jsstring) :
  forall (s : jsstring) (i : Z),
    (indexOfFrom i s sub = -1
     /\ forall k, (k <= List.length s)%nat -> startsWith (skipn k s) sub = false)
    \/ (exists k, (k <= List.length s)%nat
                  /\ indexOfFrom i s sub = i + Z.of_nat k
                  /\ startsWith (skipn k s) sub = true
                  /\ forall k', (k' < k)%nat ->
                                startsWith (skipn k' s) sub = false).
Proof.
  assert (Hzero : forall s i, startsWith s sub = true ->
            exists k, (k <= List.length s)%nat
                      /\ i = i + Z.of_nat k
                      /\ startsWith (skipn k s) sub = true
                      /\ forall k', (k' < k)%nat ->
                                    startsWith (skipn k' s) sub = false).
  { intros s i Hs. exists 0%nat. split; [lia|]. split; [simpl; lia|].
    split; [exact Hs|]. intros k' Hk'. lia. }
  induction s as [|a s IH]; intros i; rewrite indexOfFrom_eq.
  - destruct (startsWith [] sub) eqn:Hs.
    + right. now apply Hzero.
    + left. split; [reflexivity|]. intros k Hk. simpl in Hk.
      replace k with 0%nat by lia. exact Hs.
  - destruct (startsWith (a :: s) sub) eqn:Hs.
    + right. now apply Hzero.
    + destruct (IH (i + 1)) as [[Hnone Hall]|(k & Hk & Hj & Hfound & Hfirst)].
      * left. split; [exact Hnone|]. intros k Hk.
        destruct k as [|k]; [exact Hs|]. apply Hall. simpl in Hk. lia.
      * right. exists (S k). split; [simpl; lia|]. split; [rewrite Hj; lia|].
        split; [exact Hfound|].
        intros k' Hk'. destruct k' as [|k']; [exact Hs|].
        apply Hfirst. lia.
Qed.

Lemma substring_window (s : jsstring) (k n : nat) :
  JS.substring s (Z.of_nat k) (Z.of_nat k + Z.of_nat n)
  = firstn n (skipn k s).
Proof.
  rewrite substring_middle by lia. f_equal; [lia | f_equal; lia].
Qed.

Lemma isBlank_nonempty (sel : jsstring) : isBlank sel = false -> sel <> [].
Proof. intros H ->. discriminate H. Qed.

(** [indexOf] in terms of [substring]. *)
Lemma indexOf_spec (s sel : jsstring) :
  sel <> [] ->
  (indexOf s sel = -1
   /\ forall k, 0 <= k -> JS.substring s k (k + JS.length sel) <> sel)
  \/ (0 <= indexOf s sel
      /\ indexOf s sel + JS.length sel <= JS.length s
      /\ JS.substring s (indexOf s sel) (indexOf s sel + JS.length sel) = sel
      /\ forall k, 0 <= k < indexOf s sel ->
                   JS.substring s k (k + JS.length sel) <> sel).
Proof.
  intros Hne. unfold indexOf, JS.length.
  destruct (indexOfFrom_spec sel s 0)
    as [[Hnone Hall]|(k & Hk & Hj & Hfound & Hfirst)].
  - left. split; [exact Hnone|]. intros k Hk Heq.
    rewrite <- (Z2Nat.id k) in Heq by assumption.
    rewrite substring_window in Heq.
    destruct (Nat.le_gt_cases (Z.to_nat k) (List.length s)) as [Hin|Hout].
    + apply startsWith_firstn in Heq. rewrite (Hall _ Hin) in Heq. discriminate.
    + rewrite skipn_all2, firstn_nil in Heq by lia. now apply Hne.
  - right. rewrite Hj. apply startsWith_firstn in Hfound.
    assert (Hlen : (List.length sel <= List.length s - k)%nat).
    { rewrite <- Hfound at 1. rewrite length_firstn, length_skipn. lia. }
    repeat split; try lia.
    + simpl. now rewrite substring_window.
    + intros k' Hk' Heq.
      rewrite <- (Z2Nat.id k') in Heq by lia.
      rewrite substring_window in Heq.
      apply startsWith_firstn in Heq.
      rewrite Hfirst in Heq by lia. discriminate.
Qed.

(** What the three steps of an edit leave in the change list. *)
Lemma selectTypeSave_records
      (transcripts : list TranscriptItem.t) (transcriptId : string)
      (sel new : jsstring) (rect : Rect) (now nowTime : string)
      (st : PanelState) (t : TranscriptItem.t) :
  find (fun x => String.eqb (TranscriptItem.id x) transcriptId) transcripts
  = Some t ->
  isBlank sel = false ->
  selectTypeSave transcripts transcriptId sel new rect now nowTime st
  = Some (mkPanel
            (changes st
               ++ [editOf t sel new
                     (indexOf (getCurrentText (changes st) t) sel)
                     now nowTime])
            None (activeTab st) (isApplyingChanges st)).
Proof.
  intros Hf Hb. unfold selectTypeSave, handleTextSelection.
  rewrite Hb, Hf. unfold onNewTextChange, handleSaveEdit. simpl.
  rewrite Hf. unfold editOf.
  apply find_some in Hf. destruct Hf as [_ Hid].
  apply String.eqb_eq in Hid. now rewrite Hid.
Qed.

Lemma changesOf_app (l l' : list TextChange.t) (t : TranscriptItem.t) :
  changesOf (l ++ l') t = changesOf l t ++ changesOf l' t.
Proof. unfold changesOf. apply filter_app. Qed.

Lemma changesOf_editOf (t : TranscriptItem.t) (sel new : jsstring) (i : Z)
      (now nowTime : string) :
  changesOf [editOf t sel new i now nowTime] t
  = [editOf t sel new i now nowTime].
Proof.
  unfold changesOf. simpl. now rewrite String.eqb_refl.
Qed.

Lemma getCurrentText_changesOf (cs cs' : list TextChange.t) (t : TranscriptItem.t) :
  changesOf cs t = changesOf cs' t ->
  getCurrentText cs t = getCurrentText cs' t.
Proof.
  intros H. rewrite !getCurrentText_runBatch. now rewrite H.
Qed.

End Selection.

(** For a non-blank selection in a listed transcript, [handleTextSelection]
    opens the tooltip with the selection as old and new text and a range as
    long as the selection.  When the selection occurs in the text the panel
    shows for the item, the range is that of its first occurrence there: in
    bounds, spelling the selection, with no occurrence before it.  When it
    does not occur, the start index is [-1]. *)
Theorem handleTextSelection_range
        (transcripts : list TranscriptItem.t) (transcriptId : string)
        (sel : jsstring) (rect : Rect) (st : PanelState)
        (t : TranscriptItem.t) :
  find (fun x => String.eqb (TranscriptItem.id x) transcriptId) transcripts
  = Some t ->
  isBlank sel = false ->
  exists es,
    handleTextSelection transcripts transcriptId (Some sel) rect st
    = Some (withEditing es st)
    /\ EditingState.transcriptId es = transcriptId
    /\ EditingState.selectedText es = sel
    /\ EditingState.newText es = sel
    /\ EditingState.endIndex es = EditingState.startIndex es + JS.length sel
    /\ let current := getCurrentText (changes st) t in
       (0 <= EditingState.startIndex es
        /\ EditingState.endIndex es <= JS.length current
        /\ JS.substring current (EditingState.startIndex es)
                        (EditingState.endIndex es) = sel
        /\ forall k, 0 <= k < EditingState.startIndex es ->
                     JS.substring current k (k + JS.length sel) <> sel)
       \/ (EditingState.startIndex es = -1
           /\ forall k, 0 <= k ->
                        JS.substring current k (k + JS.length sel) <> sel).
Proof.
  intros Hf Hb. unfold handleTextSelection. rewrite Hb, Hf.
  eexists. split; [reflexivity|]. simpl. repeat split.
  destruct (indexOf_spec (getCurrentText (changes st) t)
                         (@isBlank_nonempty sel Hb)) as [H|H]; [right|left]; exact H.
Qed.

Section EditFlow.

Lemma getCurrentText_untouched (cs : list TextChange.t) (t : TranscriptItem.t) :
  changesOf cs t = [] -> getCurrentText cs t = TranscriptItem.text t.
Proof.
  intros H. unfold getCurrentText. now rewrite H.
Qed.

Lemma getCurrentText_one (cs : list TextChange.t) (t : TranscriptItem.t)
      (c : TextChange.t) :
  changesOf cs t = [c] ->
  getCurrentText cs t
  = fst (applyStep (TranscriptItem.text t, 0) c).
Proof.
  intros H. unfold getCurrentText. now rewrite H.
Qed.

Lemma text_around (s : jsstring) (i n : Z) :
  0 <= i -> 0 <= n ->
  JS.substring s 0 i ++ JS.substring s i (i + n) ++ JS.substringFrom s (i + n)
  = s.
Proof.
  intros Hi Hn. rewrite substring_prefix, substringFrom_suffix.
  rewrite app_assoc, prefix_then_middle by lia. apply firstn_skipn.
Qed.

End EditFlow.

(** The first edit of an item through the user interface replaces the first
    occurrence of the selection: when no change is recorded for the item and
    the non-blank selection occurs in its text, selecting it, typing a new
    text and saving makes [getCurrentText] return the item's text with the
    first occurrence of the selection replaced by the new text. *)
Theorem first_edit_replaces_first_occurrence
        (transcripts : list TranscriptItem.t) (transcriptId : string)
        (sel new : jsstring) (rect : Rect) (now nowTime : string)
        (st : PanelState) (t : TranscriptItem.t) :
  find (fun x => String.eqb (TranscriptItem.id x) transcriptId) transcripts
  = Some t ->
  isBlank sel = false ->
  changesOf (changes st) t = [] ->
  0 <= indexOf (TranscriptItem.text t) sel ->
  exists st',
    selectTypeSave transcripts transcriptId sel new rect now nowTime st
    = Some st'
    /\ let i := indexOf (TranscriptItem.text t) sel in
       TranscriptItem.text t
       = JS.substring (TranscriptItem.text t) 0 i
           ++ sel
           ++ JS.substringFrom (TranscriptItem.text t) (i + JS.length sel)
       /\ getCurrentText (changes st') t
          = JS.substring (TranscriptItem.text t) 0 i
              ++ new
              ++ JS.substringFrom (TranscriptItem.text t) (i + JS.length sel)
       /\ forall k, 0 <= k < i ->
                    JS.substring (TranscriptItem.text t) k (k + JS.length sel)
                    <> sel.
Proof.
  intros Hf Hb Hnone Hfound.
  rewrite (@selectTypeSave_records transcripts transcriptId sel new rect now nowTime st t Hf Hb).
  eexists. split; [reflexivity|]. cbn [changes].
  rewrite (getCurrentText_untouched _ _ Hnone).
  destruct (indexOf_spec (TranscriptItem.text t) (@isBlank_nonempty sel Hb))
    as [[Hneg _]|(Hpos & Hend & Hspell & Hfirst)]; [lia|].
  cbv zeta. split; [|split].
  - rewrite <- Hspell at 2.
    symmetry. apply text_around; [assumption | unfold JS.length; lia].
  - rewrite (@getCurrentText_changesOf _
               [editOf t sel new (indexOf (TranscriptItem.text t) sel)
                       now nowTime] t).
    + rewrite getCurrentText_single by reflexivity. reflexivity.
    + now rewrite changesOf_app, Hnone, changesOf_editOf.
  - exact Hfirst.
Qed.

(** An edit selected at or after the start of the one recorded change of the
    item is applied away from the selection: the range found in the shown
    text is moved once more by the length change of the recorded edit, so
    the new text replaces the shown text from [i + d] to [i + n + d], where
    [i] is the index of the selection, [n] its length and [d] that length
    change. *)
Theorem edit_after_recorded_change_is_shifted
        (transcripts : list TranscriptItem.t) (transcriptId : string)
        (sel new : jsstring) (rect : Rect) (now nowTime : string)
        (st : PanelState) (t : TranscriptItem.t) (c : TextChange.t) :
  find (fun x => String.eqb (TranscriptItem.id x) transcriptId) transcripts
  = Some t ->
  isBlank sel = false ->
  changesOf (changes st) t = [c] ->
  TextChange.startIndex c <= indexOf (getCurrentText (changes st) t) sel ->
  exists st',
    selectTypeSave transcripts transcriptId sel new rect now nowTime st
    = Some st'
    /\ let current := getCurrentText (changes st) t in
       let i := indexOf current sel in
       getCurrentText (changes st') t
       = JS.substring current 0 (i + lengthChange c)
           ++ new
           ++ JS.substringFrom current (i + JS.length sel + lengthChange c).
Proof.
  intros Hf Hb Hone Hle.
  rewrite (@selectTypeSave_records transcripts transcriptId sel new rect now nowTime st t Hf Hb).
  eexists. split; [reflexivity|]. cbn [changes]. cbv zeta.
  set (i := indexOf (getCurrentText (changes st) t) sel) in *.
  rewrite getCurrentText_runBatch, changesOf_app, Hone, changesOf_editOf.
  unfold runBatch. simpl sortChanges.
  destruct (Z.ltb_spec 0 (TextChange.startIndex c - i)) as [Hlt|_]; [lia|].
  rewrite (getCurrentText_one _ _ Hone).
  simpl. unfold lengthChange. reflexivity.
Qed.

(** An edit selected wholly before the one recorded change of the item
    lands on the selection: when the recorded change is in range and the
    selection ends at or before its start, the new text replaces exactly the
    selected range of the shown text. *)
Theorem edit_before_recorded_change_is_in_place
        (transcripts : list TranscriptItem.t) (transcriptId : string)
        (sel new : jsstring) (rect : Rect) (now nowTime : string)
        (st : PanelState) (t : TranscriptItem.t) (c : TextChange.t) :
  find (fun x => String.eqb (TranscriptItem.id x) transcriptId) transcripts
  = Some t ->
  isBlank sel = false ->
  changesOf (changes st) t = [c] ->
  0 <= TextChange.startIndex c <= TextChange.endIndex c ->
  TextChange.endIndex c <= JS.length (TranscriptItem.text t) ->
  0 <= indexOf (getCurrentText (changes st) t) sel ->
  indexOf (getCurrentText (changes st) t) sel + JS.length sel
  <= TextChange.startIndex c ->
  exists st',
    selectTypeSave transcripts transcriptId sel new rect now nowTime st
    = Some st'
    /\ let current := getCurrentText (changes st) t in
       let i := indexOf current sel in
       getCurrentText (changes st') t
       = JS.substring current 0 i
           ++ new
           ++ JS.substringFrom current (i + JS.length sel).
Proof.
  intros Hf Hb Hone Hc Hcend Hi Hleft.
  rewrite (@selectTypeSave_records transcripts transcriptId sel new rect now nowTime st t Hf Hb).
  eexists. split; [reflexivity|]. cbn [changes]. cbv zeta.
  set (i := indexOf (getCurrentText (changes st) t) sel) in *.
  assert (Hn : 0 < JS.length sel).
  { pose proof (@isBlank_nonempty sel Hb) as Hne. unfold JS.length.
    destruct sel; [now elim Hne | simpl; lia]. }
  rewrite getCurrentText_runBatch, changesOf_app, Hone, changesOf_editOf.
  unfold runBatch. simpl sortChanges.
  destruct (Z.ltb_spec 0 (TextChange.startIndex c - i)) as [_|Hge]; [|lia].
  set (e := editOf t sel new i now nowTime).
  set (T := TranscriptItem.text t) in *.
  assert (Hsp := @fold_applyStep_spliced T [e; c] 0 0 []).
  simpl app in Hsp. etransitivity; [apply Hsp|]; clear Hsp.
  - simpl. subst e. simpl. lia.
  - repeat constructor; subst e; simpl; unfold JS.length in *; lia.
  - unfold JS.length. lia.
  - reflexivity.
  - rewrite (getCurrentText_one _ _ Hone). fold T. simpl. rewrite !Z.add_0_r.
    rewrite !substring_prefix, !substringFrom_suffix.
    rewrite (substring_middle T) by lia.
    unfold JS.length in *.
    set (a := Z.to_nat i). set (b := Z.to_nat (i + Z.of_nat (List.length sel))).
    set (s := Z.to_nat (TextChange.startIndex c)).
    assert (Hab : (a <= b)%nat) by (subst a b; lia).
    assert (Hbs : (b <= s)%nat) by (subst b s; lia).
    assert (Hs : (s <= List.length T)%nat) by (subst s; lia).
    rewrite firstn_app, firstn_firstn, length_firstn.
    replace (Nat.min a s) with a by lia.
    replace (a - Nat.min s (List.length T))%nat with 0%nat by lia.
    rewrite firstn_O, app_nil_r.
    rewrite skipn_app, length_firstn.
    replace (b - Nat.min s (List.length T))%nat with 0%nat by lia.
    rewrite skipn_O, skipn_firstn_comm. reflexivity.
Qed.

(* --------------------------------------------------------------------- *)
(** ** The change list: saving, deleting, clearing                       *)
(* --------------------------------------------------------------------- *)

Section ChangeList.

Lemma filter_fresh (changeId : string) (cs : list TextChange.t) :
  (forall c, In c cs -> TextChange.id c <> changeId) ->
  filter (fun change => negb (String.eqb (TextChange.id change) changeId)) cs
  = cs.
Proof.
  induction cs as [|c cs IH]; intros H; simpl; [reflexivity|].
  rewrite (proj2 (String.eqb_neq _ _) (H c (or_introl eq_refl))). simpl.
  f_equal. apply IH. intros d Hd. apply H. now right.
Qed.

Lemma changes_handleDeleteChange (changeId : string) (w : World) :
  changes (panel (handleDeleteChange changeId w))
  = filter (fun change => negb (String.eqb (TextChange.id change) changeId))
           (changes (panel w)).
Proof. reflexivity. Qed.

Lemma changesOf_filter_others (changeId : string) (cs : list TextChange.t)
      (t : TranscriptItem.t) :
  (forall c, In c cs -> TextChange.id c = changeId ->
             TextChange.transcriptId c <> TranscriptItem.id t) ->
  changesOf
    (filter (fun change => negb (String.eqb (TextChange.id change) changeId)) cs)
    t
  = changesOf cs t.
Proof.
  unfold changesOf. induction cs as [|c cs IH]; intros H; simpl; [reflexivity|].
  assert (IH' := IH (fun d Hd => H d (or_intror Hd))).
  destruct (String.eqb_spec (TextChange.id c) changeId) as [Heq|Hne]; simpl.
  - rewrite IH'.
    now rewrite (proj2 (String.eqb_neq _ _) (H c (or_introl eq_refl) Heq)).
  - now rewrite IH'.
Qed.

Lemma changes_handleSaveEdit_other (transcripts : list TranscriptItem.t)
      (now nowTime : string) (st : PanelState) (t : TranscriptItem.t) :
  (forall es, editingState st = Some es ->
              EditingState.transcriptId es <> TranscriptItem.id t) ->
  changesOf (changes (handleSaveEdit transcripts now nowTime st)) t
  = changesOf (changes st) t.
Proof.
  intros H. unfold handleSaveEdit.
  destruct (editingState st) as [es|]; [|reflexivity].
  destruct (find _ transcripts); [|reflexivity].
  cbn [changes]. rewrite changesOf_app. unfold changesOf at 2. simpl.
  rewrite (proj2 (String.eqb_neq _ _) (H es eq_refl)).
  apply app_nil_r.
Qed.

Lemma handleSaveEdit_withEditing (transcripts : list TranscriptItem.t)
      (now nowTime : string) (st : PanelState) (es : EditingState.t)
      (t : TranscriptItem.t) :
  find (fun x => String.eqb (TranscriptItem.id x) (EditingState.transcriptId es))
       transcripts = Some t ->
  handleSaveEdit transcripts now nowTime (withEditing es st)
  = mkPanel (changes st
               ++ [TextChange.mk now (EditingState.transcriptId es)
                     (TranscriptItem.timestamp t)
                     (EditingState.selectedText es) (EditingState.newText es)
                     (EditingState.startIndex es) (EditingState.endIndex es)
                     nowTime])
            None (activeTab st) (isApplyingChanges st).
Proof.
  intros Hf. unfold handleSaveEdit, withEditing. cbn [editingState].
  now rewrite Hf.
Qed.

End ChangeList.

(** Saving an edit and deleting it again restores the change list: when the
    tooltip is open on a listed transcript and no recorded change has the id
    the new change gets, [handleDeleteChange] of that id after
    [handleSaveEdit] leaves the change list as it was before the save. *)
Theorem delete_undoes_save
        (transcripts : list TranscriptItem.t) (now nowTime : string)
        (w : World) (es : EditingState.t) (t : TranscriptItem.t) :
  editingState (panel w) = Some es ->
  find (fun x => String.eqb (TranscriptItem.id x) (EditingState.transcriptId es))
       transcripts = Some t ->
  (forall c, In c (changes (panel w)) -> TextChange.id c <> now) ->
  changes (panel (handleDeleteChange now
                    (onPanel (handleSaveEdit transcripts now nowTime) w)))
  = changes (panel w).
Proof.
  intros He Hf Hfresh. rewrite changes_handleDeleteChange.
  unfold onPanel. cbn [panel].
  rewrite (handleSaveEdit_appends _ _ _ _ He Hf). cbn [changes].
  rewrite filter_app, (filter_fresh _ Hfresh). simpl.
  rewrite String.eqb_refl. simpl. apply app_nil_r.
Qed.

(** Changes saved at the same clock reading share their id and are deleted
    together: after two saves with the same [Date.now()] string, on listed
    transcripts, one [handleDeleteChange] of that id removes both changes. *)
Theorem delete_removes_all_changes_of_an_id
        (transcripts : list TranscriptItem.t) (now nowTime nowTime' : string)
        (w : World) (es es' : EditingState.t) (t t' : TranscriptItem.t) :
  editingState (panel w) = Some es ->
  find (fun x => String.eqb (TranscriptItem.id x) (EditingState.transcriptId es))
       transcripts = Some t ->
  find (fun x => String.eqb (TranscriptItem.id x) (EditingState.transcriptId es'))
       transcripts = Some t' ->
  (forall c, In c (changes (panel w)) -> TextChange.id c <> now) ->
  let w1 := onPanel (handleSaveEdit transcripts now nowTime) w in
  let w2 := onPanel (fun st => handleSaveEdit transcripts now nowTime'
                                 (withEditing es' st)) w1 in
  List.length (changes (panel w2)) = S (S (List.length (changes (panel w))))
  /\ changes (panel (handleDeleteChange now w2)) = changes (panel w).
Proof.
  intros He Hf Hf' Hfresh w1 w2. subst w1 w2.
  unfold onPanel. cbn [panel].
  rewrite (handleSaveEdit_appends _ _ _ _ He Hf).
  rewrite (@handleSaveEdit_withEditing transcripts now nowTime' _ es' t' Hf').
  cbn [changes]. split.
  - rewrite !length_app. simpl. lia.
  - rewrite changes_handleDeleteChange. cbn [panel changes].
    rewrite !filter_app, (filter_fresh _ Hfresh). simpl.
    rewrite String.eqb_refl. simpl. now rewrite !app_nil_r.
Qed.

(** Saving an edit of one transcript leaves the text of every other item as
    it was: when the tooltip, if open, is on another transcript id,
    [getCurrentText] of the item is the same before and after
    [handleSaveEdit]. *)
Theorem save_leaves_other_items
        (transcripts : list TranscriptItem.t) (now nowTime : string)
        (st : PanelState) (t : TranscriptItem.t) :
  (forall es, editingState st = Some es ->
              EditingState.transcriptId es <> TranscriptItem.id t) ->
  getCurrentText (changes (handleSaveEdit transcripts now nowTime st)) t
  = getCurrentText (changes st) t.
Proof.
  intros H. apply getCurrentText_changesOf.
  now apply changes_handleSaveEdit_other.
Qed.

(** Deleting a change leaves the text of the items it does not target as it
    was: when no recorded change with the deleted id targets the item,
    [getCurrentText] of the item is the same before and after
    [handleDeleteChange]. *)
Theorem delete_leaves_other_items
        (changeId : string) (w : World) (t : TranscriptItem.t) :
  (forall c, In c (changes (panel w)) -> TextChange.id c = changeId ->
             TextChange.transcriptId c <> TranscriptItem.id t) ->
  getCurrentText (changes (panel (handleDeleteChange changeId w))) t
  = getCurrentText (changes (panel w)) t.
Proof.
  intros H. apply getCurrentText_changesOf.
  rewrite changes_handleDeleteChange. now apply changesOf_filter_others.
Qed.

(* --------------------------------------------------------------------- *)
(** ** The project store                                                 *)
(* --------------------------------------------------------------------- *)

Section Store.

Import ProjectStore ProjectStoreActions.

Lemma ids_replace (project : Project.t) (ps : list Project.t) :
  map Project.id
      (map (fun p => if String.eqb (Project.id p) (Project.id project)
                     then project else p) ps)
  = map Project.id ps.
Proof.
  induction ps as [|p ps IH]; simpl; [reflexivity|]. rewrite IH. f_equal.
  destruct (String.eqb_spec (Project.id p) (Project.id project)) as [E|_];
    [now rewrite E | reflexivity].
Qed.

Lemma replace_absent (project : Project.t) (ps : list Project.t) :
  (forall p, In p ps -> Project.id p <> Project.id project) ->
  map (fun p => if String.eqb (Project.id p) (Project.id project)
                then project else p) ps
  = ps.
Proof.
  induction ps as [|p ps IH]; intros H; simpl; [reflexivity|].
  rewrite (proj2 (String.eqb_neq _ _) (H p (or_introl eq_refl))).
  f_equal. apply IH. intros q Hq. apply H. now right.
Qed.

Lemma projects_refreshCurrentProject
      (getProject : string -> Outcome (ApiResponse.t Project.t))
      (state : ProjectState) :
  projects (refreshCurrentProject getProject state) = projects state.
Proof.
  unfold refreshCurrentProject.
  destruct (getProject _) as [r|[m|]]; [|reflexivity|reflexivity].
  destruct (ApiResponse.success r), (ApiResponse.data r); reflexivity.
Qed.

End Store.

(** [setUpdatedProject] neither adds nor removes nor reorders projects: the
    ids of the project list and the id of the current project are the same
    before and after; afterwards every project of the list, and the current
    project, that has the id of the given project is the given project. *)
Theorem setUpdatedProject_keeps_ids
        (project : Project.t) (state : ProjectStore.ProjectState) :
  let state' := ProjectStore.setUpdatedProject project state in
  map Project.id (ProjectStore.projects state')
  = map Project.id (ProjectStore.projects state)
  /\ option_map Project.id (ProjectStore.currentProject state')
     = option_map Project.id (ProjectStore.currentProject state)
  /\ (forall p, In p (ProjectStore.projects state') ->
                Project.id p = Project.id project -> p = project)
  /\ (forall p, ProjectStore.currentProject state' = Some p ->
                Project.id p = Project.id project -> p = project).
Proof.
  cbv zeta. unfold ProjectStore.setUpdatedProject. cbn.
  split; [apply ids_replace|]. split; [|split].
  - destruct (ProjectStore.currentProject state) as [cur|]; [|reflexivity].
    destruct (String.eqb_spec (Project.id cur) (Project.id project)) as [E|_];
      simpl; [now rewrite E | reflexivity].
  - intros p Hin Hid. apply in_map_iff in Hin.
    destruct Hin as (q & Hq & _).
    destruct (String.eqb_spec (Project.id q) (Project.id project)) as [E|N].
    + now symmetry.
    + subst q. now elim N.
  - intros p Hcur Hid.
    destruct (ProjectStore.currentProject state) as [cur|]; [|discriminate].
    destruct (String.eqb_spec (Project.id cur) (Project.id project)) as [E|N].
    + now injection Hcur as <-.
    + injection Hcur as <-. now elim N.
Qed.

(** A project that is not in the store is not added by
    [setUpdatedProject]: when neither the list nor the current project has
    its id, the store is left as it is. *)
Theorem setUpdatedProject_of_unknown_project
        (project : Project.t) (state : ProjectStore.ProjectState) :
  (forall p, In p (ProjectStore.projects state) ->
             Project.id p <> Project.id project) ->
  (forall p, ProjectStore.currentProject state = Some p ->
             Project.id p <> Project.id project) ->
  ProjectStore.setUpdatedProject project state = state.
Proof.
  intros Hlist Hcur. destruct state as [ps cur loading err].
  unfold ProjectStore.setUpdatedProject. cbn in *.
  rewrite (@replace_absent project ps Hlist). f_equal.
  destruct cur as [c|]; [|reflexivity].
  now rewrite (proj2 (String.eqb_neq _ _) (Hcur c eq_refl)).
Qed.

(** [deleteProject] removes on success and only on success.  When the
    server reports success the answer is [true], the list keeps exactly the
    projects with another id, in order, and the current project is dropped
    exactly when it has the id; otherwise the answer is [false] and the
    list and the current project are as before. *)
Theorem deleteProject_outcome
        (deleteProjectApi : string -> Outcome (ApiResponse.t unit))
        (id : string) (state : ProjectStore.ProjectState) :
  let result := ProjectStoreActions.deleteProject deleteProjectApi id state in
  let state' := snd result in
  ((exists r, deleteProjectApi id = Resolved r
              /\ ApiResponse.success r = true)
   /\ fst result = true
   /\ ProjectStore.projects state'
      = filter (fun p => negb (String.eqb (Project.id p) id))
               (ProjectStore.projects state)
   /\ (forall p, In p (ProjectStore.projects state') -> Project.id p <> id)
   /\ ProjectStore.currentProject state'
      = match ProjectStore.currentProject state with
        | Some cur => if String.eqb (Project.id cur) id then None else Some cur
        | None => None
        end)
  \/ ((forall r, deleteProjectApi id = Resolved r ->
                 ApiResponse.success r = false)
      /\ fst result = false
      /\ ProjectStore.projects state' = ProjectStore.projects state
      /\ ProjectStore.currentProject state'
         = ProjectStore.currentProject state).
Proof.
  cbv zeta. unfold ProjectStoreActions.deleteProject.
  destruct (deleteProjectApi id) as [r|m] eqn:Hcall.
  - destruct (ApiResponse.success r) eqn:Hs; cbn.
    + left. split; [now exists r|]. repeat split.
      intros p Hin. apply filter_In in Hin. destruct Hin as [_ Hne].
      apply negb_true_iff in Hne. now apply String.eqb_neq.
    + right. repeat split. intros r' Hr'. now injection Hr' as <-.
  - right. cbn. repeat split. intros r' Hr'. discriminate.
Qed.

(** [updateProject] and [setUpdatedProject] agree: when the server answers
    an update with a project that has the requested id, the project list and
    the current project after [updateProject] are those after
    [setUpdatedProject] of the returned project. *)
Theorem updateProject_as_setUpdatedProject
        (updateProjectApi : string -> UpdateProjectRequest.t ->
                            Outcome (ApiResponse.t Project.t))
        (id : string) (data : UpdateProjectRequest.t)
        (state : ProjectStore.ProjectState)
        (r : ApiResponse.t Project.t) (d : Project.t) :
  updateProjectApi id data = Resolved r ->
  ApiResponse.success r = true ->
  ApiResponse.data r = Some d ->
  Project.id d = id ->
  let result := ProjectStoreActions.updateProject updateProjectApi id data state in
  fst result = true
  /\ ProjectStore.projects (snd result)
     = ProjectStore.projects (ProjectStore.setUpdatedProject d state)
  /\ ProjectStore.currentProject (snd result)
     = ProjectStore.currentProject (ProjectStore.setUpdatedProject d state).
Proof.
  intros Hcall Hs Hd Hid. cbv zeta.
  unfold ProjectStoreActions.updateProject. rewrite Hcall, Hs, Hd.
  subst id. repeat split.
Qed.

(** [handleApplyChanges] never adds, removes or reorders the projects of the
    store, whatever the server answers: the ids of the project list are the
    same before and after. *)
Theorem handleApplyChanges_keeps_project_ids
        (buildMediaUrl : string -> string)
        (post : string -> list TextChange.t ->
                Outcome (ApiResponse.t ProjectApiResponse.t))
        (getProject : string -> Outcome (ApiResponse.t Project.t))
        (selected : option Project.t) (w : World) :
  map Project.id
      (ProjectStore.projects
         (store (handleApplyChanges buildMediaUrl post getProject selected w)))
  = map Project.id (ProjectStore.projects (store w)).
Proof.
  unfold handleApplyChanges.
  destruct selected as [project|]; [|reflexivity].
  destruct (String.eqb _ _ || Nat.eqb _ _); [reflexivity|].
  destruct (ProjectApi.applyTranscriptChanges _ _ _ _) as [r|m];
    [|reflexivity].
  destruct (ApiResponse.success r), (ApiResponse.data r) as [d|];
    try reflexivity.
  cbn. rewrite projects_refreshCurrentProject.
  unfold ProjectStore.setUpdatedProject. cbn. apply ids_replace.
Qed.

(** Every run of [handleApplyChanges] that passes its guard ends with the
    busy flag cleared and has made the loading toast call followed by
    exactly one more toast call: the success toast when the server reported
    success, an error toast otherwise. *)
Theorem handleApplyChanges_always_finishes
        (buildMediaUrl : string -> string)
        (post : string -> list TextChange.t ->
                Outcome (ApiResponse.t ProjectApiResponse.t))
        (getProject : string -> Outcome (ApiResponse.t Project.t))
        (project : Project.t) (w : World) :
  submits project w ->
  let w' := handleApplyChanges buildMediaUrl post getProject (Some project) w in
  isApplyingChanges (panel w') = false
  /\ exists loading final,
       toasts w' = toasts w ++ [loading; final]
       /\ toastKind loading = ToastLoading
       /\ ((toastKind final = ToastSuccess
            /\ exists d, reportsSuccess post (Project.id project)
                                        (changes (panel w)) d)
           \/ (toastKind final = ToastError
               /\ forall d, ~ reportsSuccess post (Project.id project)
                                             (changes (panel w)) d)).
Proof.
  intros Hsub. cbv zeta. unfold handleApplyChanges.
  rewrite (guard_passes Hsub).
  destruct (ProjectApi.applyTranscriptChanges buildMediaUrl post
              (Project.id project) (changes (panel w))) as [r|m] eqn:Hcall.
  - destruct (ApiResponse.success r) eqn:Hs,
             (ApiResponse.data r) as [p|] eqn:Hd.
    + destruct (applyTranscriptChanges_success _ _ _ _ Hcall Hs Hd)
        as (d & Hrep & _).
      split; [reflexivity|]. cbn. do 2 eexists. rewrite <- app_assoc.
      split; [reflexivity|]. split; [reflexivity|]. left.
      split; [reflexivity | now exists d].
    + split; [reflexivity|]. cbn. do 2 eexists. rewrite <- app_assoc.
      split; [reflexivity|]. split; [reflexivity|]. right.
      split; [reflexivity|]. intros d Hrep.
      destruct (applyTranscriptChanges_of_success buildMediaUrl Hrep)
        as (r' & Hcall' & _ & Hd').
      rewrite Hcall in Hcall'. injection Hcall' as <-.
      rewrite Hd in Hd'. discriminate.
    + split; [reflexivity|]. cbn. do 2 eexists. rewrite <- app_assoc.
      split; [reflexivity|]. split; [reflexivity|]. right.
      split; [reflexivity|]. intros d Hrep.
      destruct (applyTranscriptChanges_of_success buildMediaUrl Hrep)
        as (r' & Hcall' & Hs' & _).
      rewrite Hcall in Hcall'. injection Hcall' as <-.
      rewrite Hs in Hs'. discriminate.
    + split; [reflexivity|]. cbn. do 2 eexists. rewrite <- app_assoc.
      split; [reflexivity|]. split; [reflexivity|]. right.
      split; [reflexivity|]. intros d Hrep.
      destruct (applyTranscriptChanges_of_success buildMediaUrl Hrep)
        as (r' & Hcall' & Hs' & _).
      rewrite Hcall in Hcall'. injection Hcall' as <-.
      rewrite Hs in Hs'. discriminate.
  - split; [reflexivity|]. cbn. do 2 eexists. rewrite <- app_assoc.
    split; [reflexivity|]. split; [reflexivity|]. right.
    split; [reflexivity|]. intros d Hrep.
    destruct (applyTranscriptChanges_of_success buildMediaUrl Hrep)
      as (r' & Hcall' & _).
    rewrite Hcall in Hcall'. discriminate.
Qed.

(* --------------------------------------------------------------------- *)
(** ** Key case conversion, media URLs and status counts                 *)
(* --------------------------------------------------------------------- *)

Section Letters.

Lemma upper_lower (a : ascii) :
  Utils.isUpper a = true ->
  Utils.isLower (Utils.toLowerCase a) = true
  /\ Utils.toUpperCase (Utils.toLowerCase a) = a.
Proof.
  destruct a as [[] [] [] [] [] [] [] []]; intros H;
    try discriminate H; split; reflexivity.
Qed.

Lemma lower_upper (b : ascii) :
  Utils.isLower b = true ->
  Utils.isUpper (Utils.toUpperCase b) = true
  /\ Utils.toLowerCase (Utils.toUpperCase b) = b.
Proof.
  destruct b as [[] [] [] [] [] [] [] []]; intros H;
    try discriminate H; split; reflexivity.
Qed.

Lemma underscore_no_letter (a : ascii) :
  Ascii.eqb a "_" = true -> Utils.isUpper a = false /\ Utils.isLower a = false.
Proof.
  intros H. apply Ascii.eqb_eq in H. subst a. split; reflexivity.
Qed.

(** The first character of [toSnakeCase rest] is a small letter only when
    the first character of [rest] is. *)
Lemma toSnakeCase_head (c : ascii) (rest : string) (b : ascii) (r : string) :
  Utils.toSnakeCase (String c rest) = String b r ->
  Utils.isLower b = true -> b = c.
Proof.
  simpl. destruct (Utils.isUpper c).
  - intros H Hl. injection H as <- _. discriminate Hl.
  - intros H _. now injection H.
Qed.

Lemma noUnderscoreLower_tail (a : ascii) (rest : string) :
  noUnderscoreLower (String a rest) -> noUnderscoreLower rest.
Proof.
  destruct rest as [|b rest']; [trivial|]. intros [_ H]. exact H.
Qed.

Lemma toCamelCase_two (a b : ascii) (rest : string) :
  Utils.toCamelCase (String a (String b rest))
  = if (Ascii.eqb a "_" && Utils.isLower b)%bool
    then String (Utils.toUpperCase b) (Utils.toCamelCase rest)
    else String a (Utils.toCamelCase (String b rest)).
Proof. reflexivity. Qed.

Lemma toSnakeCase_toCamelCase_le (n : nat) :
  forall s, (String.length s <= n)%nat -> noUpper s ->
            Utils.toSnakeCase (Utils.toCamelCase s) = s.
Proof.
  induction n as [|n IH]; intros s Hlen Hup.
  - destruct s; [reflexivity | simpl in Hlen; lia].
  - destruct s as [|a rest]; [reflexivity|].
    destruct Hup as [Ha Hrest].
    destruct rest as [|b rest'].
    + simpl. now rewrite Ha.
    + rewrite toCamelCase_two.
      destruct (Ascii.eqb a "_" && Utils.isLower b)%bool eqn:Hc.
      * apply andb_prop in Hc. destruct Hc as [Hu Hl].
        apply Ascii.eqb_eq in Hu. subst a.
        destruct (lower_upper b Hl) as [Hup' Hback].
        cbn [Utils.toSnakeCase]. rewrite Hup', Hback.
        rewrite IH; [reflexivity | simpl in Hlen; lia |].
        destruct Hrest as [_ H]. exact H.
      * cbn [Utils.toSnakeCase]. rewrite Ha.
        rewrite IH; [reflexivity | simpl in *; lia | exact Hrest].
Qed.

End Letters.

(** Camel case keys survive the round trip through snake case:
    [toCamelCase(toSnakeCase(s))] is [s] for every string in which no
    underscore is followed by a small letter. *)
Theorem toCamelCase_toSnakeCase (s : string) :
  noUnderscoreLower s ->
  Utils.toCamelCase (Utils.toSnakeCase s) = s.
Proof.
  induction s as [|a rest IH]; intros H; [reflexivity|].
  assert (IH' := IH (noUnderscoreLower_tail _ _ H)).
  cbn [Utils.toSnakeCase].
  destruct (Utils.isUpper a) eqn:Ha.
  - destruct (upper_lower a Ha) as [Hl Hback].
    cbn [Utils.toCamelCase]. rewrite Hl. simpl.
    now rewrite Hback, IH'.
  - cbn [Utils.toCamelCase].
    destruct (Utils.toSnakeCase rest) as [|b r] eqn:Hsnake.
    + destruct rest as [|c rest']; [reflexivity|].
      simpl in Hsnake. destruct (Utils.isUpper c); discriminate.
    + destruct (Ascii.eqb a "_" && Utils.isLower b)%bool eqn:Hc.
      * exfalso. apply andb_prop in Hc. destruct Hc as [Hu Hl].
        destruct rest as [|c rest']; [discriminate|].
        assert (b = c) by (eapply toSnakeCase_head; eassumption). subst c.
        destruct H as [H _]. rewrite Hu, Hl in H. discriminate.
      * now rewrite IH'.
Qed.

(** Snake case keys survive the round trip through camel case:
    [toSnakeCase(toCamelCase(s))] is [s] for every string without capital
    letters. *)
Theorem toSnakeCase_toCamelCase (s : string) :
  noUpper s ->
  Utils.toSnakeCase (Utils.toCamelCase s) = s.
Proof.
  intros H.
  apply (@toSnakeCase_toCamelCase_le (String.length s) s); [lia | exact H].
Qed.

(** A relative media path gives the same URL with and without its leading
    slash: for a non-empty path that does not start with a slash, when
    neither form parses as an http(s) URL, [buildMediaUrl] of both is the
    base URL, a slash and the path. *)
Theorem buildMediaUrl_leading_slash
        (urlProtocol : string -> option string) (envBaseUrl : option string)
        (a : ascii) (rest : string) :
  Ascii.eqb a "/" = false ->
  Utils.isValidMediaUrl urlProtocol (String a rest) = false ->
  Utils.isValidMediaUrl urlProtocol (String "/" (String a rest)) = false ->
  Utils.buildMediaUrl urlProtocol envBaseUrl (String "/" (String a rest))
  = (Utils.baseUrl envBaseUrl ++ "/" ++ String a rest)%string
  /\ Utils.buildMediaUrl urlProtocol envBaseUrl (String a rest)
     = (Utils.baseUrl envBaseUrl ++ "/" ++ String a rest)%string.
Proof.
  intros Ha H1 H2. unfold Utils.buildMediaUrl. rewrite H1, H2.
  split; [reflexivity|]. unfold Utils.cleanPath.
  destruct (Ascii.eqb_spec a "/") as [->|Hne]; [discriminate|].
  destruct a as [[] [] [] [] [] [] [] []]; try reflexivity. now elim Hne.
Qed.

(** A mapped project never carries an empty media URL: with the
    [buildMediaUrl] of the sources, the [videoUrl] and [thumbnailUrl] of
    [mapApiProjectToProject] are absent exactly when the wire field is
    absent or empty, and are otherwise non-empty strings. *)
Theorem mapApiProjectToProject_media_urls
        (urlProtocol : string -> option string) (envBaseUrl : option string)
        (apiProject : ProjectApiResponse.t) :
  let project :=
    ProjectApi.mapApiProjectToProject
      (Utils.buildMediaUrl urlProtocol envBaseUrl) apiProject in
  (Project.videoUrl project = None
   <-> ProjectApiResponse.video_url apiProject = None
       \/ ProjectApiResponse.video_url apiProject = Some EmptyString)
  /\ Project.videoUrl project <> Some EmptyString
  /\ (Project.thumbnailUrl project = None
      <-> ProjectApiResponse.thumbnail_url apiProject = None
          \/ ProjectApiResponse.thumbnail_url apiProject = Some EmptyString)
  /\ Project.thumbnailUrl project <> Some EmptyString.
Proof.
  assert (Hne : forall a rest,
             Utils.buildMediaUrl urlProtocol envBaseUrl (String a rest)
             <> EmptyString).
  { intros a rest. unfold Utils.buildMediaUrl.
    destruct (Utils.isValidMediaUrl urlProtocol (String a rest));
      [discriminate|].
    unfold Utils.baseUrl.
    destruct envBaseUrl as [[|c u]|]; simpl; discriminate. }
  assert (Hmedia : forall u,
             (ProjectApi.mediaUrl (Utils.buildMediaUrl urlProtocol envBaseUrl) u
              = None <-> u = None \/ u = Some EmptyString)
             /\ ProjectApi.mediaUrl
                  (Utils.buildMediaUrl urlProtocol envBaseUrl) u
                <> Some EmptyString).
  { intros [[|a rest]|]; simpl.
    - split; [tauto | discriminate].
    - split.
      + split; [discriminate | intros [H|H]; discriminate].
      + intros H. injection H as H. now apply (Hne a rest).
    - split; [tauto | discriminate]. }
  cbv zeta. unfold ProjectApi.mapApiProjectToProject. cbn.
  destruct (Hmedia (ProjectApiResponse.video_url apiProject)) as [V1 V2].
  destruct (Hmedia (ProjectApiResponse.thumbnail_url apiProject)) as [T1 T2].
  tauto.
Qed.

(** The status tabs of the projects page add up: the counts
    [getStatusCount] gives for the four statuses sum to the count it gives
    for ['all'], the number of projects. *)
Theorem getStatusCount_partition (projects : list Project.t) :
  (ProjectsPage.getStatusCount projects "uploading"
   + ProjectsPage.getStatusCount projects "processing"
   + ProjectsPage.getStatusCount projects "completed"
   + ProjectsPage.getStatusCount projects "error")%nat
  = ProjectsPage.getStatusCount projects "all"
  /\ ProjectsPage.getStatusCount projects "all" = List.length projects.
Proof.
  split; [|reflexivity].
  unfold ProjectsPage.getStatusCount. simpl String.eqb. cbv iota.
  induction projects as [|p ps IH]; [reflexivity|].
  simpl. destruct (Project.status p); simpl; lia.
Qed.

(* ===================================================================== *)
(** * The further properties at concrete inputs                          *)
(* ===================================================================== *)

(** Closed goals over the example inputs, settled by evaluation. *)
Ltac computed :=
  vm_compute;
  first [reflexivity | let Hc := fresh "Hc" in intro Hc; discriminate Hc].

Section RunsOfTextFunctions.

Local Open Scope string_scope.

(** "abcdefghij" with [0,1) -> "XX" and [3,4) -> "Y" is rendered as "XX",
    "bc", "Y", "efghij". *)
Lemma applyChangesToText_no_empty_unchanged_witness :
  ([Examples.editA; Examples.editB] <> []
   \/ TranscriptItem.text Examples.s1 <> [])
  /\ In Runs.pieceBC
        (applyChangesToText (TranscriptItem.text Examples.s1)
                            [Examples.editA; Examples.editB])
  /\ TextSegment.isChanged Runs.pieceBC = false
  /\ TextSegment.text Runs.pieceBC <> [].
Proof.
  assert (H1 : [Examples.editA; Examples.editB] <> []
               \/ TranscriptItem.text Examples.s1 <> [])
    by (left; discriminate).
  assert (H2 : In Runs.pieceBC
                  (applyChangesToText (TranscriptItem.text Examples.s1)
                                      [Examples.editA; Examples.editB]))
    by (right; left; reflexivity).
  assert (H3 : TextSegment.isChanged Runs.pieceBC = false) by reflexivity.
  split; [exact H1|]. split; [exact H2|]. split; [exact H3|].
  exact (@applyChangesToText_no_empty_unchanged
           (TranscriptItem.text Examples.s1)
           [Examples.editA; Examples.editB] Runs.pieceBC H1 H2 H3).
Defined.

Lemma getCurrentText_length_witness :
  nonOverlapping [Examples.editB; Examples.editOther; Examples.editA]
                 Examples.s1
  /\ inRange (JS.length (TranscriptItem.text Examples.s1))
             (changesOf [Examples.editB; Examples.editOther; Examples.editA]
                        Examples.s1)
  /\ JS.length (getCurrentText
                  [Examples.editB; Examples.editOther; Examples.editA]
                  Examples.s1)
     = JS.length (TranscriptItem.text Examples.s1)
       + totalLengthChange
           (changesOf [Examples.editB; Examples.editOther; Examples.editA]
                      Examples.s1).
Proof.
  assert (H1 : nonOverlapping
                 [Examples.editB; Examples.editOther; Examples.editA]
                 Examples.s1)
    by (unfold nonOverlapping; simpl; lia).
  assert (H2 : inRange (JS.length (TranscriptItem.text Examples.s1))
                 (changesOf
                    [Examples.editB; Examples.editOther; Examples.editA]
                    Examples.s1))
    by (vm_compute; repeat (constructor; [intro Hgt; discriminate Hgt|]);
        constructor).
  split; [exact H1|]. split; [exact H2|].
  exact (@getCurrentText_length
           [Examples.editB; Examples.editOther; Examples.editA]
           Examples.s1 H1 H2).
Defined.

Lemma getCurrentText_edits_that_keep_text_witness :
  nonOverlapping [Runs.keepB; Runs.keepA] Examples.s1
  /\ inRange (JS.length (TranscriptItem.text Examples.s1))
             (changesOf [Runs.keepB; Runs.keepA] Examples.s1)
  /\ Forall (keepsText (TranscriptItem.text Examples.s1))
            (changesOf [Runs.keepB; Runs.keepA] Examples.s1)
  /\ getCurrentText [Runs.keepB; Runs.keepA] Examples.s1
     = TranscriptItem.text Examples.s1.
Proof.
  assert (H1 : nonOverlapping [Runs.keepB; Runs.keepA] Examples.s1)
    by (unfold nonOverlapping; simpl; lia).
  assert (H2 : inRange (JS.length (TranscriptItem.text Examples.s1))
                 (changesOf [Runs.keepB; Runs.keepA] Examples.s1))
    by (vm_compute; repeat (constructor; [intro Hgt; discriminate Hgt|]);
        constructor).
  assert (H3 : Forall (keepsText (TranscriptItem.text Examples.s1))
                 (changesOf [Runs.keepB; Runs.keepA] Examples.s1))
    by (repeat constructor).
  split; [exact H1|]. split; [exact H2|]. split; [exact H3|].
  exact (@getCurrentText_edits_that_keep_text
           [Runs.keepB; Runs.keepA] Examples.s1 H1 H2 H3).
Defined.

Lemma getCurrentText_splices_original_witness :
  nonOverlapping [Examples.editB; Examples.editOther; Examples.editA]
                 Examples.s1
  /\ Forall (fun c => TextChange.endIndex c
                      <= JS.length (TranscriptItem.text Examples.s1))
            (changesOf [Examples.editB; Examples.editOther; Examples.editA]
                       Examples.s1)
  /\ getCurrentText [Examples.editB; Examples.editOther; Examples.editA]
                    Examples.s1
     = spliced (TranscriptItem.text Examples.s1) 0
               (sortChanges
                  (changesOf
                     [Examples.editB; Examples.editOther; Examples.editA]
                     Examples.s1)).
Proof.
  assert (H1 : nonOverlapping
                 [Examples.editB; Examples.editOther; Examples.editA]
                 Examples.s1)
    by (unfold nonOverlapping; simpl; lia).
  assert (H2 : Forall (fun c => TextChange.endIndex c
                                <= JS.length (TranscriptItem.text Examples.s1))
                 (changesOf
                    [Examples.editB; Examples.editOther; Examples.editA]
                    Examples.s1))
    by (vm_compute; repeat (constructor; [intro Hgt; discriminate Hgt|]);
        constructor).
  split; [exact H1|]. split; [exact H2|].
  exact (@getCurrentText_splices_original
           [Examples.editB; Examples.editOther; Examples.editA]
           Examples.s1 H1 H2).
Defined.

End RunsOfTextFunctions.

Section RunsOfThePanel.

Local Open Scope string_scope.
Local Open Scope list_scope.

(** With "a" -> "XX" recorded, the panel shows "XXbcdefghij"; selecting
    "def" opens the tooltip on [4,7). *)
Lemma handleTextSelection_range_witness :
  find (fun x => String.eqb (TranscriptItem.id x) "s1") Runs.both
  = Some Examples.s1
  /\ isBlank (JS.lit "def") = false
  /\ exists es,
       handleTextSelection Runs.both "s1" (Some (JS.lit "def")) Runs.rect
                           (Runs.panelWith [Examples.editA])
       = Some (withEditing es (Runs.panelWith [Examples.editA]))
       /\ EditingState.transcriptId es = "s1"
       /\ EditingState.selectedText es = JS.lit "def"
       /\ EditingState.newText es = JS.lit "def"
       /\ EditingState.endIndex es
          = EditingState.startIndex es + JS.length (JS.lit "def")
       /\ let current :=
            getCurrentText (changes (Runs.panelWith [Examples.editA]))
                           Examples.s1 in
          (0 <= EditingState.startIndex es
           /\ EditingState.endIndex es <= JS.length current
           /\ JS.substring current (EditingState.startIndex es)
                           (EditingState.endIndex es) = JS.lit "def"
           /\ forall k, 0 <= k < EditingState.startIndex es ->
                        JS.substring current k (k + JS.length (JS.lit "def"))
                        <> JS.lit "def")
          \/ (EditingState.startIndex es = -1
              /\ forall k, 0 <= k ->
                           JS.substring current k (k + JS.length (JS.lit "def"))
                           <> JS.lit "def").
Proof.
  assert (H1 : find (fun x => String.eqb (TranscriptItem.id x) "s1") Runs.both
               = Some Examples.s1) by reflexivity.
  assert (H2 : isBlank (JS.lit "def") = false) by reflexivity.
  split; [exact H1|]. split; [exact H2|].
  exact (@handleTextSelection_range Runs.both "s1" (JS.lit "def") Runs.rect
           (Runs.panelWith [Examples.editA]) Examples.s1 H1 H2).
Defined.

(** Selecting "def" in the untouched "abcdefghij" and typing "XYZ" gives
    "abcXYZghij". *)
Lemma first_edit_replaces_first_occurrence_witness :
  find (fun x => String.eqb (TranscriptItem.id x) "s1") Runs.both
  = Some Examples.s1
  /\ isBlank (JS.lit "def") = false
  /\ changesOf (changes (Runs.panelWith [])) Examples.s1 = []
  /\ 0 <= indexOf (TranscriptItem.text Examples.s1) (JS.lit "def")
  /\ exists st',
       selectTypeSave Runs.both "s1" (JS.lit "def") (JS.lit "XYZ") Runs.rect
                      "11" "10:00:01 AM" (Runs.panelWith [])
       = Some st'
       /\ let i := indexOf (TranscriptItem.text Examples.s1) (JS.lit "def") in
          TranscriptItem.text Examples.s1
          = JS.substring (TranscriptItem.text Examples.s1) 0 i
              ++ JS.lit "def"
              ++ JS.substringFrom (TranscriptItem.text Examples.s1)
                                  (i + JS.length (JS.lit "def"))
          /\ getCurrentText (changes st') Examples.s1
             = JS.substring (TranscriptItem.text Examples.s1) 0 i
                 ++ JS.lit "XYZ"
                 ++ JS.substringFrom (TranscriptItem.text Examples.s1)
                                     (i + JS.length (JS.lit "def"))
          /\ forall k, 0 <= k < i ->
                       JS.substring (TranscriptItem.text Examples.s1) k
                                    (k + JS.length (JS.lit "def"))
                       <> JS.lit "def".
Proof.
  assert (H1 : find (fun x => String.eqb (TranscriptItem.id x) "s1") Runs.both
               = Some Examples.s1) by reflexivity.
  assert (H2 : isBlank (JS.lit "def") = false) by reflexivity.
  assert (H3 : changesOf (changes (Runs.panelWith [])) Examples.s1 = [])
    by reflexivity.
  assert (H4 : 0 <= indexOf (TranscriptItem.text Examples.s1) (JS.lit "def"))
    by computed.
  split; [exact H1|]. split; [exact H2|]. split; [exact H3|].
  split; [exact H4|].
  exact (@first_edit_replaces_first_occurrence Runs.both "s1" (JS.lit "def")
           (JS.lit "XYZ") Runs.rect "11" "10:00:01 AM" (Runs.panelWith [])
           Examples.s1 H1 H2 H3 H4).
Defined.

(** With "a" -> "XX" recorded the panel shows "XXbcdefghij"; selecting
    "def" there, at index 4, and typing "XYZ" replaces the range [5,8) of
    the shown text. *)
Lemma edit_after_recorded_change_is_shifted_witness :
  find (fun x => String.eqb (TranscriptItem.id x) "s1") Runs.both
  = Some Examples.s1
  /\ isBlank (JS.lit "def") = false
  /\ changesOf (changes (Runs.panelWith [Examples.editA])) Examples.s1
     = [Examples.editA]
  /\ TextChange.startIndex Examples.editA
     <= indexOf (getCurrentText (changes (Runs.panelWith [Examples.editA]))
                                Examples.s1)
                (JS.lit "def")
  /\ exists st',
       selectTypeSave Runs.both "s1" (JS.lit "def") (JS.lit "XYZ") Runs.rect
                      "11" "10:00:01 AM" (Runs.panelWith [Examples.editA])
       = Some st'
       /\ let current :=
            getCurrentText (changes (Runs.panelWith [Examples.editA]))
                           Examples.s1 in
          let i := indexOf current (JS.lit "def") in
          getCurrentText (changes st') Examples.s1
          = JS.substring current 0 (i + lengthChange Examples.editA)
              ++ JS.lit "XYZ"
              ++ JS.substringFrom current
                   (i + JS.length (JS.lit "def") + lengthChange Examples.editA).
Proof.
  assert (H1 : find (fun x => String.eqb (TranscriptItem.id x) "s1") Runs.both
               = Some Examples.s1) by reflexivity.
  assert (H2 : isBlank (JS.lit "def") = false) by reflexivity.
  assert (H3 : changesOf (changes (Runs.panelWith [Examples.editA]))
                         Examples.s1
               = [Examples.editA]) by reflexivity.
  assert (H4 : TextChange.startIndex Examples.editA
               <= indexOf (getCurrentText
                             (changes (Runs.panelWith [Examples.editA]))
                             Examples.s1)
                          (JS.lit "def")) by computed.
  split; [exact H1|]. split; [exact H2|]. split; [exact H3|].
  split; [exact H4|].
  exact (@edit_after_recorded_change_is_shifted Runs.both "s1" (JS.lit "def")
           (JS.lit "XYZ") Runs.rect "11" "10:00:01 AM"
           (Runs.panelWith [Examples.editA]) Examples.s1 Examples.editA
           H1 H2 H3 H4).
Defined.

(** With "h" -> "HH" recorded at [7,8) the panel shows "abcdefgHHij";
    selecting "abc" there and typing "XYZ" replaces the range [0,3). *)
Lemma edit_before_recorded_change_is_in_place_witness :
  find (fun x => String.eqb (TranscriptItem.id x) "s1") Runs.both
  = Some Examples.s1
  /\ isBlank (JS.lit "abc") = false
  /\ changesOf (changes (Runs.panelWith [Runs.editLate])) Examples.s1
     = [Runs.editLate]
  /\ 0 <= TextChange.startIndex Runs.editLate
       <= TextChange.endIndex Runs.editLate
  /\ TextChange.endIndex Runs.editLate
     <= JS.length (TranscriptItem.text Examples.s1)
  /\ 0 <= indexOf (getCurrentText (changes (Runs.panelWith [Runs.editLate]))
                                  Examples.s1)
                  (JS.lit "abc")
  /\ indexOf (getCurrentText (changes (Runs.panelWith [Runs.editLate]))
                             Examples.s1)
             (JS.lit "abc")
     + JS.length (JS.lit "abc")
     <= TextChange.startIndex Runs.editLate
  /\ exists st',
       selectTypeSave Runs.both "s1" (JS.lit "abc") (JS.lit "XYZ") Runs.rect
                      "11" "10:00:01 AM" (Runs.panelWith [Runs.editLate])
       = Some st'
       /\ let current :=
            getCurrentText (changes (Runs.panelWith [Runs.editLate]))
                           Examples.s1 in
          let i := indexOf current (JS.lit "abc") in
          getCurrentText (changes st') Examples.s1
          = JS.substring current 0 i
              ++ JS.lit "XYZ"
              ++ JS.substringFrom current (i + JS.length (JS.lit "abc")).
Proof.
  assert (H1 : find (fun x => String.eqb (TranscriptItem.id x) "s1") Runs.both
               = Some Examples.s1) by reflexivity.
  assert (H2 : isBlank (JS.lit "abc") = false) by reflexivity.
  assert (H3 : changesOf (changes (Runs.panelWith [Runs.editLate]))
                         Examples.s1
               = [Runs.editLate]) by reflexivity.
  assert (H4 : 0 <= TextChange.startIndex Runs.editLate
               <= TextChange.endIndex Runs.editLate) by (split; computed).
  assert (H5 : TextChange.endIndex Runs.editLate
               <= JS.length (TranscriptItem.text Examples.s1)) by computed.
  assert (H6 : 0 <= indexOf (getCurrentText
                               (changes (Runs.panelWith [Runs.editLate]))
                               Examples.s1)
                            (JS.lit "abc")) by computed.
  assert (H7 : indexOf (getCurrentText
                          (changes (Runs.panelWith [Runs.editLate]))
                          Examples.s1)
                       (JS.lit "abc")
               + JS.length (JS.lit "abc")
               <= TextChange.startIndex Runs.editLate) by computed.
  split; [exact H1|]. split; [exact H2|]. split; [exact H3|].
  split; [exact H4|]. split; [exact H5|]. split; [exact H6|].
  split; [exact H7|].
  exact (@edit_before_recorded_change_is_in_place Runs.both "s1"
           (JS.lit "abc") (JS.lit "XYZ") Runs.rect "11" "10:00:01 AM"
           (Runs.panelWith [Runs.editLate]) Examples.s1 Runs.editLate
           H1 H2 H3 H4 H5 H6 H7).
Defined.

(** A save at clock reading "2" over the change with id "3", then the
    deletion of "2". *)
Lemma delete_undoes_save_witness :
  editingState (panel (Examples.world [Examples.editA] (Some Examples.editingA)))
  = Some Examples.editingA
  /\ find (fun x => String.eqb (TranscriptItem.id x)
                               (EditingState.transcriptId Examples.editingA))
          Runs.both
     = Some Examples.s1
  /\ (forall c,
        In c (changes (panel (Examples.world [Examples.editA]
                                             (Some Examples.editingA)))) ->
        TextChange.id c <> "2")
  /\ changes (panel (handleDeleteChange "2"
                       (onPanel (handleSaveEdit Runs.both "2" "10:00:01 AM")
                                (Examples.world [Examples.editA]
                                                (Some Examples.editingA)))))
     = changes (panel (Examples.world [Examples.editA]
                                      (Some Examples.editingA))).
Proof.
  assert (H1 : editingState (panel (Examples.world [Examples.editA]
                                                   (Some Examples.editingA)))
               = Some Examples.editingA) by reflexivity.
  assert (H2 : find (fun x => String.eqb (TranscriptItem.id x)
                                (EditingState.transcriptId Examples.editingA))
                    Runs.both
               = Some Examples.s1) by reflexivity.
  assert (H3 : forall c,
             In c (changes (panel (Examples.world [Examples.editA]
                                                  (Some Examples.editingA)))) ->
             TextChange.id c <> "2")
    by (intros c [<-|[]]; computed).
  split; [exact H1|]. split; [exact H2|]. split; [exact H3|].
  exact (@delete_undoes_save Runs.both "2" "10:00:01 AM"
           (Examples.world [Examples.editA] (Some Examples.editingA))
           Examples.editingA Examples.s1 H1 H2 H3).
Defined.

(** Two saves at clock reading "2", on the two segments, and one deletion
    of "2". *)
Lemma delete_removes_all_changes_of_an_id_witness :
  editingState (panel (Examples.world [Examples.editA] (Some Examples.editingA)))
  = Some Examples.editingA
  /\ find (fun x => String.eqb (TranscriptItem.id x)
                               (EditingState.transcriptId Examples.editingA))
          Runs.both
     = Some Examples.s1
  /\ find (fun x => String.eqb (TranscriptItem.id x)
                               (EditingState.transcriptId Runs.editingOther))
          Runs.both
     = Some Runs.s2
  /\ (forall c,
        In c (changes (panel (Examples.world [Examples.editA]
                                             (Some Examples.editingA)))) ->
        TextChange.id c <> "2")
  /\ let w := Examples.world [Examples.editA] (Some Examples.editingA) in
     let w1 := onPanel (handleSaveEdit Runs.both "2" "10:00:01 AM") w in
     let w2 := onPanel (fun st => handleSaveEdit Runs.both "2" "10:00:02 AM"
                                    (withEditing Runs.editingOther st)) w1 in
     List.length (changes (panel w2)) = S (S (List.length (changes (panel w))))
     /\ changes (panel (handleDeleteChange "2" w2)) = changes (panel w).
Proof.
  assert (H1 : editingState (panel (Examples.world [Examples.editA]
                                                   (Some Examples.editingA)))
               = Some Examples.editingA) by reflexivity.
  assert (H2 : find (fun x => String.eqb (TranscriptItem.id x)
                                (EditingState.transcriptId Examples.editingA))
                    Runs.both
               = Some Examples.s1) by reflexivity.
  assert (H3 : find (fun x => String.eqb (TranscriptItem.id x)
                                (EditingState.transcriptId Runs.editingOther))
                    Runs.both
               = Some Runs.s2) by reflexivity.
  assert (H4 : forall c,
             In c (changes (panel (Examples.world [Examples.editA]
                                                  (Some Examples.editingA)))) ->
             TextChange.id c <> "2")
    by (intros c [<-|[]]; computed).
  split; [exact H1|]. split; [exact H2|]. split; [exact H3|].
  split; [exact H4|].
  exact (@delete_removes_all_changes_of_an_id Runs.both "2" "10:00:01 AM"
           "10:00:02 AM"
           (Examples.world [Examples.editA] (Some Examples.editingA))
           Examples.editingA Runs.editingOther Examples.s1 Runs.s2
           H1 H2 H3 H4).
Defined.

(** Saving the tooltip open on "s1" leaves "zebra" with its one edit as it
    was. *)
Lemma save_leaves_other_items_witness :
  (forall es,
      editingState (panel (Examples.world [Examples.editOther]
                                          (Some Examples.editingA)))
      = Some es ->
      EditingState.transcriptId es <> TranscriptItem.id Runs.s2)
  /\ getCurrentText
       (changes (handleSaveEdit Runs.both "2" "10:00:01 AM"
                   (panel (Examples.world [Examples.editOther]
                                          (Some Examples.editingA)))))
       Runs.s2
     = getCurrentText
         (changes (panel (Examples.world [Examples.editOther]
                                         (Some Examples.editingA))))
         Runs.s2.
Proof.
  assert (H1 : forall es,
             editingState (panel (Examples.world [Examples.editOther]
                                                 (Some Examples.editingA)))
             = Some es ->
             EditingState.transcriptId es <> TranscriptItem.id Runs.s2)
    by (intros es Hes; injection Hes as <-; computed).
  split; [exact H1|].
  exact (@save_leaves_other_items Runs.both "2" "10:00:01 AM"
           (panel (Examples.world [Examples.editOther]
                                  (Some Examples.editingA)))
           Runs.s2 H1).
Defined.

(** Deleting the change "5" of "s2" leaves the text of "s1" as it was. *)
Lemma delete_leaves_other_items_witness :
  (forall c,
      In c (changes (panel (Examples.world [Examples.editA; Examples.editOther]
                                           None))) ->
      TextChange.id c = "5" ->
      TextChange.transcriptId c <> TranscriptItem.id Examples.s1)
  /\ getCurrentText
       (changes (panel (handleDeleteChange "5"
                          (Examples.world [Examples.editA; Examples.editOther]
                                          None))))
       Examples.s1
     = getCurrentText
         (changes (panel (Examples.world [Examples.editA; Examples.editOther]
                                         None)))
         Examples.s1.
Proof.
  assert (H1 : forall c,
             In c (changes (panel (Examples.world
                                     [Examples.editA; Examples.editOther]
                                     None))) ->
             TextChange.id c = "5" ->
             TextChange.transcriptId c <> TranscriptItem.id Examples.s1).
  { intros c [<-|[<-|[]]] Hid.
    - vm_compute in Hid. discriminate Hid.
    - computed. }
  split; [exact H1|].
  exact (@delete_leaves_other_items "5"
           (Examples.world [Examples.editA; Examples.editOther] None)
           Examples.s1 H1).
Defined.

End RunsOfThePanel.

Section RunsOfTheStore.

Local Open Scope string_scope.
Local Open Scope list_scope.

(** The store holds "p1" only; an update of "p2" changes nothing. *)
Lemma setUpdatedProject_of_unknown_project_witness :
  (forall p, In p (ProjectStore.projects (store (Examples.world [] None))) ->
             Project.id p <> Project.id Runs.project2)
  /\ (forall p,
        ProjectStore.currentProject (store (Examples.world [] None)) = Some p ->
        Project.id p <> Project.id Runs.project2)
  /\ ProjectStore.setUpdatedProject Runs.project2
                                    (store (Examples.world [] None))
     = store (Examples.world [] None).
Proof.
  assert (H1 : forall p,
             In p (ProjectStore.projects (store (Examples.world [] None))) ->
             Project.id p <> Project.id Runs.project2)
    by (intros p [<-|[]]; computed).
  assert (H2 : forall p,
             ProjectStore.currentProject (store (Examples.world [] None))
             = Some p ->
             Project.id p <> Project.id Runs.project2)
    by (intros p Hp; injection Hp as <-; computed).
  split; [exact H1|]. split; [exact H2|].
  exact (@setUpdatedProject_of_unknown_project Runs.project2
           (store (Examples.world [] None)) H1 H2).
Defined.

(** The rename of "p1", answered with the renamed project. *)
Lemma updateProject_as_setUpdatedProject_witness :
  Runs.updateOk "p1" Runs.rename
  = Resolved (ApiResponse.mk true (Some Runs.renamed) None None)
  /\ ApiResponse.success (ApiResponse.mk true (Some Runs.renamed) None None)
     = true
  /\ ApiResponse.data (ApiResponse.mk true (Some Runs.renamed) None None)
     = Some Runs.renamed
  /\ Project.id Runs.renamed = "p1"
  /\ let result :=
       ProjectStoreActions.updateProject Runs.updateOk "p1" Runs.rename
                                         (store (Examples.world [] None)) in
     fst result = true
     /\ ProjectStore.projects (snd result)
        = ProjectStore.projects
            (ProjectStore.setUpdatedProject Runs.renamed
                                            (store (Examples.world [] None)))
     /\ ProjectStore.currentProject (snd result)
        = ProjectStore.currentProject
            (ProjectStore.setUpdatedProject Runs.renamed
                                            (store (Examples.world [] None))).
Proof.
  assert (H1 : Runs.updateOk "p1" Runs.rename
               = Resolved (ApiResponse.mk true (Some Runs.renamed) None None))
    by reflexivity.
  assert (H2 : ApiResponse.success
                 (ApiResponse.mk true (Some Runs.renamed) None None)
               = true) by reflexivity.
  assert (H3 : ApiResponse.data
                 (ApiResponse.mk true (Some Runs.renamed) None None)
               = Some Runs.renamed) by reflexivity.
  assert (H4 : Project.id Runs.renamed = "p1") by reflexivity.
  split; [exact H1|]. split; [exact H2|]. split; [exact H3|].
  split; [exact H4|].
  exact (@updateProject_as_setUpdatedProject Runs.updateOk "p1" Runs.rename
           (store (Examples.world [] None))
           (ApiResponse.mk true (Some Runs.renamed) None None) Runs.renamed
           H1 H2 H3 H4).
Defined.

(** One pending change sent to a server that reports a failed synthesis. *)
Lemma handleApplyChanges_always_finishes_witness :
  submits Examples.project1 (Examples.world [Examples.editA] None)
  /\ let w := Examples.world [Examples.editA] None in
     let w' := handleApplyChanges Examples.mediaUrl Examples.serverFails
                                  Examples.getProjectOk
                                  (Some Examples.project1) w in
     isApplyingChanges (panel w') = false
     /\ exists loading final,
          toasts w' = toasts w ++ [loading; final]
          /\ toastKind loading = ToastLoading
          /\ ((toastKind final = ToastSuccess
               /\ exists d, reportsSuccess Examples.serverFails
                                           (Project.id Examples.project1)
                                           (changes (panel w)) d)
              \/ (toastKind final = ToastError
                  /\ forall d, ~ reportsSuccess Examples.serverFails
                                                (Project.id Examples.project1)
                                                (changes (panel w)) d)).
Proof.
  assert (H1 : submits Examples.project1
                       (Examples.world [Examples.editA] None))
    by (split; computed).
  split; [exact H1|].
  exact (@handleApplyChanges_always_finishes Examples.mediaUrl
           Examples.serverFails Examples.getProjectOk Examples.project1
           (Examples.world [Examples.editA] None) H1).
Defined.

End RunsOfTheStore.

Section RunsOfTheUtilities.

Local Open Scope string_scope.

(** "thumbnailUrl" becomes "thumbnail_url" and comes back. *)
Lemma toCamelCase_toSnakeCase_witness :
  noUnderscoreLower "thumbnailUrl"
  /\ Utils.toCamelCase (Utils.toSnakeCase "thumbnailUrl") = "thumbnailUrl".
Proof.
  assert (H1 : noUnderscoreLower "thumbnailUrl")
    by (cbn; repeat split; reflexivity).
  split; [exact H1|].
  exact (@toCamelCase_toSnakeCase "thumbnailUrl" H1).
Defined.

(** "mime_type" becomes "mimeType" and comes back. *)
Lemma toSnakeCase_toCamelCase_witness :
  noUpper "mime_type"
  /\ Utils.toSnakeCase (Utils.toCamelCase "mime_type") = "mime_type".
Proof.
  assert (H1 : noUpper "mime_type") by (cbn; repeat split; reflexivity).
  split; [exact H1|].
  exact (@toSnakeCase_toCamelCase "mime_type" H1).
Defined.

(** "/media/p1.mp4" and "media/p1.mp4" give the same URL. *)
Lemma buildMediaUrl_leading_slash_witness :
  Ascii.eqb "m" "/" = false
  /\ Utils.isValidMediaUrl Runs.protocolOf "media/p1.mp4" = false
  /\ Utils.isValidMediaUrl Runs.protocolOf "/media/p1.mp4" = false
  /\ Utils.buildMediaUrl Runs.protocolOf None "/media/p1.mp4"
     = (Utils.baseUrl None ++ "/" ++ "media/p1.mp4")%string
  /\ Utils.buildMediaUrl Runs.protocolOf None "media/p1.mp4"
     = (Utils.baseUrl None ++ "/" ++ "media/p1.mp4")%string.
Proof.
  assert (H1 : Ascii.eqb "m" "/" = false) by reflexivity.
  assert (H2 : Utils.isValidMediaUrl Runs.protocolOf "media/p1.mp4" = false)
    by reflexivity.
  assert (H3 : Utils.isValidMediaUrl Runs.protocolOf "/media/p1.mp4" = false)
    by reflexivity.
  split; [exact H1|]. split; [exact H2|]. split; [exact H3|].
  exact (@buildMediaUrl_leading_slash Runs.protocolOf None "m" "edia/p1.mp4"
           H1 H2 H3).
Defined.

End RunsOfTheUtilities.
